(** * Tel-Ran "First steps in Python and AI": verified model of the course code

    Shallow embedding of
      - [lesson1/io.py]  (the [stdin] / [stdout] teaching helpers),
      - [lesson1/hw.py]  (the console ATM: storage, view, controller),
      - [lesson2/hw.py]  (the smart-fan simulator),
    followed by the properties established about them.

    Conventions of the embedding.
      - Python [str] is a Rocq [string], i.e. the UTF-8 bytes of the text.
        Character classes ([str.strip], [str.isdigit], the digits of
        [Decimal]) are decided on the ASCII range; [len] counts bytes,
        which agrees with Python on ASCII text.
      - Python [int] is [Z]; [bytes] is [list byte].
      - A Python [dict] with string keys is a [gmap string _]
        (equality of maps is equality of their lookups, as [==] on dicts).
      - Code with effects runs in the monad [M] over a [World] holding the
        console streams, the backing file, and the random and clock sources.
        An exception is an outcome [Raise]; [while True] loops carry fuel,
        chosen by the entry points from the length of the pending input. *)

From stdpp Require Import gmap strings list fin_maps.
From Stdlib Require Import ZArith NArith Zpow_facts Ascii String Lia.
From Stdlib Require Strings.Byte.

Local Open Scope Z_scope.

(* ===================================================================== *)
(** * Python base: exceptions, results, text helpers                      *)
(* ===================================================================== *)

Module Py.

(** The exception classes that the modelled code can raise. *)
Inductive exn : Type :=
  | EOFError
  | ValueError
  | TypeError
  | KeyError
  | AttributeError
  | JSONDecodeError        (* json.JSONDecodeError, a ValueError *)
  | InvalidOperation       (* decimal.InvalidOperation *)
  | DecimalOverflow        (* decimal.Overflow *)
  | OverflowError.

#[global] Instance exn_eq_dec : EqDecision exn.
Proof. solve_decision. Defined.

(** [except (InvalidOperation, ValueError)]: JSONDecodeError is a subclass
    of ValueError. *)
Definition is_ValueError (e : exn) : bool :=
  match e with ValueError | JSONDecodeError => true | _ => false end.

(** Result of a computation without side effects. *)
Inductive res (A : Type) : Type :=
  | Ok (a : A)
  | Err (e : exn).
Arguments Ok {A} a.
Arguments Err {A} e.

#[global] Instance res_ret : MRet res := fun _ a => Ok a.
#[global] Instance res_bind : MBind res := fun _ _ k m =>
  match m with Ok a => k a | Err e => Err e end.

(** ** Characters and text *)

Definition LF : ascii := "010"%char.
Definition CR : ascii := "013"%char.
Definition nl : string := String LF EmptyString.
Definition comma : ascii := ","%char.
Definition point : ascii := "."%char.

(** [str.isspace] on the ASCII range: TAB, LF, VT, FF, CR, FS, GS, RS, US
    and the space. *)
Definition is_space (c : ascii) : bool :=
  let n := N_of_ascii c in
  (((9 <=? n) && (n <=? 13)) || ((28 <=? n) && (n <=? 32)))%N.

Definition is_digit (c : ascii) : bool :=
  let n := N_of_ascii c in ((48 <=? n) && (n <=? 57))%N.

Definition digit_val (c : ascii) : N := (N_of_ascii c - 48)%N.

Definition digit_char (d : N) : ascii := ascii_of_N (48 + d).

Fixpoint lstrip (s : string) : string :=
  match s with
  | EmptyString => EmptyString
  | String c r => if is_space c then lstrip r else s
  end.

Fixpoint rstrip (s : string) : string :=
  match s with
  | EmptyString => EmptyString
  | String c r =>
      match rstrip r with
      | EmptyString => if is_space c then EmptyString else String c EmptyString
      | r' => String c r'
      end
  end.

(** [s.strip()] *)
Definition strip (s : string) : string := rstrip (lstrip s).

(** [s.replace(old, new)] for one-character [old] and [new]. *)
Fixpoint replace_char (old new : ascii) (s : string) : string :=
  match s with
  | EmptyString => EmptyString
  | String c r =>
      String (if Ascii.eqb c old then new else c) (replace_char old new r)
  end.

(** [s.endswith(suffix)] *)
Fixpoint endswith (s suffix : string) : bool :=
  String.eqb s suffix ||
  match s with
  | EmptyString => false
  | String _ r => endswith r suffix
  end.

(** [s[:-1]] *)
Fixpoint drop_last (s : string) : string :=
  match s with
  | EmptyString => EmptyString
  | String c EmptyString => EmptyString
  | String c r => String c (drop_last r)
  end.

Fixpoint all_chars (p : ascii -> bool) (s : string) : bool :=
  match s with
  | EmptyString => true
  | String c r => p c && all_chars p r
  end.

(** [s.isdigit()]: at least one character and all of them digits. *)
Definition isdigit (s : string) : bool :=
  match s with
  | EmptyString => false
  | _ => all_chars is_digit s
  end.

(** [len(s)] *)
Definition len (s : string) : Z := Z.of_nat (String.length s).

(** [sep.join(parts)] *)
Fixpoint join (sep : string) (parts : list string) : string :=
  match parts with
  | [] => EmptyString
  | [p] => p
  | p :: ps => p +:+ sep +:+ join sep ps
  end.

(** [c * n] for a one-character string [c]. *)
Fixpoint repeat_char (c : ascii) (n : nat) : string :=
  match n with
  | O => EmptyString
  | S k => String c (repeat_char c k)
  end.

(** Decimal digits of a natural number, most significant first.  The fuel
    bounds the number of digits; [N.size_nat n] (the bit length) suffices. *)
Fixpoint digits_go (fuel : nat) (n : N) (acc : string) : string :=
  let acc' := String (digit_char (n mod 10)) acc in
  match fuel with
  | O => acc'
  | S f => if (n <? 10)%N then acc' else digits_go f (n / 10)%N acc'
  end.

Definition str_N (n : N) : string := digits_go (N.size_nat n) n EmptyString.

(** [str(n)] for an [int]. *)
Definition str_int (n : Z) : string :=
  if n <? 0 then String "-" (str_N (Z.to_N (- n))) else str_N (Z.to_N n).

(** [s.zfill(width)]: pad with zeros on the left, after a leading sign. *)
Definition zfill (width : nat) (s : string) : string :=
  let pad := repeat_char "0" (width - String.length s) in
  match s with
  | String c r =>
      if Ascii.eqb c "-" || Ascii.eqb c "+" then String c (pad +:+ r)
      else pad +:+ s
  | EmptyString => pad
  end.

(** [f"{n:02d}"] *)
Definition fmt_02d (n : Z) : string :=
  if n <? 0 then String "-" (zfill 1 (str_N (Z.to_N (- n))))
  else zfill 2 (str_N (Z.to_N n)).

(** Number of decimal digits of [n]; [str(0)] has one digit. *)
Definition ndigits (n : N) : Z := len (str_N n).

End Py.
Export Py.

(* ===================================================================== *)
(** * Decoded JSON values                                                  *)
(* ===================================================================== *)

Module Json.

(** A decoded JSON document, as [json.load] returns it: [None], [bool],
    [int], [float] (kept as its text), [str], [list], [dict]. *)
#[warnings="-register-all"]
Inductive json : Type :=
  | JNull
  | JBool (b : bool)
  | JInt (n : Z)
  | JFloat (text : string)
  | JStr (s : string)
  | JArr (items : list json)
  | JObj (fields : gmap string json).

(** Truth value of a decoded value ([bool(x)], [not x]).  A float is falsy
    when it is a zero; only its text is kept, so a zero is recognised by its
    digits: the part before the exponent has a digit and no digit but 0
    ([NaN] and [Infinity], which [json.load] accepts, have none). *)
Fixpoint mantissa (s : string) : string :=
  match s with
  | EmptyString => EmptyString
  | String c r =>
      if Ascii.eqb c "e" || Ascii.eqb c "E" then EmptyString
      else String c (mantissa r)
  end.

Fixpoint any_char (p : ascii -> bool) (s : string) : bool :=
  match s with
  | EmptyString => false
  | String c r => p c || any_char p r
  end.

Definition float_is_zero (text : string) : bool :=
  any_char is_digit (mantissa text) &&
  all_chars (fun c => negb (is_digit c) || Ascii.eqb c "0") (mantissa text).

Definition truthy (j : json) : bool :=
  match j with
  | JNull => false
  | JBool b => b
  | JInt n => negb (n =? 0)
  | JFloat t => negb (float_is_zero t)
  | JStr s => negb (String.eqb s EmptyString)
  | JArr l => match l with [] => false | _ => true end
  | JObj m => negb (bool_decide (m = ∅))
  end.

(** [isinstance(x, dict)] *)
Definition is_dict (j : json) : bool :=
  match j with JObj _ => true | _ => false end.

(** Substring test, [needle in haystack] on [str]. *)
Fixpoint is_prefix (p s : string) : bool :=
  match p, s with
  | EmptyString, _ => true
  | String a p', String b s' => Ascii.eqb a b && is_prefix p' s'
  | String _ _, EmptyString => false
  end.

Fixpoint is_substring (p s : string) : bool :=
  is_prefix p s ||
  match s with
  | EmptyString => false
  | String _ r => is_substring p r
  end.

Definition is_JStr (k : string) (j : json) : bool :=
  match j with JStr s => String.eqb s k | _ => false end.

(** [key in x] for a [str] key: membership in a dict's keys, equality with an
    element of a list, substring of a string; other values are not
    containers and raise TypeError. *)
Definition contains (x : json) (key : string) : res bool :=
  match x with
  | JObj m => Ok (bool_decide (is_Some (m !! key)))
  | JArr l => Ok (existsb (is_JStr key) l)
  | JStr s => Ok (is_substring key s)
  | JNull | JBool _ | JInt _ | JFloat _ => Err TypeError
  end.

(** [x[key]] for a [str] key: only a dict can be indexed by a string. *)
Definition getitem (x : json) (key : string) : res json :=
  match x with
  | JObj m => match m !! key with Some v => Ok v | None => Err KeyError end
  | _ => Err TypeError
  end.

End Json.
Export Json.

(* ===================================================================== *)
(** * The world the programs run in, and the monad of effects            *)
(* ===================================================================== *)

Module Sys.

(** The backing file of the store as [JsonStorage.load] can find it: no file
    at the path, a file whose text [json.load] rejects, or a file whose text
    decodes to a value.  [save] writes [json.dump data]; reading it back
    yields [data] again for the documents handled here (string keys,
    strings, integers), so a saved file is [JsonText data]. *)
Inductive file_state : Type :=
  | NoFile
  | NotJson
  | JsonText (doc : json).

(** What has been sent to [sys.stdout]. *)
Inductive out_event : Type :=
  | Write (text : string)
  | Flush.

Record World : Type := mkWorld {
  w_stdin : list string;          (* results of the next sys.stdin.readline() calls;
                                     once used up, readline() returns '' *)
  w_stdout : list out_event;      (* oldest first *)
  w_file : file_state;            (* the file at JsonStorage.path *)
  w_randbelow : list Z;           (* results of the next secrets.randbelow() calls *)
  w_token_bytes : list (list Byte.byte);  (* results of secrets.token_bytes() *)
  w_now : list string;            (* results of datetime.now(utc).isoformat() *)
  w_eof_seen : bool               (* ghost: stdin() has met end of input *)
}.

(** Why a run of the model stops without a Python outcome. *)
Inductive stuck : Type :=
  | SourceExhausted      (* a random or clock source above has no value left *)
  | FuelExhausted        (* a loop ran out of fuel *)
  | FieldType.           (* a stored account field has another JSON type than
                            the dataclass declares *)

Inductive outcome (A : Type) : Type :=
  | Return (a : A) (w : World)
  | Raise (e : exn) (w : World)
  | Stuck (s : stuck).
Arguments Return {A} a w.
Arguments Raise {A} e w.
Arguments Stuck {A} s.

Definition M (A : Type) : Type := World -> outcome A.

#[global] Instance M_ret : MRet M := fun _ a w => Return a w.
#[global] Instance M_bind : MBind M := fun _ _ k m w =>
  match m w with
  | Return a w' => k a w'
  | Raise e w' => Raise e w'
  | Stuck s => Stuck s
  end.

Definition raise {A} (e : exn) : M A := fun w => Raise e w.
Definition stop {A} (s : stuck) : M A := fun _ => Stuck s.

(** Lift a pure result: [Err] becomes a raised exception. *)
Definition lift {A} (r : res A) : M A :=
  match r with Ok a => mret a | Err e => raise e end.

(** Updates of single components of the world. *)
Definition set_stdin (lines : list string) (w : World) : World :=
  mkWorld lines (w_stdout w) (w_file w) (w_randbelow w) (w_token_bytes w)
          (w_now w) (w_eof_seen w).

Definition add_out (events : list out_event) (w : World) : World :=
  mkWorld (w_stdin w) (w_stdout w ++ events) (w_file w) (w_randbelow w)
          (w_token_bytes w) (w_now w) (w_eof_seen w).

Definition set_file (f : file_state) (w : World) : World :=
  mkWorld (w_stdin w) (w_stdout w) f (w_randbelow w) (w_token_bytes w)
          (w_now w) (w_eof_seen w).

Definition set_randbelow (draws : list Z) (w : World) : World :=
  mkWorld (w_stdin w) (w_stdout w) (w_file w) draws (w_token_bytes w)
          (w_now w) (w_eof_seen w).

Definition set_token_bytes (draws : list (list Byte.byte)) (w : World) : World :=
  mkWorld (w_stdin w) (w_stdout w) (w_file w) (w_randbelow w) draws
          (w_now w) (w_eof_seen w).

Definition set_now (times : list string) (w : World) : World :=
  mkWorld (w_stdin w) (w_stdout w) (w_file w) (w_randbelow w)
          (w_token_bytes w) times (w_eof_seen w).

Definition mark_eof (w : World) : World :=
  mkWorld (w_stdin w) (w_stdout w) (w_file w) (w_randbelow w)
          (w_token_bytes w) (w_now w) true.

Definition get_file : M file_state := fun w => Return (w_file w) w.

Definition put_file (f : file_state) : M unit := fun w =>
  Return tt (set_file f w).

(** [sys.stdout.write(text)] *)
Definition sys_stdout_write (text : string) : M unit := fun w =>
  Return tt (add_out [Write text] w).

(** [sys.stdout.flush()] *)
Definition sys_stdout_flush : M unit := fun w =>
  Return tt (add_out [Flush] w).

(** [sys.stdin.readline()]: the next line with its line end, or the empty
    string at end of input. *)
Definition sys_stdin_readline : M string := fun w =>
  match w_stdin w with
  | [] => Return EmptyString w
  | line :: rest => Return line (set_stdin rest w)
  end.

(** Ghost step: remember that end of input was met by [stdin]. *)
Definition note_eof : M unit := fun w => Return tt (mark_eof w).

(** [secrets.randbelow(n)]: ValueError unless [n] is positive; the random
    source holds the values, each below [n], that the calls return. *)
Definition secrets_randbelow (n : Z) : M Z := fun w =>
  if n <=? 0 then Raise ValueError w else
  match w_randbelow w with
  | [] => Stuck SourceExhausted
  | r :: rest => Return r (set_randbelow rest w)
  end.

(** [secrets.token_bytes(n)]; the random source holds the strings of [n]
    bytes that the calls return. *)
Definition secrets_token_bytes (n : nat) : M (list Byte.byte) := fun w =>
  match w_token_bytes w with
  | [] => Stuck SourceExhausted
  | b :: rest => Return b (set_token_bytes rest w)
  end.

(** [datetime.now(timezone.utc).isoformat(timespec="seconds")] *)
Definition datetime_now_iso : M string := fun w =>
  match w_now w with
  | [] => Stuck SourceExhausted
  | t :: rest => Return t (set_now rest w)
  end.

(** ** Notions used in the statements about effects *)

(** How a run that starts in [w] may end, for code that treats the console
    as the ATM does: the pending input only shrinks; the end-of-input mark
    is set exactly when the run ends with EOFError, and is otherwise left
    as it was; the fuel of the loops is never used up.  [R] is a further
    relation between the first and the last world. *)
Definition ends_well {A} (R : World -> World -> Prop) (w : World)
    (o : outcome A) : Prop :=
  match o with
  | Return _ w' =>
      R w w' /\ (List.length (w_stdin w') <= List.length (w_stdin w))%nat /\
      w_eof_seen w' = w_eof_seen w
  | Raise e w' =>
      R w w' /\ (List.length (w_stdin w') <= List.length (w_stdin w))%nat /\
      w_eof_seen w' = (if bool_decide (e = EOFError) then true else w_eof_seen w)
  | Stuck s => s <> FuelExhausted
  end.

(** [m] ends well from every world. *)
Definition runs_well {A} (R : World -> World -> Prop) (m : M A) : Prop :=
  forall w, ends_well R w (m w).

(** [m] ends well and, when it returns, has taken at least one line of the
    pending input. *)
Definition reads_well {A} (R : World -> World -> Prop) (m : M A) : Prop :=
  forall w,
    ends_well R w (m w) /\
    match m w with
    | Return _ w' => (List.length (w_stdin w') < List.length (w_stdin w))%nat
    | _ => True
    end.

(** No condition on the worlds. *)
Definition any_change : World -> World -> Prop := fun _ _ => True.

End Sys.
Export Sys.

(* ===================================================================== *)
(** * lesson1/io.py                                                       *)
(* ===================================================================== *)

Module Lesson1IO.

(** [stdout] with its keyword arguments [sep], [end] and [flush]; the
    positional arguments are already converted by [str], and [file] is
    [sys.stdout]. *)
Definition stdout_with (args : list string) (sep end_ : string) (flush : bool)
  : M unit :=
  let text := join sep args +:+ end_ in
  sys_stdout_write text;;
  if flush then sys_stdout_flush else mret tt.

(** [stdout(message)] *)
Definition stdout (message : string) : M unit :=
  stdout_with [message] " " nl false.

(** The line-end handling of [stdin]: one trailing LF is removed and then
    one CR that stood before it. *)
Definition chomp (line : string) : string :=
  if endswith line nl then
    let line := drop_last line in
    if endswith line (String CR EmptyString) then drop_last line else line
  else line.

(** [stdin(prompt, file=None, out=None, flush=True)] on [sys.stdin] and
    [sys.stdout].  A KeyboardInterrupt, which [stdin] lets pass, is a signal
    from outside and has no place in the model. *)
Definition stdin_with (prompt : string) (flush : bool) : M string :=
  let prompt_text :=
    if negb (String.eqb prompt EmptyString) then prompt +:+ nl +:+ ">>>"
    else ">>>" in
  stdout_with [prompt_text] " " " " flush;;
  line ← sys_stdin_readline;
  if String.eqb line EmptyString then note_eof;; raise EOFError
  else mret (chomp line).

Definition stdin (prompt : string) : M string := stdin_with prompt true.




End Lesson1IO.
Export Lesson1IO.

(* ===================================================================== *)
(** * The [decimal] module, as far as [ask_money_amount] uses it         *)
(* ===================================================================== *)

Module Decimal.

(** A [Decimal] value: sign, coefficient and exponent, or a special value.
    The coefficient is kept as a number, so it has no leading zeros. *)
Inductive decimal : Type :=
  | DFinite (neg : bool) (coeff : N) (exp : Z)
  | DInfinite (neg : bool)
  | DNaN (neg : bool) (signaling : bool) (payload : N).

(** The default context: 28 digits, ROUND_HALF_EVEN, exponents within
    [Emin, Emax]; the traps are InvalidOperation, DivisionByZero, Overflow. *)
Definition prec : Z := 28.
Definition Emax : Z := 999999.
Definition Emin : Z := -999999.
Definition Etiny : Z := Emin - prec + 1.
Definition Etop : Z := Emax - prec + 1.

(** Limits of the exact conversion from text. *)
Definition MAX_EMAX : Z := 999999999999999999.
Definition MIN_ETINY : Z := -1999999999999999997.

Definition adjusted (c : N) (e : Z) : Z := e + ndigits c - 1.

(** ** [Decimal(text)] *)

Definition lower (c : ascii) : ascii :=
  let n := N_of_ascii c in
  if ((65 <=? n) && (n <=? 90))%N then ascii_of_N (n + 32) else c.

Fixpoint lower_str (s : string) : string :=
  match s with
  | EmptyString => EmptyString
  | String c r => String (lower c) (lower_str r)
  end.

Fixpoint remove_char (x : ascii) (s : string) : string :=
  match s with
  | EmptyString => EmptyString
  | String c r => if Ascii.eqb c x then remove_char x r else String c (remove_char x r)
  end.

(** The longest prefix of digits, and what follows it. *)
Fixpoint span_digits (s : string) : string * string :=
  match s with
  | String c r =>
      if is_digit c then let (d, rest) := span_digits r in (String c d, rest)
      else (EmptyString, s)
  | EmptyString => (EmptyString, EmptyString)
  end.

(** [int(digits)] for a string of digits; the empty string gives 0. *)
Fixpoint N_of_digits_acc (s : string) (acc : N) : N :=
  match s with
  | EmptyString => acc
  | String c r => N_of_digits_acc r (10 * acc + digit_val c)%N
  end.

Definition N_of_digits (s : string) : N := N_of_digits_acc s 0.

(** [(E(?P<exp>[-+]?\d+))?\Z] : the optional exponent up to the end. *)
Definition parse_exponent (s : string) : option Z :=
  match s with
  | EmptyString => Some 0
  | String c r =>
      if Ascii.eqb (lower c) "e" then
        let '(neg, r) :=
          match r with
          | String "-" r' => (true, r')
          | String "+" r' => (false, r')
          | _ => (false, r)
          end in
        match span_digits r with
        | (String d ds, EmptyString) =>
            let v := Z.of_N (N_of_digits (String d ds)) in
            Some (if neg then - v else v)
        | _ => None
        end
      else None
  end.

(** The finite alternative of the grammar: digits with an optional point and
    an optional exponent, at least one digit before the exponent. *)
Definition parse_finite (s : string) : option (N * Z) :=
  let (intpart, r1) := span_digits s in
  let '(fracpart, r2) :=
    match r1 with
    | String "." r => span_digits r
    | _ => (EmptyString, r1)
    end in
  if String.eqb intpart EmptyString && String.eqb fracpart EmptyString then None
  else
    match parse_exponent r2 with
    | Some e => Some (N_of_digits (intpart +:+ fracpart), e - len fracpart)
    | None => None
    end.

(** The special alternatives: [Inf(inity)?] and [s?NaN\d*]. *)
Definition parse_special (neg : bool) (s : string) : option decimal :=
  let t := lower_str s in
  if String.eqb t "inf" || String.eqb t "infinity" then Some (DInfinite neg)
  else
    let '(signaling, t) :=
      match t with
      | String "s" r => (true, r)
      | _ => (false, t)
      end in
    match t with
    | String "n" (String "a" (String "n" diag)) =>
        if all_chars is_digit diag then Some (DNaN neg signaling (N_of_digits diag))
        else None
    | _ => None
    end.

(** [Decimal(value)] for a [str]: surrounding white space and all
    underscores are dropped, then the text must match the grammar; a finite
    value must be exactly representable within the limits of the library. *)
Definition of_string (value : string) : res decimal :=
  let t := remove_char "_" (strip value) in
  let '(neg, body) :=
    match t with
    | String "-" r => (true, r)
    | String "+" r => (false, r)
    | _ => (false, t)
    end in
  match parse_finite body with
  | Some (c, e) =>
      if (MIN_ETINY <=? e) && (adjusted c e <=? MAX_EMAX) then Ok (DFinite neg c e)
      else Err InvalidOperation
  | None =>
      match parse_special neg body with
      | Some d => Ok d
      | None => Err InvalidOperation
      end
  end.

(** ** Rounding *)

(** Drop the [k] lowest digits of [c], rounding half to even.  When [c] has
    fewer than [k] digits the result is 0 (less than half a unit is lost). *)
Definition round_half_even (c : N) (k : Z) : N :=
  if ndigits c <? k then 0%N
  else
    let p := (10 ^ Z.to_N k)%N in
    let q := (c / p)%N in
    let r := (c mod p)%N in
    if (2 * r <? p)%N then q
    else if (p <? 2 * r)%N then (q + 1)%N
    else if N.even q then q else (q + 1)%N.

(** Fit a finite result into the context ([Decimal._fix]): a zero gets its
    exponent clamped; a value above Emax raises Overflow; a coefficient
    longer than the precision, or below the subnormal limit, is rounded. *)
Definition fix_ (neg : bool) (c : N) (e : Z) : res decimal :=
  if (c =? 0)%N then Ok (DFinite neg 0 (Z.min (Z.max e Etiny) Emax))
  else
    let exp_min := ndigits c + e - prec in
    if Etop <? exp_min then Err DecimalOverflow
    else
      let exp_min := Z.max exp_min Etiny in
      if e <? exp_min then
        let q := round_half_even c (exp_min - e) in
        if prec <? ndigits q then
          if Etop <? exp_min + 1 then Err DecimalOverflow
          else Ok (DFinite neg (q / 10) (exp_min + 1))
        else Ok (DFinite neg q exp_min)
      else Ok (DFinite neg c e).

(** [a * b] in the default context. *)
Definition mul (a b : decimal) : res decimal :=
  match a, b with
  | DNaN _ true _, _ | _, DNaN _ true _ => Err InvalidOperation
  | DNaN s false p, _ => Ok (DNaN s false p)
  | _, DNaN s false p => Ok (DNaN s false p)
  | DInfinite s1, DInfinite s2 => Ok (DInfinite (xorb s1 s2))
  | DInfinite s1, DFinite s2 c _ | DFinite s2 c _, DInfinite s1 =>
      if (c =? 0)%N then Err InvalidOperation else Ok (DInfinite (xorb s1 s2))
  | DFinite s1 c1 e1, DFinite s2 c2 e2 => fix_ (xorb s1 s2) (c1 * c2) (e1 + e2)
  end.

(** [d.quantize(q)] in the default context: the value of [d] at the
    exponent of [q]; InvalidOperation when the result does not fit into the
    precision. *)
Definition quantize (d q : decimal) : res decimal :=
  match d, q with
  | DNaN _ true _, _ | _, DNaN _ true _ => Err InvalidOperation
  | DNaN s false p, _ => Ok (DNaN s false p)
  | _, DNaN s false p => Ok (DNaN s false p)
  | DInfinite s, DInfinite _ => Ok (DInfinite s)
  | DInfinite _, DFinite _ _ _ | DFinite _ _ _, DInfinite _ => Err InvalidOperation
  | DFinite neg c e, DFinite _ _ qe =>
      if negb ((Etiny <=? qe) && (qe <=? Emax)) then Err InvalidOperation
      else if (c =? 0)%N then fix_ neg 0 qe
      else if Emax <? adjusted c e then Err InvalidOperation
      else if prec <? adjusted c e - qe + 1 then Err InvalidOperation
      else
        let c' :=
          if qe <=? e then (c * 10 ^ Z.to_N (e - qe))%N
          else round_half_even c (qe - e) in
        if Emax <? adjusted c' qe then Err InvalidOperation
        else if prec <? ndigits c' then Err InvalidOperation
        else fix_ neg c' qe
  end.

Definition is_nan (d : decimal) : bool :=
  match d with DNaN _ _ _ => true | _ => false end.

Definition is_infinite (d : decimal) : bool :=
  match d with DInfinite _ => true | _ => false end.

(** [d < 0]; comparing a NaN signals InvalidOperation. *)
Definition lt_zero (d : decimal) : res bool :=
  match d with
  | DFinite neg c _ => Ok (neg && negb (c =? 0)%N)
  | DInfinite neg => Ok neg
  | DNaN _ _ _ => Err InvalidOperation
  end.

(** [int(d)]: truncation towards zero. *)
Definition to_int (d : decimal) : res Z :=
  match d with
  | DFinite neg c e =>
      let m :=
        if 0 <=? e then (c * 10 ^ Z.to_N e)%N
        else if ndigits c <? - e then 0%N
        else (c / 10 ^ Z.to_N (- e))%N in
      Ok (if neg then - Z.of_N m else Z.of_N m)
  | DInfinite _ => Err OverflowError
  | DNaN _ _ _ => Err ValueError
  end.

(** [Decimal(n)] for an [int]. *)
Definition of_int (n : Z) : decimal := DFinite (n <? 0) (Z.abs_N n) 0.

End Decimal.

(* ===================================================================== *)
(** * lesson1/hw.py : the console ATM                                     *)
(* ===================================================================== *)

Module ATM.

Import Decimal.

(** ** Model *)

(** The dataclass [Account]. *)
Record Account : Type := mkAccount {
  account_number : string;
  name : string;
  surname : string;
  id_number : string;
  pin_salt_hex : string;
  pin_hash_hex : string;
  balance_cents : Z;
  created_at : string
}.

Definition set_balance (a : Account) (b : Z) : Account :=
  mkAccount (account_number a) (name a) (surname a) (id_number a)
            (pin_salt_hex a) (pin_hash_hex a) b (created_at a).

(** [dataclasses.asdict(account)] *)
Definition asdict (a : Account) : json :=
  JObj (<["account_number" := JStr (account_number a)]>
       (<["name" := JStr (name a)]>
       (<["surname" := JStr (surname a)]>
       (<["id_number" := JStr (id_number a)]>
       (<["pin_salt_hex" := JStr (pin_salt_hex a)]>
       (<["pin_hash_hex" := JStr (pin_hash_hex a)]>
       (<["balance_cents" := JInt (balance_cents a)]>
       (<["created_at" := JStr (created_at a)]> ∅)))))))).

Definition field_names : list string :=
  ["account_number"; "name"; "surname"; "id_number"; "pin_salt_hex";
   "pin_hash_hex"; "balance_cents"; "created_at"].

Definition as_str (j : json) : option string :=
  match j with JStr s => Some s | _ => None end.

Definition as_int (j : json) : option Z :=
  match j with JInt n => Some n | _ => None end.

(** [Account] called with the entries of [raw] as keyword arguments, as
    [get_account] does.  Python raises TypeError when [raw] is not a mapping,
    has a key that is not a field, or lacks one of the six fields without a
    default.  The dataclass does not check the types of the values; the
    record of the model is typed as the class is annotated, and a value of
    another JSON type stops the model with [FieldType]. *)
Definition Account_of_kwargs (raw : json) : M Account :=
  match raw with
  | JObj m =>
      if negb (forallb (fun kv => existsb (String.eqb (fst kv)) field_names)
                       (map_to_list m))
      then raise TypeError
      else
        match m !! "account_number", m !! "name", m !! "surname",
              m !! "id_number", m !! "pin_salt_hex", m !! "pin_hash_hex" with
        | Some an, Some nm, Some sn, Some idn, Some salt, Some hash =>
            let bal := default (JInt 0) (m !! "balance_cents") in
            let cre := default (JStr EmptyString) (m !! "created_at") in
            match as_str an, as_str nm, as_str sn, as_str idn,
                  as_str salt, as_str hash, as_int bal, as_str cre with
            | Some an, Some nm, Some sn, Some idn,
              Some salt, Some hash, Some bal, Some cre =>
                mret (mkAccount an nm sn idn salt hash bal cre)
            | _, _, _, _, _, _, _, _ => stop FieldType
            end
        | _, _, _, _, _, _ => raise TypeError
        end
  | _ => raise TypeError
  end.

(** ** Storage : [JsonStorage] *)

Definition empty_doc : json := JObj {["accounts" := JObj ∅]}.

(** [JsonStorage.load] *)
Definition load : M json :=
  f ← get_file;
  match f with
  | NoFile => mret empty_doc
  | NotJson => raise JSONDecodeError
  | JsonText data =>
      has ← lift (contains data "accounts");
      if negb has then mret empty_doc
      else
        accounts ← lift (getitem data "accounts");
        if negb (is_dict accounts) then mret empty_doc else mret data
  end.

(** [JsonStorage.save]: the document is written to a temporary file which
    then replaces the backing file. *)
Definition save (data : json) : M unit := put_file (JsonText data).

(** [JsonStorage.has_any_accounts] *)
Definition has_any_accounts : M bool :=
  data ← load;
  accounts ← lift (getitem data "accounts");
  mret (truthy accounts).

(** [JsonStorage.get_account] *)
Definition get_account (number : string) : M (option Account) :=
  data ← load;
  accounts ← lift (getitem data "accounts");
  match accounts with
  | JObj m =>
      match m !! number with
      | None => mret None
      | Some raw =>
          if negb (truthy raw) then mret None
          else a ← Account_of_kwargs raw; mret (Some a)
      end
  | _ => raise AttributeError
  end.

(** [JsonStorage.upsert_account] *)
Definition upsert_account (account : Account) : M unit :=
  data ← load;
  accounts ← lift (getitem data "accounts");
  match data, accounts with
  | JObj top, JObj m =>
      save (JObj (<["accounts" :=
                     JObj (<[account_number account := asdict account]> m)]> top))
  | _, _ => raise TypeError
  end.

(** [JsonStorage.account_exists] *)
Definition account_exists (number : string) : M bool :=
  data ← load;
  accounts ← lift (getitem data "accounts");
  lift (contains accounts number).

(** [JsonStorage.generate_unique_account_number]; one round of the loop per
    unit of fuel. *)
Fixpoint generate_unique_account_number_loop (fuel : nat) (digits : nat)
  : M string :=
  match fuel with
  | O => stop FuelExhausted
  | S fuel' =>
      n ← secrets_randbelow (10 ^ Z.of_nat digits);
      let acc := zfill digits (str_int n) in
      taken ← account_exists acc;
      if negb taken then mret acc
      else generate_unique_account_number_loop fuel' digits
  end.

(** Every round draws from the random source, so one more unit of fuel than
    there are draws left is never used up. *)
Definition generate_unique_account_number (digits : nat) : M string :=
  fun w =>
    generate_unique_account_number_loop (S (List.length (w_randbelow w))) digits w.

(** ** View : [ConsoleView] *)

Definition show_title : M unit :=
  stdout (repeat_char "=" 44);;
  stdout "  Tel-Tan ATM — учебный банкомат (MVC)";;
  stdout (repeat_char "=" 44).

(** [ConsoleView.pause]: reads a line straight from [sys.stdin]; end of
    input is not an error here. *)
Definition pause (message : string) : M unit :=
  stdout_with [message] " " EmptyString false;;
  _ ← sys_stdin_readline;
  mret tt.

Definition pause_default_message : string :=
  "Нажмите Enter, чтобы продолжить...".

Definition info (message : string) : M unit := stdout message.

Definition warn (message : string) : M unit :=
  stdout ("[!]" +:+
          (if negb (String.eqb message EmptyString) then " " else EmptyString)
          +:+ message).

Definition error (message : string) : M unit :=
  stdout ("[Ошибка] " +:+ message).

(** The prompt loops read one line per round, so one more unit of fuel than
    there are lines left is never used up: with no line left [stdin] raises
    EOFError. *)
Definition input_fuel (w : World) : nat := S (List.length (w_stdin w)).

Definition with_input_fuel {A} (loop : nat -> M A) : M A :=
  fun w => loop (input_fuel w) w.

Fixpoint ask_text_loop (fuel : nat) (prompt : string) (min_len : Z)
  : M string :=
  match fuel with
  | O => stop FuelExhausted
  | S fuel' =>
      line ← stdin prompt;
      let s := strip line in
      if min_len <=? len s then mret s
      else
        error ("Введите минимум " +:+ str_int min_len +:+ " символ(а/ов).");;
        ask_text_loop fuel' prompt min_len
  end.

(** [ConsoleView.ask_text(prompt, min_len=1)] *)
Definition ask_text (prompt : string) (min_len : Z) : M string :=
  with_input_fuel (fun fuel => ask_text_loop fuel prompt min_len).

Fixpoint ask_digits_loop (fuel : nat) (prompt : string) (min_len : Z)
    (max_len : option Z) : M string :=
  match fuel with
  | O => stop FuelExhausted
  | S fuel' =>
      line ← stdin prompt;
      let s := strip line in
      if negb (isdigit s) then
        error "Разрешены только цифры.";;
        ask_digits_loop fuel' prompt min_len max_len
      else if len s <? min_len then
        error ("Минимум " +:+ str_int min_len +:+ " цифр.");;
        ask_digits_loop fuel' prompt min_len max_len
      else
        match max_len with
        | Some mx =>
            if mx <? len s then
              error ("Максимум " +:+ str_int mx +:+ " цифр.");;
              ask_digits_loop fuel' prompt min_len max_len
            else mret s
        | None => mret s
        end
  end.

(** [ConsoleView.ask_digits(prompt, min_len=1, max_len=None)] *)
Definition ask_digits (prompt : string) (min_len : Z) (max_len : option Z)
  : M string :=
  with_input_fuel (fun fuel => ask_digits_loop fuel prompt min_len max_len).

Fixpoint ask_pin_create_loop (fuel : nat) : M string :=
  match fuel with
  | O => stop FuelExhausted
  | S fuel' =>
      pin1 ← ask_digits "Введите PIN" 4 (Some 8);
      pin2 ← ask_digits "Повторите PIN" 4 (Some 8);
      if String.eqb pin1 pin2 then mret pin1
      else
        error "PIN не совпадает. Попробуйте ещё раз.";;
        ask_pin_create_loop fuel'
  end.

(** [ConsoleView.ask_pin_create] *)
Definition ask_pin_create : M string :=
  info "Создайте PIN-код (4–8 цифр).";;
  with_input_fuel ask_pin_create_loop.

(** [ConsoleView.ask_pin_login] *)
Definition ask_pin_login : M string := ask_digits "Введите PIN" 4 (Some 8).

(** [int((d * 100).quantize(Decimal("1")))] *)
Definition to_cents (d : decimal) : res Z :=
  p ← mul d (of_int 100);
  one ← of_string "1";
  q ← quantize p one;
  to_int q.

Fixpoint ask_money_amount_loop (fuel : nat) (prompt : string) : M Z :=
  match fuel with
  | O => stop FuelExhausted
  | S fuel' =>
      line ← stdin prompt;
      let raw := replace_char comma point (strip line) in
      match of_string raw with
      | Err e =>
          if bool_decide (e = InvalidOperation) || is_ValueError e then
            error "Введите корректное число (например: 100 или 100.50).";;
            ask_money_amount_loop fuel' prompt
          else raise e
      | Ok d =>
          if is_nan d || is_infinite d then
            error "Некорректное значение суммы.";;
            ask_money_amount_loop fuel' prompt
          else
            negative ← lift (lt_zero d);
            if (negative : bool) then
              error "Сумма не может быть отрицательной.";;
              ask_money_amount_loop fuel' prompt
            else lift (to_cents d)
      end
  end.

(** [ConsoleView.ask_money_amount] *)
Definition ask_money_amount (prompt : string) : M Z :=
  with_input_fuel (fun fuel => ask_money_amount_loop fuel prompt).

(** [ConsoleView.format_money] *)
Definition format_money (cents : Z) : string :=
  let sign := if cents <? 0 then "-" else EmptyString in
  let cents_abs := Z.abs cents in
  sign +:+ str_int (cents_abs / 100) +:+ "." +:+ fmt_02d (cents_abs mod 100).

Definition show_balance (balance : Z) : M unit :=
  info ("Текущий баланс: " +:+ format_money balance).

Definition show_account_created (number : string) : M unit :=
  info EmptyString;;
  info "Счёт создан ✅";;
  warn "ВНИМАНИЕ: номер счёта показывается только один раз.";;
  info ("Ваш номер счёта: " +:+ number);;
  info EmptyString.

Definition menu_startup : M string :=
  stdout EmptyString;;
  stdout "1) Создать новый счёт";;
  stdout "2) Войти в существующий счёт";;
  stdout "0) Выход";;
  line ← stdin "Выберите действие";
  mret (strip line).

Definition menu_main : M string :=
  stdout EmptyString;;
  stdout "1) Внести деньги на счёт";;
  stdout "2) Снять деньги со счёта";;
  stdout "3) Показать баланс";;
  stdout "0) Выход";;
  line ← stdin "Выберите действие";
  mret (strip line).

(** ** Controller : [ATMController] *)

Abbreviation bytes := (list Byte.byte).

(** [s.encode("utf-8")]: the text is kept as its UTF-8 bytes already. *)
Definition encode_utf8 (s : string) : bytes :=
  List.map byte_of_ascii (list_ascii_of_string s).

Definition hex_digit (n : N) : ascii :=
  if (n <? 10)%N then ascii_of_N (48 + n) else ascii_of_N (87 + n).

(** [b.hex()] *)
Fixpoint hex (b : bytes) : string :=
  match b with
  | [] => EmptyString
  | x :: r =>
      let n := Byte.to_N x in
      String (hex_digit (n / 16)) (String (hex_digit (n mod 16)) (hex r))
  end.

Definition hex_val (c : ascii) : option N :=
  let n := N_of_ascii c in
  if ((48 <=? n) && (n <=? 57))%N then Some (n - 48)%N
  else if ((97 <=? n) && (n <=? 102))%N then Some (n - 87)%N
  else if ((65 <=? n) && (n <=? 70))%N then Some (n - 55)%N
  else None.

(** White space that [bytes.fromhex] skips between two bytes. *)
Definition is_hex_space (c : ascii) : bool :=
  let n := N_of_ascii c in
  (((9 <=? n) && (n <=? 13)) || (n =? 32))%N.

(** [bytes.fromhex(s)]: ValueError on anything but pairs of hex digits. *)
Fixpoint fromhex (s : string) : res bytes :=
  match s with
  | EmptyString => Ok []
  | String c r =>
      if is_hex_space c then fromhex r
      else
        match r with
        | String c2 r2 =>
            match hex_val c, hex_val c2 with
            | Some h, Some l =>
                match Byte.of_N (16 * h + l) with
                | Some x => rest ← fromhex r2; Ok (x :: rest)
                | None => Err ValueError
                end
            | _, _ => Err ValueError
            end
        | EmptyString => Err ValueError
        end
  end.

Fixpoint bytes_eqb (a b : bytes) : bool :=
  match a, b with
  | [], [] => true
  | x :: a', y :: b' => Byte.eqb x y && bytes_eqb a' b'
  | _, _ => false
  end.

(** [secrets.compare_digest(a, b)]: equality, in constant time. *)
Definition compare_digest (a b : bytes) : bool := bytes_eqb a b.

(** [hashlib.sha256(data).digest()], a function of the data. *)
Class Sha256 : Type := sha256_digest : bytes -> bytes.

Section Controller.

Context `{Sha256}.

(** [ATMController._hash_pin] *)
Definition _hash_pin (pin : string) (salt : bytes) : bytes :=
  sha256_digest (salt ++ encode_utf8 pin).

(** [ATMController._make_pin_record] *)
Definition _make_pin_record (pin : string) : M (string * string) :=
  salt ← secrets_token_bytes 16;
  let h := _hash_pin pin salt in
  mret (hex salt, hex h).

(** [ATMController._verify_pin] *)
Definition _verify_pin (pin salt_hex hash_hex : string) : M bool :=
  salt ← lift (fromhex salt_hex);
  expected ← lift (fromhex hash_hex);
  let actual := _hash_pin pin salt in
  mret (compare_digest actual expected).

(** [flow_create_account], up to the first write of the new record
    (source lines 293-317). *)
Definition flow_create_account_record : M Account :=
  info EmptyString;;
  info "=== Создание нового счёта ===";;
  name ← ask_text "Введите ваше имя" 1;
  surname ← ask_text "Введите вашу фамилию" 1;
  id_number ← ask_text "Введите ваш ID (можно цифры/буквы)" 1;
  account_number ← generate_unique_account_number 10;
  pin ← ask_pin_create;
  '(salt_hex, hash_hex) ← _make_pin_record pin;
  created ← datetime_now_iso;
  let account :=
    mkAccount account_number name surname id_number salt_hex hash_hex 0
              created in
  upsert_account account;;
  show_account_created (account_number);;
  mret account.

(** [flow_create_account], the initial deposit (source lines 319-330). *)
Definition flow_create_account_deposit (account : Account) : M Account :=
  deposit ← ask_money_amount "Внесите сумму на счёт (например 100 или 100.50)";
  if 0 <? deposit then
    let account := set_balance account (balance_cents account + deposit) in
    upsert_account account;;
    info ("Зачислено: " +:+ format_money deposit);;
    show_balance (balance_cents account);;
    mret account
  else
    info "Сумма 0 — пропускаем пополнение.";;
    show_balance (balance_cents account);;
    mret account.

(** [ATMController.flow_create_account] *)
Definition flow_create_account : M Account :=
  account ← flow_create_account_record;
  flow_create_account_deposit account.

(** [ATMController.flow_login] *)
Definition flow_login : M (option Account) :=
  info EmptyString;;
  info "=== Вход в существующий счёт ===";;
  acc_num ← ask_digits "Введите номер счёта" 10 (Some 10);
  found ← get_account acc_num;
  match found with
  | None => error "Счёт не найден.";; mret None
  | Some account =>
      pin ← ask_pin_login;
      ok ← _verify_pin pin (pin_salt_hex account) (pin_hash_hex account);
      if negb ok then error "Неверный PIN.";; mret None
      else
        info ("Успешный вход. Добро пожаловать, " +:+ name account +:+ " "
              +:+ surname account +:+ "!");;
        show_balance (balance_cents account);;
        mret (Some account)
  end.

(** The branch [choice == "1"] of the session loop (source lines 359-366).
    The account object is changed in place; the model returns its new
    state. *)
Definition session_deposit (account : Account) : M Account :=
  amount ← ask_money_amount "Сколько внести?";
  if amount <=? 0 then
    error "Сумма пополнения должна быть больше 0.";;
    mret account
  else
    let account := set_balance account (balance_cents account + amount) in
    upsert_account account;;
    info ("Зачислено: " +:+ format_money amount);;
    show_balance (balance_cents account);;
    mret account.

(** The branch [choice == "2"] of the session loop (source lines 369-380). *)
Definition session_withdraw (account : Account) : M Account :=
  amount ← ask_money_amount "Сколько снять?";
  if amount <=? 0 then
    error "Сумма снятия должна быть больше 0.";;
    mret account
  else if balance_cents account <? amount then
    error "Недостаточно средств.";;
    show_balance (balance_cents account);;
    mret account
  else
    let account := set_balance account (balance_cents account - amount) in
    upsert_account account;;
    info ("Выдано: " +:+ format_money amount);;
    show_balance (balance_cents account);;
    mret account.

(** One round of the session loop: the new state of the account, and
    whether the loop goes on. *)
Definition session_round (account : Account) : M (Account * bool) :=
  choice ← menu_main;
  if String.eqb choice "1" then
    account ← session_deposit account; mret (account, true)
  else if String.eqb choice "2" then
    account ← session_withdraw account; mret (account, true)
  else if String.eqb choice "3" then
    show_balance (balance_cents account);; mret (account, true)
  else if String.eqb choice "0" then
    info "Выход в главное меню.";; mret (account, false)
  else
    error "Неизвестный пункт меню.";; mret (account, true).

Fixpoint flow_session_loop (fuel : nat) (account : Account) : M Account :=
  match fuel with
  | O => stop FuelExhausted
  | S fuel' =>
      '(account, again) ← session_round account;
      if (again : bool) then flow_session_loop fuel' account else mret account
  end.

(** [ATMController.flow_session]; the result is the state in which the
    session leaves the account object. *)
Definition flow_session (account : Account) : M Account :=
  with_input_fuel (fun fuel => flow_session_loop fuel account).

(** One round of the start-up menu loop of [run]; [false] ends the loop. *)
Definition run_round : M bool :=
  choice ← menu_startup;
  if String.eqb choice "1" then
    account ← flow_create_account;
    flow_session account;;
    mret true
  else if String.eqb choice "2" then
    found ← flow_login;
    match found with
    | Some account => flow_session account;; mret true
    | None => mret true
    end
  else if String.eqb choice "0" then
    info "До свидания!";; mret false
  else
    error "Неизвестный пункт меню.";; mret true.

Fixpoint run_loop (fuel : nat) : M unit :=
  match fuel with
  | O => stop FuelExhausted
  | S fuel' =>
      again ← run_round;
      if (again : bool) then run_loop fuel' else mret tt
  end.

(** [ATMController.run] *)
Definition run : M unit :=
  show_title;;
  any ← has_any_accounts;
  if negb any then
    info "Похоже, это первый запуск: аккаунтов ещё нет.";;
    pause pause_default_message;;
    account ← flow_create_account;
    flow_session account;;
    info "До свидания!"
  else with_input_fuel run_loop.

End Controller.

(** ** Notions used in the statements about the ATM *)

(** The line that [stdout message] writes. *)
Definition line_out (message : string) : out_event :=
  Write (message +:+ nl).

(** What [stdin prompt] writes before it reads. *)
Definition prompt_out (prompt : string) : list out_event :=
  [Write ((if negb (String.eqb prompt EmptyString)
           then prompt +:+ nl +:+ ">>>" else ">>>") +:+ " "); Flush].

(** What the next [sys.stdin.readline()] returns. *)
Definition next_line (w : World) : string :=
  match w_stdin w with
  | [] => EmptyString
  | line :: _ => line
  end.

(** End of input is not caught: a run that starts with the end-of-input
    mark unset returns with the mark unset, or raises, and then the mark is
    set exactly when the exception is EOFError; the loops of the model do
    not use up their fuel. *)
Definition eof_not_caught {A} (m : M A) : Prop :=
  forall w, w_eof_seen w = false ->
    match m w with
    | Return _ w' => w_eof_seen w' = false
    | Raise e w' => w_eof_seen w' = true <-> e = EOFError
    | Stuck s => s <> FuelExhausted
    end.

(** [w'] differs from [w] at most in the console: pending input, the
    end-of-input mark, and the output, which has only grown. *)
Definition console_only (w w' : World) : Prop :=
  w_file w' = w_file w /\ w_randbelow w' = w_randbelow w /\
  w_token_bytes w' = w_token_bytes w /\ w_now w' = w_now w /\
  exists more, w_stdout w' = w_stdout w ++ more.


(** The accounts mapping of a backing file that holds a document of the
    store's shape. *)
Definition accounts_of (f : file_state) : option (gmap string json) :=
  match f with
  | JsonText (JObj top) =>
      match top !! "accounts" with
      | Some (JObj m) => Some m
      | _ => None
      end
  | _ => None
  end.

(** The raw record stored under an account number. *)
Definition stored (f : file_state) (number : string) : option json :=
  match accounts_of f with
  | Some m => m !! number
  | None => None
  end.

(** The store holds exactly the in-memory record [a] under its number. *)
Definition persisted (w : World) (a : Account) : Prop :=
  stored (w_file w) (account_number a) = Some (asdict a).

(** The backing file can be loaded. *)
Definition loadable (w : World) : Prop :=
  exists doc, load w = Return doc w.

(** [cents] is the whole number of minor units nearest to the amount of
    [c * 10^e] major units, and the even one of the two nearest when the
    amount lies half-way between them.  Both sides of the comparison are
    scaled by [10^k], [k] the number of decimal places of the amount. *)
Definition nearest_cents (cents : Z) (c : N) (e : Z) : Prop :=
  let k := Z.max (- e) 0 in
  let amount := 100 * Z.of_N c * 10 ^ Z.max e 0 in
  0 <= cents /\
  2 * Z.abs (cents * 10 ^ k - amount) <= 10 ^ k /\
  (2 * Z.abs (cents * 10 ^ k - amount) = 10 ^ k -> Z.even cents = true).

(** The account is bound to the store: the store holds a record under
    its number. *)
Definition bound (w : World) (a : Account) : Prop :=
  is_Some (stored (w_file w) (account_number a)).

(** The invariant of a bound account: its balance is not negative, and the
    store holds the record as it is in memory, so that the persisted
    balance is the same, non-negative, number. *)
Definition balance_invariant (w : World) (a : Account) : Prop :=
  0 <= balance_cents a /\ persisted w a.

(** An outcome keeps the invariant of the account with the given number:
    on return for the record that is then in memory, after an exception for
    the record that the store then holds; the loops of the model do not use
    up their fuel. *)
Definition keeps_invariant {A} (number : string) (account_of : A -> Account)
    (o : outcome A) : Prop :=
  match o with
  | Return x w' =>
      account_number (account_of x) = number /\
      balance_invariant w' (account_of x)
  | Raise _ w' =>
      exists a, account_number a = number /\ balance_invariant w' a
  | Stuck s => s <> FuelExhausted
  end.

(** The balance that the store holds for a number, when the record there
    has one. *)
Definition stored_balance (w : World) (number : string) : option Z :=
  match stored (w_file w) number with
  | Some (JObj fields) =>
      match fields !! "balance_cents" with
      | Some (JInt b) => Some b
      | _ => None
      end
  | _ => None
  end.


(** ** Sample data, from the test suite *)

(** A world with nothing in it: no input, no file, no random values. *)
Definition bare_world : World := mkWorld [] [] NoFile [] [] [] false.

(** The account of [test_storage_upsert_get_exists]. *)
Definition sample_account : Account :=
  mkAccount "0000000001" "A" "B" "ID" "00" "11" 100 "2025-01-01T00:00:00Z".

(** A second account, with another number. *)
Definition other_account : Account :=
  mkAccount "0000000002" "C" "D" "ID2" "22" "33" 0 "2025-01-02T00:00:00Z".

(** A backing file that holds the sample account and nothing else. *)
Definition sample_store : file_state :=
  JsonText (JObj {["accounts" :=
    JObj {["0000000001" := asdict sample_account]}]}).

(** The text [line] as [readline] returns it, with its line end. *)
Definition entered (line : string) : string := line +:+ nl.

(** ** Notions used in the statements about stored records, hex texts and
    the flows *)

(** The raw record [j] without the entry [field], and with a further
    entry. *)
Definition without_field (field : string) (j : json) : json :=
  match j with JObj m => JObj (delete field m) | _ => j end.

Definition with_field (field : string) (v : json) (j : json) : json :=
  match j with JObj m => JObj (<[field := v]> m) | _ => j end.

(** The fields of [Account] that have no default value. *)
Definition required_fields : list string :=
  ["account_number"; "name"; "surname"; "id_number"; "pin_salt_hex";
   "pin_hash_hex"].

(** The document that a file holds after the first account has been
    written to a store without a usable document. *)
Definition single_account_doc (a : Account) : json :=
  JObj {["accounts" := JObj {[account_number a := asdict a]}]}.

(** A character that [bytes.fromhex] neither skips as white space nor reads
    as a hex digit. *)
Definition is_no_hex (c : ascii) : bool :=
  match hex_val c with
  | Some _ => false
  | None => negb (is_hex_space c)
  end.

(** The outcome [o], seen from the world [w]: the same result or exception,
    with [w] as the world. *)
Definition at_world {A} (o : outcome A) (w : World) : outcome A :=
  match o with
  | Return a _ => Return a w
  | Raise e _ => Raise e w
  | Stuck s => Stuck s
  end.

(** What the start-up menu and the session menu write before they read. *)
Definition title_out : list out_event :=
  [line_out (repeat_char "=" 44);
   line_out "  Tel-Tan ATM — учебный банкомат (MVC)";
   line_out (repeat_char "=" 44)].

Definition menu_startup_out : list out_event :=
  [line_out EmptyString; line_out "1) Создать новый счёт";
   line_out "2) Войти в существующий счёт"; line_out "0) Выход"]
  ++ prompt_out "Выберите действие".


(** What [flow_login] writes before it reads the account number. *)
Definition login_out : list out_event :=
  [line_out EmptyString; line_out "=== Вход в существующий счёт ==="]
  ++ prompt_out "Введите номер счёта".

End ATM.

(* ===================================================================== *)
(** * lesson2/hw.py : the smart-fan simulator                             *)
(* ===================================================================== *)

Module SmartFan.

Definition MODE_LABELS : gmap Z string :=
  <[0 := "switched off"]> (<[1 := "speed 1"]> (<[2 := "speed 2"]>
  (<[3 := "turbo mode"]> ∅))).

Definition MODE_WATTS : gmap Z Z :=
  <[0 := 0]> (<[1 := 20]> (<[2 := 35]> (<[3 := 60]> ∅))).

Definition MIN_MODE : Z := 0.
Definition MAX_MODE : Z := 3.

(** Time stamps are [float]s; the model keeps them abstract, with the
    subtraction and addition that the statistics perform on them. *)
Class TimeOps : Type := {
  time : Type;
  time_zero : time;
  time_add : time -> time -> time;
  time_sub : time -> time -> time
}.

Section WithTime.

Context `{TimeOps}.

Record Event : Type := mkEvent {
  timestamp : time;
  action : string;
  old_mode : Z;
  new_mode : Z
}.

(** The dataclass [Fan]. *)
Record Fan : Type := mkFan { mode : Z }.

(** [Fan.set_mode]: the new state of the fan and the exception, if any. *)
Definition Fan_set_mode (self : Fan) (new_mode : Z) : res unit * Fan :=
  if (new_mode <? MIN_MODE) || (MAX_MODE <? new_mode) then (Err ValueError, self)
  else (Ok tt, mkFan new_mode).

(** [Fan.status] *)
Definition Fan_status (self : Fan) : string :=
  match MODE_LABELS !! mode self with
  | Some label => label
  | None => "unknown mode"
  end.

(** The dataclass [Stats]. *)
Record Stats : Type := mkStats {
  mode_changes : gmap Z Z;
  time_in_mode_s : gmap Z time;
  _last_mode : Z;
  _last_ts : option time
}.

Definition Stats_default : Stats :=
  mkStats ((fun _ => 0) <$> MODE_LABELS) ((fun _ => time_zero) <$> MODE_LABELS)
          0 None.

(** [d[k] += 1] under the guard [if k in d]. *)
Definition count_mode (m : Z) (changes : gmap Z Z) : gmap Z Z :=
  match changes !! m with
  | Some n => <[m := n + 1]> changes
  | None => changes
  end.

(** [Stats.start] *)
Definition Stats_start (self : Stats) (initial_mode : Z) (ts : time) : Stats :=
  mkStats (count_mode initial_mode (mode_changes self)) (time_in_mode_s self)
          initial_mode (Some ts).

(** [Stats.on_mode_change]; [time_in_mode_s[old_mode] += ...] raises
    KeyError for a mode that has no entry, before anything is changed. *)
Definition Stats_on_mode_change (self : Stats) (old_mode new_mode : Z)
    (ts : time) : res unit * Stats :=
  let spent :=
    match _last_ts self with
    | Some last =>
        match time_in_mode_s self !! old_mode with
        | Some t => Ok (<[old_mode := time_add t (time_sub ts last)]>
                          (time_in_mode_s self))
        | None => Err KeyError
        end
    | None => Ok (time_in_mode_s self)
    end in
  match spent with
  | Ok times =>
      (Ok tt, mkStats (count_mode new_mode (mode_changes self)) times
                      new_mode (Some ts))
  | Err e => (Err e, self)
  end.

(** [SmartFanApp]: the fan, its statistics, the history, the lines sent to
    the run logger, and the injected clock [now] with the number of times
    it has been read. *)
Record SmartFanApp : Type := mkApp {
  fan : Fan;
  stats : Stats;
  history : list Event;
  logged : list string;
  now : nat -> time;
  now_calls : nat
}.

Definition read_now (self : SmartFanApp) : time * SmartFanApp :=
  (now self (now_calls self),
   mkApp (fan self) (stats self) (history self) (logged self) (now self)
         (S (now_calls self))).

Definition logger_info (self : SmartFanApp) (line : string) : SmartFanApp :=
  mkApp (fan self) (stats self) (history self) (logged self ++ [line])
        (now self) (now_calls self).

(** [SmartFanApp(now=clock)] with the default fan and statistics, followed
    by [__post_init__]. *)
Definition SmartFanApp_new (clock : nat -> time) : SmartFanApp :=
  let self := mkApp (mkFan 0) Stats_default [] [] clock 0 in
  let (ts, self) := read_now self in
  let self := mkApp (fan self) (Stats_start (stats self) (mode (fan self)) ts)
                    (history self) (logged self) (now self) (now_calls self) in
  logger_info self ("Initial mode: " +:+ str_int (mode (fan self)) +:+ " ("
                    +:+ Fan_status (fan self) +:+ ")").

(** [SmartFanApp._log_event] *)
Definition _log_event (self : SmartFanApp) (action : string)
    (old_mode new_mode : Z) : SmartFanApp :=
  let (ts, self) := read_now self in
  let self := mkApp (fan self) (stats self)
                    (history self ++ [mkEvent ts action old_mode new_mode])
                    (logged self) (now self) (now_calls self) in
  logger_info self (action +:+ " | " +:+ str_int old_mode +:+ " -> "
                    +:+ str_int new_mode).

Definition status_text (self : SmartFanApp) : string :=
  "Mode: " +:+ str_int (mode (fan self)) +:+ " (" +:+ Fan_status (fan self)
  +:+ ")".

(** [SmartFanApp._change_mode]: the returned text or the exception, and the
    state in which the call leaves the application. *)
Definition _change_mode (self : SmartFanApp) (new_mode : Z) (action : string)
  : res string * SmartFanApp :=
  let old_mode := mode (fan self) in
  if new_mode =? old_mode then
    (Ok ("No change: " +:+ str_int old_mode +:+ " (" +:+ Fan_status (fan self)
         +:+ ")"), self)
  else
    match Fan_set_mode (fan self) new_mode with
    | (Err e, fan') =>
        (Err e, mkApp fan' (stats self) (history self) (logged self)
                      (now self) (now_calls self))
    | (Ok _, fan') =>
        let self := mkApp fan' (stats self) (history self) (logged self)
                          (now self) (now_calls self) in
        let (ts, self) := read_now self in
        match Stats_on_mode_change (stats self) old_mode new_mode ts with
        | (Err e, stats') =>
            (Err e, mkApp (fan self) stats' (history self) (logged self)
                          (now self) (now_calls self))
        | (Ok _, stats') =>
            let self := mkApp (fan self) stats' (history self) (logged self)
                              (now self) (now_calls self) in
            let self := _log_event self action old_mode new_mode in
            (Ok (status_text self), self)
        end
    end.

(** [SmartFanApp.set_mode] *)
Definition set_mode (self : SmartFanApp) (new_mode : Z)
  : res string * SmartFanApp :=
  _change_mode self new_mode "SET".

(** [SmartFanApp.up] *)
Definition up (self : SmartFanApp) : res string * SmartFanApp :=
  let new_mode := mode (fan self) + 1 in
  let new_mode := if MAX_MODE <? new_mode then MAX_MODE else new_mode in
  _change_mode self new_mode "UP".

(** [SmartFanApp.down] *)
Definition down (self : SmartFanApp) : res string * SmartFanApp :=
  let new_mode := mode (fan self) - 1 in
  let new_mode := if new_mode <? MIN_MODE then MIN_MODE else new_mode in
  _change_mode self new_mode "DOWN".

(** A call made on the application by its user. *)
Inductive call : Type :=
  | CallUp
  | CallDown
  | CallSetMode (m : Z).

Definition perform (self : SmartFanApp) (c : call) : res string * SmartFanApp :=
  match c with
  | CallUp => up self
  | CallDown => down self
  | CallSetMode m => set_mode self m
  end.

(** A sequence of calls on one application object; a call that raises
    leaves the object as it is at that moment, and the next call is made on
    it (as [run_cli] does after catching ValueError). *)
Definition perform_all (self : SmartFanApp) (calls : list call) : SmartFanApp :=
  fold_left (fun app c => snd (perform app c)) calls self.

(** The fan's mode is one of the four modes. *)
Definition mode_in_range (app : SmartFanApp) : Prop :=
  MIN_MODE <= mode (fan app) <= MAX_MODE.

(** [Stats.finalize]: the time since the last change is added to the entry
    of the last mode; KeyError when that mode has no entry. *)
Definition Stats_finalize (self : Stats) (ts : time) : res unit * Stats :=
  match _last_ts self with
  | None => (Ok tt, self)
  | Some last =>
      match time_in_mode_s self !! _last_mode self with
      | Some t =>
          (Ok tt,
           mkStats (mode_changes self)
                   (<[_last_mode self := time_add t (time_sub ts last)]>
                      (time_in_mode_s self))
                   (_last_mode self) (Some ts))
      | None => (Err KeyError, self)
      end
  end.

(** [Stats.turbo_count] *)
Definition Stats_turbo_count (self : Stats) : Z :=
  default 0 (mode_changes self !! 3).

(** [SmartFanApp.status] *)
Definition status (self : SmartFanApp) : string :=
  "Mode: " +:+ str_int (mode (fan self)) +:+ " (" +:+ Fan_status (fan self)
  +:+ ")".

(** [SmartFanApp.current_power_w] *)
Definition current_power_w (self : SmartFanApp) : Z :=
  default 0 (MODE_WATTS !! mode (fan self)).


(** The line that [_log_event] sends to the logger for an event. *)
Definition event_log_line (e : Event) : string :=
  action e +:+ " | " +:+ str_int (old_mode e) +:+ " -> "
  +:+ str_int (new_mode e).

(** The events lead from the mode [from] to the mode [to]: each starts in
    the mode in which the one before it ended, and changes it to another
    of the four modes. *)
Fixpoint leads (from : Z) (events : list Event) (to : Z) : Prop :=
  match events with
  | [] => from = to
  | e :: rest =>
      old_mode e = from /\ new_mode e <> from /\
      MIN_MODE <= new_mode e <= MAX_MODE /\ leads (new_mode e) rest to
  end.

(** How many of the events have switched to the mode [m]. *)
Fixpoint switches_to (m : Z) (events : list Event) : Z :=
  match events with
  | [] => 0
  | e :: rest => (if new_mode e =? m then 1 else 0) + switches_to m rest
  end.

(** A dictionary of the statistics has its entries at the four modes. *)
Definition four_modes {V} (d : gmap Z V) : Prop :=
  forall k : Z, is_Some (d !! k) <-> MIN_MODE <= k <= MAX_MODE.

(** The state of an application object whose parts agree: the statistics
    follow the fan, the history leads from the initial mode to the present
    one, the counters count the initial mode and the switches of the
    history, the log has a line for the start and one for every event, and
    the clock has been read once at the start and twice for every event. *)
Definition consistent (app : SmartFanApp) : Prop :=
  mode_in_range app /\
  four_modes (mode_changes (stats app)) /\
  four_modes (time_in_mode_s (stats app)) /\
  _last_mode (stats app) = mode (fan app) /\
  is_Some (_last_ts (stats app)) /\
  leads 0 (history app) (mode (fan app)) /\
  (forall m, MIN_MODE <= m <= MAX_MODE ->
     mode_changes (stats app) !! m =
       Some ((if m =? 0 then 1 else 0) + switches_to m (history app))) /\
  logged app =
    "Initial mode: 0 (switched off)" :: List.map event_log_line (history app) /\
  now_calls app = S (2 * List.length (history app)).

End WithTime.

(** [datetime.fromtimestamp(t).strftime("%H:%M:%S")]: the local time of day
    of a time stamp, or the exception that a time stamp out of the range of
    the platform raises. *)
Class StampText (T : TimeOps) : Type :=
  strftime_HMS : @time T -> res string.

Section WithStamps.

Context `{T : TimeOps} `{!StampText T}.


End WithStamps.

End SmartFan.

(* ===================================================================== *)
(** * Properties of the effect monad and of the text helpers             *)
(* ===================================================================== *)

(** Case analysis on the integer tests of a goal, leaving their meaning as
    hypotheses. *)
Ltac Z_cases :=
  repeat match goal with
         | |- context [?a <? ?b] => destruct (Z.ltb_spec a b)
         | |- context [?a <=? ?b] => destruct (Z.leb_spec a b)
         | |- context [?a =? ?b] => destruct (Z.eqb_spec a b)
         end; cbn [orb andb negb].

(** A world that differs by updates of the console only. *)
Ltac console_same :=
  unfold ATM.console_only; cbn; repeat split;
  first [ by eexists | exists []; by rewrite app_nil_r
        | rewrite <- ?app_assoc; by eexists ].

Section EffectFacts.

Lemma bind_run {A B} (m : M A) (k : A -> M B) (w : World) :
  (m ≫= k) w =
    match m w with
    | Return a w' => k a w'
    | Raise e w' => Raise e w'
    | Stuck s => Stuck s
    end.
Proof. reflexivity. Qed.

Lemma ret_run {A} (a : A) (w : World) : (mret a : M A) w = Return a w.
Proof. reflexivity. Qed.

Lemma lift_run {A} (r : res A) (w : World) :
  lift r w = match r with Ok a => Return a w | Err e => Raise e w end.
Proof. destruct r; reflexivity. Qed.

Lemma add_out_app (a b : list out_event) (w : World) :
  add_out b (add_out a w) = add_out (a ++ b) w.
Proof. unfold add_out; cbn. by rewrite app_assoc. Qed.

Lemma stdout_with_run (args : list string) (sep end_ : string) (flush : bool)
    (w : World) :
  stdout_with args sep end_ flush w =
    Return tt (add_out (Write (join sep args +:+ end_)
                        :: (if flush then [Flush] else [])) w).
Proof.
  unfold stdout_with. rewrite bind_run. destruct flush; cbn.
  - unfold sys_stdout_flush. by rewrite add_out_app.
  - reflexivity.
Qed.

Lemma stdout_run (message : string) (w : World) :
  stdout message w = Return tt (add_out [ATM.line_out message] w).
Proof. reflexivity. Qed.

Lemma stdin_run (prompt : string) (w : World) :
  stdin prompt w =
    let w1 := add_out (ATM.prompt_out prompt) w in
    match w_stdin w with
    | [] => Raise EOFError (mark_eof w1)
    | line :: rest =>
        if String.eqb line EmptyString
        then Raise EOFError (mark_eof (set_stdin rest w1))
        else Return (chomp line) (set_stdin rest w1)
    end.
Proof.
  unfold stdin, stdin_with. rewrite bind_run, stdout_with_run, bind_run.
  unfold sys_stdin_readline.
  change (w_stdin (add_out _ w)) with (w_stdin w).
  destruct (w_stdin w) as [|line rest]; [reflexivity|].
  destruct (String.eqb line EmptyString); reflexivity.
Qed.

#[global] Instance console_only_preorder : PreOrder ATM.console_only.
Proof.
  split.
  - intros w. repeat split. exists []. by rewrite app_nil_r.
  - intros a b c (?&?&?&?&m1&Hm1) (?&?&?&?&m2&Hm2).
    repeat split; try congruence.
    exists (m1 ++ m2). by rewrite Hm2, Hm1, app_assoc.
Qed.


#[global] Instance any_change_preorder : PreOrder any_change.
Proof. split; intros ?; unfold any_change; auto. Qed.

Lemma ends_well_weaken {A} (R R' : World -> World -> Prop) (w : World)
    (o : outcome A) :
  (forall w', R w w' -> R' w w') -> ends_well R w o -> ends_well R' w o.
Proof.
  intros HR. destruct o as [a w'|e w'|s]; cbn; [| |auto];
    intros (?&?&?); auto.
Qed.

Lemma runs_well_weaken {A} (R R' : World -> World -> Prop) (m : M A) :
  (forall w w', R w w' -> R' w w') -> runs_well R m -> runs_well R' m.
Proof. intros HR Hm w. eapply ends_well_weaken; [apply HR|apply Hm]. Qed.

Lemma bind_ends_well {A B} (R : World -> World -> Prop) `{!Transitive R}
    (m : M A) (k : A -> M B) (w : World) :
  ends_well R w (m w) ->
  (forall a w', m w = Return a w' -> ends_well R w' (k a w')) ->
  ends_well R w ((m ≫= k) w).
Proof.
  intros Hm Hk. rewrite bind_run.
  destruct (m w) as [a w1|e w1|s] eqn:Em; [|exact Hm|exact Hm].
  specialize (Hk a w1 eq_refl). cbn in Hm. destruct Hm as (HR&Hlen&Heof).
  destruct (k a w1) as [b w2|e w2|s]; cbn in *; [| |exact Hk].
  - destruct Hk as (HR2&Hlen2&Heof2). repeat split;
      [etrans; eauto|lia|congruence].
  - destruct Hk as (HR2&Hlen2&Heof2). repeat split;
      [etrans; eauto|lia|]. by rewrite Heof2, Heof.
Qed.

Lemma bind_runs_well {A B} (R : World -> World -> Prop) `{!Transitive R}
    (m : M A) (k : A -> M B) :
  runs_well R m -> (forall a, runs_well R (k a)) -> runs_well R (m ≫= k).
Proof.
  intros Hm Hk w. apply bind_ends_well; [assumption|apply Hm|].
  intros a w' _. apply Hk.
Qed.

Lemma ends_well_ret {A} (R : World -> World -> Prop) `{!Reflexive R} (a : A)
    (w : World) :
  ends_well R w (Return a w).
Proof. cbn. auto. Qed.

Lemma ret_runs_well {A} (R : World -> World -> Prop) `{!Reflexive R} (a : A) :
  runs_well R (mret a).
Proof. intros w. cbn. repeat split; auto. Qed.

Lemma reads_then_runs_well {A B} (R : World -> World -> Prop) `{!Transitive R}
    (m : M A) (k : A -> M B) :
  reads_well R m -> (forall a, runs_well R (k a)) -> reads_well R (m ≫= k).
Proof.
  intros Hm Hk w. split.
  - apply bind_ends_well; [assumption|apply Hm|]. intros a w' _. apply Hk.
  - rewrite bind_run. destruct (Hm w) as [_ Hlt].
    destruct (m w) as [a w1|e w1|s]; [|exact I|exact I].
    specialize (Hk a w1). destruct (k a w1) as [b w2|e w2|s]; [|exact I|exact I].
    cbn in Hk. lia.
Qed.

Lemma runs_then_reads_well {A B} (R : World -> World -> Prop) `{!Transitive R}
    (m : M A) (k : A -> M B) :
  runs_well R m -> (forall a, reads_well R (k a)) -> reads_well R (m ≫= k).
Proof.
  intros Hm Hk w. split.
  - apply bind_ends_well; [assumption|apply Hm|]. intros a w' _. apply Hk.
  - rewrite bind_run. specialize (Hm w).
    destruct (m w) as [a w1|e w1|s]; [|exact I|exact I].
    destruct (Hk a w1) as [_ Hlt].
    destruct (k a w1) as [b w2|e w2|s]; [|exact I|exact I].
    cbn in Hm. lia.
Qed.

Lemma reads_runs_well {A} (R : World -> World -> Prop) (m : M A) :
  reads_well R m -> runs_well R m.
Proof. intros Hm w. apply Hm. Qed.

Lemma stdout_runs_well (message : string) :
  runs_well ATM.console_only (stdout message).
Proof. intros w. rewrite stdout_run. split; [console_same|cbn; split; [lia|reflexivity]]. Qed.

Lemma stdin_reads_well (prompt : string) :
  reads_well ATM.console_only (stdin prompt).
Proof.
  intros w. rewrite stdin_run. cbn zeta.
  destruct (w_stdin w) as [|line rest] eqn:Ein; cbn.
  - rewrite Ein. split; [split; [console_same|split; [cbn; lia|reflexivity]]|exact I].
  - destruct (String.eqb line EmptyString); cbn; rewrite ?Ein; cbn;
      (split; [split; [console_same|split; [cbn; lia|reflexivity]]|]);
      first [exact I|lia].
Qed.

Lemma lift_runs_well {A} (R : World -> World -> Prop) `{!Reflexive R}
    (r : res A) :
  r <> Err EOFError -> runs_well R (lift r).
Proof.
  intros Hne w. rewrite lift_run. destruct r as [a|e]; cbn.
  - repeat split; auto.
  - repeat split; auto. case_bool_decide; congruence.
Qed.

Lemma ends_well_from {A} (R : World -> World -> Prop) `{!Transitive R}
    (w w1 : World) (o : outcome A) :
  R w w1 ->
  (List.length (w_stdin w1) <= List.length (w_stdin w))%nat ->
  w_eof_seen w1 = w_eof_seen w ->
  ends_well R w1 o -> ends_well R w o.
Proof.
  intros HR Hlen Heof. destruct o as [a w'|e w'|s]; cbn; [| |auto].
  - intros (?&?&?). repeat split; [etrans; eauto|lia|congruence].
  - intros (?&?&?). repeat split; [etrans; eauto|lia|by rewrite <- Heof].
Qed.

End EffectFacts.

(* ===================================================================== *)
(** * Properties of the smart-fan simulator                               *)
(* ===================================================================== *)

Section SmartFanFacts.

Import SmartFan.
Context `{TimeOps}.

Lemma change_mode_mode (app : SmartFanApp) (m : Z) (a : string) :
  mode (fan (snd (_change_mode app m a))) =
    if m =? mode (fan app) then mode (fan app)
    else if (m <? MIN_MODE) || (MAX_MODE <? m) then mode (fan app)
    else m.
Proof.
  unfold _change_mode, Fan_set_mode.
  destruct (m =? mode (fan app)); [reflexivity|].
  destruct ((m <? MIN_MODE) || (MAX_MODE <? m)); [reflexivity|].
  cbn [read_now fan stats].
  destruct (Stats_on_mode_change _ _ _ _) as [[u|e] stats']; reflexivity.
Qed.

Lemma change_mode_rejected (app : SmartFanApp) (m : Z) (a : string) :
  m ≠ mode (fan app) ->
  (m <? MIN_MODE) || (MAX_MODE <? m) = true ->
  _change_mode app m a = (Err ValueError, app).
Proof.
  intros Hne Hout. unfold _change_mode, Fan_set_mode.
  destruct (Z.eqb_spec m (mode (fan app))) as [->|_]; [congruence|].
  rewrite Hout. destruct app as [[md] st hist lg nw calls]. reflexivity.
Qed.

Lemma perform_in_range (app : SmartFanApp) (c : call) :
  mode_in_range app -> mode_in_range (snd (perform app c)).
Proof.
  unfold mode_in_range, MIN_MODE, MAX_MODE. intros Hr.
  destruct c as [| |m]; cbn [perform]; unfold up, down, set_mode;
    rewrite change_mode_mode; unfold MIN_MODE, MAX_MODE;
    Z_cases; lia.
Qed.

Lemma perform_all_in_range (calls : list call) (app : SmartFanApp) :
  mode_in_range app -> mode_in_range (perform_all app calls).
Proof.
  revert app. induction calls as [|c calls IH]; intros app Hr; [exact Hr|].
  cbn. apply IH, perform_in_range, Hr.
Qed.

Lemma new_in_range (clock : nat -> time) : mode_in_range (SmartFanApp_new clock).
Proof. unfold mode_in_range, MIN_MODE, MAX_MODE. cbn. lia. Qed.

(** C10. Starting from the fresh application (mode 0), after any sequence
    of [up], [down] and [set_mode m] calls the mode lies in 0..3.  In every
    such state [up] moves to the next mode but not beyond 3, [down] moves to
    the previous mode but not below 0, and [set_mode m] with [m] outside
    0..3 raises ValueError and leaves the application, hence its mode, as it
    was, while [set_mode m] with [m] in 0..3 makes [m] the mode. *)
Theorem fan_mode_stays_in_range (clock : nat -> time) (calls : list call) :
  let app := perform_all (SmartFanApp_new clock) calls in
  mode (fan (SmartFanApp_new clock)) = 0 /\
  0 <= mode (fan app) <= 3 /\
  mode (fan (snd (up app))) = Z.min (mode (fan app) + 1) 3 /\
  mode (fan (snd (down app))) = Z.max (mode (fan app) - 1) 0 /\
  forall m : Z,
    if (m <? 0) || (3 <? m)
    then set_mode app m = (Err ValueError, app)
    else mode (fan (snd (set_mode app m))) = m.
Proof.
  intros app.
  assert (Hr : mode_in_range app) by apply perform_all_in_range, new_in_range.
  unfold mode_in_range, MIN_MODE, MAX_MODE in Hr.
  split; [reflexivity|]. split; [exact Hr|].
  split; [|split].
  - unfold up. rewrite change_mode_mode. unfold MIN_MODE, MAX_MODE.
    Z_cases; lia.
  - unfold down. rewrite change_mode_mode. unfold MIN_MODE, MAX_MODE.
    Z_cases; lia.
  - intros m. destruct ((m <? 0) || (3 <? m)) eqn:Hout.
    + unfold set_mode. apply change_mode_rejected; [|exact Hout].
      apply orb_true_iff in Hout. lia.
    + unfold set_mode. rewrite change_mode_mode. unfold MIN_MODE, MAX_MODE.
      rewrite Hout. destruct (Z.eqb_spec m (mode (fan app))); congruence.
Qed.

End SmartFanFacts.

(* ===================================================================== *)
(** * Properties of the decimal arithmetic                                *)
(* ===================================================================== *)

Section DecimalErrors.

Import Decimal.

Lemma of_string_err (s : string) (e : exn) :
  of_string s = Err e -> e = InvalidOperation.
Proof.
  unfold of_string.
  destruct (remove_char "_" (strip s)) as [|c r]; cbn zeta.
  - destruct (parse_finite EmptyString) as [[c0 e0]|];
      [destruct (_ && _)|destruct (parse_special _ _)]; congruence.
  - set (p := match c with
              | "-"%char => (true, r)
              | "+"%char => (false, r)
              | _ => (false, String c r)
              end).
    destruct p as [neg body].
    destruct (parse_finite body) as [[c0 e0]|];
      [destruct (_ && _)|destruct (parse_special _ _)]; congruence.
Qed.

Lemma fix_err (neg : bool) (c : N) (e : Z) (x : exn) :
  fix_ neg c e = Err x -> x = DecimalOverflow.
Proof.
  unfold fix_.
  repeat match goal with
         | |- context [if ?b then _ else _] => destruct b
         end; congruence.
Qed.

Lemma mul_err (a b : decimal) (x : exn) :
  mul a b = Err x -> x = InvalidOperation \/ x = DecimalOverflow.
Proof.
  destruct a as [s1 c1 e1|s1|s1 [] p1], b as [s2 c2 e2|s2|s2 [] p2]; cbn;
    try (intros [= <-]; auto; fail); try discriminate.
  - intros Hx. right. eapply fix_err, Hx.
  - destruct (c1 =? 0)%N; [intros [= <-]; auto|discriminate].
  - destruct (c2 =? 0)%N; [intros [= <-]; auto|discriminate].
Qed.

Lemma quantize_err (d q : decimal) (x : exn) :
  quantize d q = Err x -> x = InvalidOperation \/ x = DecimalOverflow.
Proof.
  destruct d as [s1 c1 e1|s1|s1 [] p1], q as [s2 c2 e2|s2|s2 [] p2]; cbn;
    try (intros [= <-]; auto; fail); try discriminate.
  repeat match goal with
         | |- context [if ?b then _ else _] => destruct b
         end;
    try (intros [= <-]; auto; fail);
    intros Hx; right; eapply fix_err, Hx.
Qed.

Lemma to_int_err (d : decimal) (x : exn) :
  to_int d = Err x -> x = OverflowError \/ x = ValueError.
Proof. destruct d; cbn; [discriminate|intros [= <-]; auto..]. Qed.

Lemma to_cents_err (d : decimal) (x : exn) :
  ATM.to_cents d = Err x ->
  x = InvalidOperation \/ x = DecimalOverflow \/ x = OverflowError \/
  x = ValueError.
Proof.
  unfold ATM.to_cents. cbn.
  destruct (mul d (of_int 100)) as [p|e1] eqn:E1; cbn.
  - destruct (of_string "1") as [one|e2] eqn:E2; cbn.
    + destruct (quantize p one) as [q|e3] eqn:E3; cbn.
      * intros Hx. apply to_int_err in Hx. tauto.
      * intros [= <-]. apply quantize_err in E3. tauto.
    + intros [= <-]. apply of_string_err in E2. tauto.
  - intros [= <-]. apply mul_err in E1. tauto.
Qed.

Lemma lt_zero_err (d : decimal) (x : exn) :
  lt_zero d = Err x -> x = InvalidOperation.
Proof. destruct d; cbn; congruence. Qed.

End DecimalErrors.

(* ===================================================================== *)
(** * Properties of the console view                                      *)
(* ===================================================================== *)

Section ViewFacts.

Import ATM.

(** One round of a prompt loop: the line is read, and either the loop ends
    with a value or an error line is printed and the loop goes on. *)
Lemma prompt_round {A} (fuel : nat) (prompt : string) (w : World)
    (body : string -> M A) :
  (List.length (w_stdin w) < S fuel)%nat ->
  (forall line w1,
      console_only w w1 ->
      (List.length (w_stdin w1) < List.length (w_stdin w))%nat ->
      w_eof_seen w1 = w_eof_seen w ->
      ends_well console_only w1 (body line w1) /\
      match body line w1 with
      | Return _ w' => (List.length (w_stdin w') <= List.length (w_stdin w1))%nat
      | _ => True
      end) ->
  let o := (stdin prompt ≫= body) w in
  ends_well console_only w o /\
  match o with
  | Return _ w' => (List.length (w_stdin w') < List.length (w_stdin w))%nat
  | _ => True
  end.
Proof.
  intros Hfuel Hbody o. subst o. rewrite bind_run.
  destruct (stdin_reads_well prompt w) as [Hw Hlt].
  destruct (stdin prompt w) as [line w1|e w1|s]; [|split; [exact Hw|exact I]..].
  cbn in Hw. destruct Hw as (HR&Hle&Heof).
  destruct (Hbody line w1 HR Hlt Heof) as [Hb Hb'].
  split.
  - eapply ends_well_from; eauto. apply _.
  - destruct (body line w1); [lia|exact I|exact I].
Qed.

Lemma error_then {A} (message : string) (k : M A) (w : World) :
  (error message;; k) w = k (add_out [line_out ("[Ошибка] " +:+ message)] w).
Proof. reflexivity. Qed.

(** What is to be shown of the rest of a round that prints an error line and
    goes on with one unit of fuel less. *)
Ltac next_round IH :=
  rewrite error_then;
  match goal with
  | |- context [add_out ?ev ?w1] =>
      let Hi := fresh "Hi" in
      let Hd := fresh "Hd" in
      edestruct (IH (add_out ev w1)) as [Hi Hd]; [cbn; lia|];
      split;
      [ eapply ends_well_from; [apply _| | | |exact Hi];
        [console_same|cbn; lia|reflexivity]
      | clear Hi; revert Hd;
        match goal with
        | |- match ?o with _ => _ end -> _ => destruct o
        end; cbn; intros; [lia|exact I..] ]
  end.

Lemma ask_text_loop_well (prompt : string) (min_len : Z) (fuel : nat) :
  forall w, (List.length (w_stdin w) < fuel)%nat ->
    ends_well console_only w (ask_text_loop fuel prompt min_len w) /\
    match ask_text_loop fuel prompt min_len w with
    | Return _ w' => (List.length (w_stdin w') < List.length (w_stdin w))%nat
    | _ => True
    end.
Proof.
  induction fuel as [|fuel IH]; intros w Hfuel; [lia|].
  cbn [ask_text_loop]. apply (prompt_round fuel); [exact Hfuel|].
  intros line w1 HR Hlt Heof.
  destruct (min_len <=? len (strip line)).
  - split; [apply ends_well_ret, _|cbn; lia].
  - next_round IH.
Qed.

Lemma ask_text_reads_well (prompt : string) (min_len : Z) :
  reads_well console_only (ask_text prompt min_len).
Proof.
  intros w. unfold ask_text, with_input_fuel.
  apply ask_text_loop_well. unfold input_fuel. lia.
Qed.

Lemma ask_digits_loop_well (prompt : string) (min_len : Z) (max_len : option Z)
    (fuel : nat) :
  forall w, (List.length (w_stdin w) < fuel)%nat ->
    ends_well console_only w (ask_digits_loop fuel prompt min_len max_len w) /\
    match ask_digits_loop fuel prompt min_len max_len w with
    | Return _ w' => (List.length (w_stdin w') < List.length (w_stdin w))%nat
    | _ => True
    end.
Proof.
  induction fuel as [|fuel IH]; intros w Hfuel; [lia|].
  cbn [ask_digits_loop]. apply (prompt_round fuel); [exact Hfuel|].
  intros line w1 HR Hlt Heof.
  destruct (negb (isdigit (strip line))); [next_round IH|].
  destruct (len (strip line) <? min_len); [next_round IH|].
  destruct max_len as [mx|].
  - destruct (mx <? len (strip line)); [next_round IH|].
    split; [apply ends_well_ret, _|cbn; lia].
  - split; [apply ends_well_ret, _|cbn; lia].
Qed.

Lemma ask_digits_reads_well (prompt : string) (min_len : Z) (max_len : option Z) :
  reads_well console_only (ask_digits prompt min_len max_len).
Proof.
  intros w. unfold ask_digits, with_input_fuel.
  apply ask_digits_loop_well. unfold input_fuel. lia.
Qed.

Lemma ask_pin_create_loop_well (fuel : nat) :
  forall w, (List.length (w_stdin w) < fuel)%nat ->
    ends_well console_only w (ask_pin_create_loop fuel w) /\
    match ask_pin_create_loop fuel w with
    | Return _ w' => (List.length (w_stdin w') < List.length (w_stdin w))%nat
    | _ => True
    end.
Proof.
  induction fuel as [|fuel IH]; intros w Hfuel; [lia|].
  cbn [ask_pin_create_loop]. rewrite bind_run.
  destruct (ask_digits_reads_well "Введите PIN" 4 (Some 8) w) as [H1 L1].
  destruct (ask_digits _ _ _ w) as [pin1 w1|e w1|s]; [|split; [exact H1|exact I]..].
  cbn in H1. destruct H1 as (R1&_&E1).
  rewrite bind_run.
  destruct (ask_digits_reads_well "Повторите PIN" 4 (Some 8) w1) as [H2 L2].
  destruct (ask_digits _ _ _ w1) as [pin2 w2|e w2|s].
  - cbn in H2. destruct H2 as (R2&_&E2).
    destruct (String.eqb pin1 pin2).
    + cbn. refine (conj (conj _ (conj _ _)) _);
        [etrans; eauto|lia|congruence|lia].
    + rewrite error_then.
      edestruct (IH (add_out [line_out ("[Ошибка] " +:+
                   "PIN не совпадает. Попробуйте ещё раз.")] w2)) as [Hi Hd];
        [cbn; lia|].
      split.
      * eapply ends_well_from; [apply _| | | |exact Hi];
          [etrans; [exact R1|]; etrans; [exact R2|]; console_same
          |cbn; lia|cbn; congruence].
      * clear Hi. revert Hd.
        destruct (ask_pin_create_loop fuel _); cbn; intros; [lia|exact I..].
  - split; [|exact I]. eapply ends_well_from; [apply _| | | |exact H2];
      [exact R1|lia|exact E1].
  - split; [exact H2|exact I].
Qed.

Lemma ask_pin_create_reads_well : reads_well console_only ask_pin_create.
Proof.
  intros w.
  set (w1 := add_out [line_out "Создайте PIN-код (4–8 цифр)."] w).
  change (ask_pin_create w) with (ask_pin_create_loop (input_fuel w1) w1).
  destruct (ask_pin_create_loop_well (input_fuel w1) w1) as [Hi Hd];
    [unfold input_fuel; lia|].
  split.
  - eapply ends_well_from; [apply _| | | |exact Hi];
      [console_same|cbn; lia|reflexivity].
  - clear Hi. revert Hd.
    destruct (ask_pin_create_loop _ _); cbn; intros; [lia|exact I..].
Qed.

Lemma ask_pin_login_reads_well : reads_well console_only ask_pin_login.
Proof. apply ask_digits_reads_well. Qed.

Lemma ask_money_amount_loop_well (prompt : string) (fuel : nat) :
  forall w, (List.length (w_stdin w) < fuel)%nat ->
    ends_well console_only w (ask_money_amount_loop fuel prompt w) /\
    match ask_money_amount_loop fuel prompt w with
    | Return _ w' => (List.length (w_stdin w') < List.length (w_stdin w))%nat
    | _ => True
    end.
Proof.
  induction fuel as [|fuel IH]; intros w Hfuel; [lia|].
  cbn [ask_money_amount_loop]. apply (prompt_round fuel); [exact Hfuel|].
  intros line w1 HR Hlt Heof.
  destruct (Decimal.of_string _) as [d|e] eqn:Ed.
  - destruct (Decimal.is_nan d || Decimal.is_infinite d); [next_round IH|].
    rewrite bind_run, lift_run.
    destruct (Decimal.lt_zero d) as [[|]|e] eqn:El.
    + next_round IH.
    + rewrite lift_run. destruct (to_cents d) as [c|e] eqn:Ec; cbn.
      * refine (conj (conj _ (conj _ _)) _); [reflexivity|lia|reflexivity|lia].
      * refine (conj (conj _ (conj _ _)) I); [reflexivity|lia|].
        case_bool_decide; [|reflexivity].
        apply to_cents_err in Ec. intuition congruence.
    + cbn. refine (conj (conj _ (conj _ _)) I); [reflexivity|lia|].
      case_bool_decide; [|reflexivity].
      apply lt_zero_err in El. congruence.
  - apply of_string_err in Ed as ->. cbn [bool_decide decide_rel orb].
    rewrite bool_decide_eq_true_2 by reflexivity. cbn [orb].
    next_round IH.
Qed.

Lemma ask_money_amount_reads_well (prompt : string) :
  reads_well console_only (ask_money_amount prompt).
Proof.
  intros w. unfold ask_money_amount, with_input_fuel.
  apply ask_money_amount_loop_well. unfold input_fuel. lia.
Qed.

Lemma info_runs_well (message : string) : runs_well console_only (info message).
Proof. apply stdout_runs_well. Qed.

Lemma warn_runs_well (message : string) : runs_well console_only (warn message).
Proof. apply stdout_runs_well. Qed.

Lemma error_runs_well (message : string) : runs_well console_only (error message).
Proof. apply stdout_runs_well. Qed.

Lemma show_balance_runs_well (balance : Z) :
  runs_well console_only (show_balance balance).
Proof. apply stdout_runs_well. Qed.

(** Peel the leading [stdout] calls off a sequence. *)
Ltac after_stdout :=
  repeat lazymatch goal with
         | |- runs_well _ (mbind _ (stdout _)) =>
             apply bind_runs_well; [apply _|apply stdout_runs_well|intros _]
         | |- reads_well _ (mbind _ (stdout _)) =>
             apply runs_then_reads_well;
             [apply _|apply stdout_runs_well|intros _]
         end.

Lemma show_title_runs_well : runs_well console_only show_title.
Proof. unfold show_title. after_stdout. apply stdout_runs_well. Qed.

Lemma show_account_created_runs_well (number : string) :
  runs_well console_only (show_account_created number).
Proof.
  unfold show_account_created, info, warn. after_stdout.
  apply stdout_runs_well.
Qed.

Lemma pause_runs_well (message : string) : runs_well console_only (pause message).
Proof.
  intros w. unfold pause. rewrite bind_run, stdout_with_run, bind_run.
  unfold sys_stdin_readline.
  change (w_stdin (add_out _ w)) with (w_stdin w).
  destruct (w_stdin w) as [|line rest] eqn:Ein; cbn; rewrite ?Ein; cbn;
    (split; [console_same|split; [lia|reflexivity]]).
Qed.

Lemma menu_startup_reads_well : reads_well console_only menu_startup.
Proof.
  unfold menu_startup. after_stdout.
  apply reads_then_runs_well; [apply _|apply stdin_reads_well|].
  intros line. apply ret_runs_well, _.
Qed.

Lemma menu_main_reads_well : reads_well console_only menu_main.
Proof.
  unfold menu_main. after_stdout.
  apply reads_then_runs_well; [apply _|apply stdin_reads_well|].
  intros line. apply ret_runs_well, _.
Qed.

End ViewFacts.

(* ===================================================================== *)
(** * Properties of the account store                                     *)
(* ===================================================================== *)

Section StoreFacts.

Import ATM.

(** [load], by the state of the backing file. *)
Lemma load_run (w : World) :
  load w =
    match w_file w with
    | NoFile => Return empty_doc w
    | NotJson => Raise JSONDecodeError w
    | JsonText (JObj top) =>
        match top !! "accounts" with
        | Some (JObj m) => Return (JObj top) w
        | _ => Return empty_doc w
        end
    | JsonText (JArr items) =>
        if existsb (is_JStr "accounts") items then Raise TypeError w
        else Return empty_doc w
    | JsonText (JStr text) =>
        if is_substring "accounts" text then Raise TypeError w
        else Return empty_doc w
    | JsonText _ => Raise TypeError w
    end.
Proof.
  unfold load. rewrite bind_run. unfold get_file.
  destruct (w_file w) as [| |data]; [reflexivity..|].
  rewrite bind_run, lift_run.
  destruct data as [| | | |text|items|top]; cbn [contains]; try reflexivity.
  - destruct (is_substring "accounts" text); reflexivity.
  - destruct (existsb _ items); reflexivity.
  - cbn [getitem]. destruct (top !! "accounts") as [v|] eqn:Hv.
    + rewrite bool_decide_eq_true_2 by eauto. cbn [negb].
      rewrite bind_run, lift_run. destruct v; reflexivity.
    + rewrite bool_decide_eq_false_2 by (intros [? ?]; congruence). reflexivity.
Qed.

Lemma empty_doc_accounts :
  exists top, empty_doc = JObj top /\ top !! "accounts" = Some (JObj ∅).
Proof. eexists. split; [reflexivity|]. apply lookup_singleton_eq. Qed.

(** A document that [load] returns has the shape of the store: it is the
    document of the file, or the empty document when the file holds none
    of that shape.  [load] changes nothing. *)
Lemma load_returns (w w' : World) (doc : json) :
  load w = Return doc w' ->
  w' = w /\
  exists top m, doc = JObj top /\ top !! "accounts" = Some (JObj m) /\
    (accounts_of (w_file w) = Some m \/
     accounts_of (w_file w) = None /\ doc = empty_doc /\ m = ∅).
Proof.
  rewrite load_run. unfold accounts_of.
  destruct empty_doc_accounts as (top0&Hd0&Ha0).
  destruct (w_file w) as [| |data].
  - intros [= <- <-]. split; [reflexivity|]. exists top0, ∅. auto 6.
  - discriminate.
  - destruct data as [| | | |text|items|top]; try discriminate.
    + destruct (is_substring _ _); [discriminate|].
      intros [= <- <-]. split; [reflexivity|]. exists top0, ∅. auto 6.
    + destruct (existsb _ _); [discriminate|].
      intros [= <- <-]. split; [reflexivity|]. exists top0, ∅. auto 6.
    + destruct (top !! "accounts") as [v|] eqn:Hv; [destruct v|];
        intros [= <- <-]; (split; [reflexivity|]);
        try (exists top0, ∅; auto 6; fail).
      eexists top, _. eauto.
Qed.

Lemma load_raises (w w' : World) (e : exn) :
  load w = Raise e w' -> w' = w /\ (e = JSONDecodeError \/ e = TypeError).
Proof.
  rewrite load_run.
  destruct (w_file w) as [| |data]; [discriminate|intros [= <- <-]; auto|].
  destruct data as [| | | |text|items|top]; try (intros [= <- <-]; auto; fail).
  - destruct (is_substring _ _); [intros [= <- <-]; auto|discriminate].
  - destruct (existsb _ _); [intros [= <- <-]; auto|discriminate].
  - destruct (top !! "accounts") as [[]|]; discriminate.
Qed.

Lemma load_not_stuck (w : World) (s : stuck) : load w <> Stuck s.
Proof.
  rewrite load_run.
  destruct (w_file w) as [| |data]; [discriminate..|].
  destruct data as [| | | |text|items|top]; try discriminate.
  - destruct (is_substring _ _); discriminate.
  - destruct (existsb _ _); discriminate.
  - destruct (top !! "accounts") as [[]|]; discriminate.
Qed.

Lemma load_runs_well : runs_well (fun w w' => w' = w) load.
Proof.
  intros w. destruct (load w) as [doc w'|e w'|s] eqn:El; cbn.
  - apply load_returns in El as [-> _]. auto.
  - apply load_raises in El as [-> He]. repeat split; [lia|].
    case_bool_decide; [|reflexivity]. destruct He; congruence.
  - by apply load_not_stuck in El.
Qed.

(** A file that holds a document of the store's shape loads as that
    document. *)
Lemma load_shaped (w : World) (m : gmap string json) :
  accounts_of (w_file w) = Some m ->
  exists top, w_file w = JsonText (JObj top) /\
    top !! "accounts" = Some (JObj m) /\ load w = Return (JObj top) w.
Proof.
  rewrite load_run. unfold accounts_of.
  destruct (w_file w) as [| |data]; try discriminate.
  destruct data as [| | | | | |top]; try discriminate.
  destruct (top !! "accounts") as [[]|] eqn:Hv; try discriminate.
  intros [= ->]. eauto.
Qed.

Lemma loadable_set_file (w : World) (top : gmap string json)
    (m : gmap string json) :
  top !! "accounts" = Some (JObj m) ->
  loadable (set_file (JsonText (JObj top)) w).
Proof.
  intros Hm. exists (JObj top). rewrite load_run. cbn. by rewrite Hm.
Qed.

(** [upsert_account] after a successful [load]. *)
Lemma upsert_account_run (a : Account) (w : World) (top m : gmap string json) :
  load w = Return (JObj top) w ->
  top !! "accounts" = Some (JObj m) ->
  upsert_account a w =
    Return tt
      (set_file (JsonText (JObj (<["accounts" :=
         JObj (<[account_number a := asdict a]> m)]> top))) w).
Proof.
  intros Hl Hm. unfold upsert_account. rewrite bind_run, Hl, bind_run, lift_run.
  cbn [getitem]. rewrite Hm. reflexivity.
Qed.

Lemma upsert_account_fails (a : Account) (w w' : World) (e : exn) :
  load w = Raise e w' -> upsert_account a w = Raise e w'.
Proof. intros Hl. unfold upsert_account. by rewrite bind_run, Hl. Qed.

(** [upsert_account] ends as [load] does: it returns exactly when the file
    can be loaded, and then the file holds the record. *)
Lemma upsert_account_returns (a : Account) (w w' : World) :
  upsert_account a w = Return tt w' ->
  loadable w /\ persisted w' a /\ loadable w' /\
  w' = set_file (w_file w') w /\
  forall number, number <> account_number a ->
    stored (w_file w') number =
      match accounts_of (w_file w) with
      | Some m => m !! number
      | None => None
      end.
Proof.
  intros Hu. destruct (load w) as [doc w1|e w1|s] eqn:El.
  - destruct (load_returns _ _ _ El) as (->&top&m&->&Hm&Hfile).
    rewrite (upsert_account_run a w top m El Hm) in Hu.
    injection Hu as <-. split; [by eexists|].
    split; [|split; [|split]].
    + unfold persisted, stored, accounts_of. cbn.
      rewrite lookup_insert_eq. apply lookup_insert_eq.
    + eapply loadable_set_file. apply lookup_insert_eq.
    + reflexivity.
    + intros number Hne. unfold stored, accounts_of at 1. cbn.
      rewrite lookup_insert_eq, lookup_insert_ne by congruence.
      destruct Hfile as [->|(->&_&->)]; [reflexivity|apply lookup_empty].
  - rewrite (upsert_account_fails a w w1 e El) in Hu. discriminate.
  - by apply load_not_stuck in El.
Qed.

Lemma upsert_account_loadable (a : Account) (w : World) :
  loadable w -> exists w', upsert_account a w = Return tt w'.
Proof.
  intros [doc Hl]. destruct (load_returns _ _ _ Hl) as (_&top&m&->&Hm&_).
  eexists. by apply upsert_account_run.
Qed.

Lemma upsert_account_runs_well (a : Account) :
  runs_well any_change (upsert_account a).
Proof.
  intros w. destruct (load w) as [doc w1|e w1|s] eqn:El.
  - destruct (load_returns _ _ _ El) as (->&top&m&->&Hm&_).
    rewrite (upsert_account_run a w top m El Hm). cbn. unfold any_change. auto.
  - rewrite (upsert_account_fails a w w1 e El).
    generalize (load_runs_well w). rewrite El. cbn. unfold any_change. tauto.
  - by apply load_not_stuck in El.
Qed.

Lemma Account_of_kwargs_asdict (a : Account) (w : World) :
  Account_of_kwargs (asdict a) w = Return a w.
Proof. destruct a. vm_compute. reflexivity. Qed.

Lemma truthy_asdict (a : Account) : truthy (asdict a) = true.
Proof. destruct a. vm_compute. reflexivity. Qed.

(** Reading back a record that the store holds. *)
Lemma get_account_persisted (a : Account) (w : World) :
  persisted w a -> get_account (account_number a) w = Return (Some a) w.
Proof.
  unfold persisted, stored. intros Hp.
  destruct (accounts_of (w_file w)) as [m|] eqn:Hm; [|discriminate].
  destruct (load_shaped w m Hm) as (top&Hf&Ha&Hl).
  unfold get_account. rewrite bind_run, Hl, bind_run, lift_run.
  cbn [getitem]. rewrite Ha, Hp, truthy_asdict. cbn [negb].
  by rewrite bind_run, Account_of_kwargs_asdict.
Qed.

Lemma account_exists_run (number : string) (w : World) (m : gmap string json) :
  accounts_of (w_file w) = Some m ->
  account_exists number w = Return (bool_decide (is_Some (m !! number))) w.
Proof.
  intros Hm. destruct (load_shaped w m Hm) as (top&Hf&Ha&Hl).
  unfold account_exists. rewrite bind_run, Hl, bind_run, lift_run.
  cbn [getitem]. rewrite Ha. reflexivity.
Qed.



(** C6. After [upsert_account a] has returned, and as long as the backing
    file is not written again, [get_account] with the number of [a] returns
    a record equal to [a] in all fields. *)
Theorem get_account_after_upsert (a : Account) (w w' w'' : World) :
  upsert_account a w = Return tt w' ->
  w_file w'' = w_file w' ->
  get_account (account_number a) w'' = Return (Some a) w''.
Proof.
  intros Hu Hf. apply upsert_account_returns in Hu as (_&Hp&_).
  apply get_account_persisted. unfold persisted in *. by rewrite Hf.
Qed.

Lemma get_account_after_upsert_witness :
  let w' := set_file (JsonText (JObj {["accounts" :=
              JObj {["0000000001" := asdict sample_account]}]})) bare_world in
  upsert_account sample_account bare_world = Return tt w' /\
  w_file (add_out [Flush] w') = w_file w' /\
  get_account "0000000001" (add_out [Flush] w')
    = Return (Some sample_account) (add_out [Flush] w').
Proof.
  intros w'.
  assert (Hu : upsert_account sample_account bare_world = Return tt w')
    by (vm_compute; reflexivity).
  split; [exact Hu|]. split; [reflexivity|].
  exact (get_account_after_upsert sample_account bare_world w'
           (add_out [Flush] w') Hu eq_refl).
Defined.

End StoreFacts.

(* ===================================================================== *)
(** * Properties of the PIN helpers                                       *)
(* ===================================================================== *)

Section PinFacts.

Import ATM.
Context `{Sha256}.

Lemma hex_byte_decodes (x : Byte.byte) :
  let n := Byte.to_N x in
  is_hex_space (hex_digit (n / 16)) = false /\
  hex_val (hex_digit (n / 16)) = Some (n / 16)%N /\
  hex_val (hex_digit (n mod 16)) = Some (n mod 16)%N /\
  Byte.of_N (16 * (n / 16) + n mod 16) = Some x.
Proof. destruct x; vm_compute; auto. Qed.

(** [bytes.fromhex(b.hex()) == b] *)
Lemma fromhex_hex (b : bytes) : fromhex (hex b) = Ok b.
Proof.
  induction b as [|x r IH]; [reflexivity|].
  cbn [hex fromhex].
  destruct (hex_byte_decodes x) as (Hs&Hh&Hl&Hb). cbn zeta in *.
  rewrite Hs, Hh, Hl, Hb, IH. reflexivity.
Qed.

Lemma bytes_eqb_refl (b : bytes) : bytes_eqb b b = true.
Proof.
  induction b as [|x r IH]; [reflexivity|]. cbn.
  rewrite IH, andb_true_r. destruct x; reflexivity.
Qed.

Lemma verify_pin_hex (pin : string) (salt : bytes) (w : World) :
  _verify_pin pin (hex salt) (hex (_hash_pin pin salt)) w = Return true w.
Proof.
  unfold _verify_pin. rewrite bind_run, lift_run, fromhex_hex.
  rewrite bind_run, lift_run, fromhex_hex. cbn.
  unfold compare_digest. by rewrite bytes_eqb_refl.
Qed.

(** C5. Whatever the PIN (in particular for every PIN of 4 to 8 digits) and
    whatever salt the random source supplies: when [_make_pin_record pin]
    has returned the pair (salt-hex, hash-hex), [_verify_pin] of the same
    PIN against that pair returns [True]. *)
Theorem verify_pin_of_make_pin_record (pin salt_hex hash_hex : string)
    (w w' w'' : World) :
  _make_pin_record pin w = Return (salt_hex, hash_hex) w' ->
  _verify_pin pin salt_hex hash_hex w'' = Return true w''.
Proof.
  unfold _make_pin_record. rewrite bind_run. unfold secrets_token_bytes.
  destruct (w_token_bytes w) as [|salt rest]; [discriminate|].
  cbn. intros [= <- <- _]. apply verify_pin_hex.
Qed.

End PinFacts.

Section PinExample.

Import ATM.

Lemma verify_pin_of_make_pin_record_witness :
  let digest : Sha256 := fun data => data in
  let w := set_token_bytes [repeat Byte.x00 16] bare_world in
  _make_pin_record "1234" w
    = Return ("00000000000000000000000000000000",
              "0000000000000000000000000000000031323334") bare_world /\
  _verify_pin "1234" "00000000000000000000000000000000"
      "0000000000000000000000000000000031323334" bare_world
    = Return true bare_world.
Proof.
  intros digest w.
  assert (Hm : _make_pin_record "1234" w
               = Return ("00000000000000000000000000000000",
                         "0000000000000000000000000000000031323334") bare_world)
    by (vm_compute; reflexivity).
  split; [exact Hm|].
  exact (verify_pin_of_make_pin_record "1234" _ _ w bare_world bare_world Hm).
Defined.

End PinExample.

(* ===================================================================== *)
(** * Properties of the text helpers                                      *)
(* ===================================================================== *)

Section TextFacts.

Lemma app_cons (c : ascii) (s t : string) :
  String c s +:+ t = String c (s +:+ t).
Proof. reflexivity. Qed.

Lemma app_empty_l (t : string) : EmptyString +:+ t = t.
Proof. reflexivity. Qed.

Lemma length_app (s t : string) :
  String.length (s +:+ t) = (String.length s + String.length t)%nat.
Proof.
  induction s as [|c s IH]; [reflexivity|].
  rewrite app_cons. cbn. by rewrite IH.
Qed.

Lemma all_chars_app (p : ascii -> bool) (s t : string) :
  all_chars p (s +:+ t) = all_chars p s && all_chars p t.
Proof.
  induction s as [|c s IH]; [reflexivity|].
  rewrite app_cons. cbn. by rewrite IH, andb_assoc.
Qed.

Lemma length_repeat_char (c : ascii) (n : nat) :
  String.length (repeat_char c n) = n.
Proof. induction n as [|n IH]; cbn; [reflexivity|by rewrite IH]. Qed.

Lemma all_chars_repeat_char (p : ascii -> bool) (c : ascii) (n : nat) :
  p c = true -> all_chars p (repeat_char c n) = true.
Proof. intros Hc. induction n as [|n IH]; cbn; [reflexivity|by rewrite Hc, IH]. Qed.

Lemma digit_char_is_digit (d : N) :
  (d < 10)%N -> is_digit (digit_char d) = true.
Proof.
  intros Hd. destruct d as [|p]; [reflexivity|].
  repeat (destruct p as [p|p|]; try lia; try reflexivity).
Qed.

Lemma digit_is_no_sign (c : ascii) :
  is_digit c = true -> Ascii.eqb c "-" || Ascii.eqb c "+" = false.
Proof.
  destruct c as [[] [] [] [] [] [] [] []]; try discriminate; reflexivity.
Qed.

Lemma digits_go_all_digits (fuel : nat) :
  forall (n : N) (acc : string),
    all_chars is_digit acc = true ->
    all_chars is_digit (digits_go fuel n acc) = true.
Proof.
  induction fuel as [|fuel IH]; intros n acc Hacc; cbn [digits_go].
  - cbn. rewrite digit_char_is_digit, Hacc; [reflexivity|].
    apply N.mod_lt. lia.
  - assert (Hd : all_chars is_digit (String (digit_char (n mod 10)) acc) = true).
    { cbn. rewrite digit_char_is_digit, Hacc; [reflexivity|].
      apply N.mod_lt. lia. }
    destruct (n <? 10)%N; [exact Hd|]. apply IH, Hd.
Qed.

Lemma digits_go_length_ge (fuel : nat) (n : N) (acc : string) :
  (S (String.length acc) <= String.length (digits_go fuel n acc))%nat.
Proof.
  revert n acc. induction fuel as [|fuel IH]; intros n acc; cbn [digits_go].
  - cbn. lia.
  - destruct (n <? 10)%N; [cbn; lia|].
    etrans; [|apply IH]. cbn. lia.
Qed.

(** A number below [10^(k+1)] is written with at most [k+1] digits. *)
Lemma digits_go_length_le (fuel : nat) :
  forall (k : nat) (n : N) (acc : string),
    (n < 10 ^ N.of_nat (S k))%N ->
    (String.length (digits_go fuel n acc) <= S k + String.length acc)%nat.
Proof.
  induction fuel as [|fuel IH]; intros k n acc Hn; cbn [digits_go].
  - cbn. lia.
  - destruct (N.ltb_spec n 10) as [Hlt|Hge]; [cbn; lia|].
    destruct k as [|k].
    + change (10 ^ N.of_nat 1)%N with 10%N in Hn. lia.
    + etrans; [apply (IH k)|cbn; lia].
      apply N.Div0.div_lt_upper_bound.
      rewrite <- N.pow_succ_r'. by rewrite <- Nnat.Nat2N.inj_succ.
Qed.

Lemma str_N_all_digits (n : N) : all_chars is_digit (str_N n) = true.
Proof. apply digits_go_all_digits. reflexivity. Qed.

Lemma str_N_length_le (k : nat) (n : N) :
  (n < 10 ^ N.of_nat (S k))%N -> (String.length (str_N n) <= S k)%nat.
Proof.
  intros Hn. unfold str_N.
  etrans; [apply (digits_go_length_le _ k); exact Hn|]. cbn. lia.
Qed.

Lemma str_N_length_ge (n : N) : (1 <= String.length (str_N n))%nat.
Proof. unfold str_N. etrans; [|apply digits_go_length_ge]. cbn. lia. Qed.

(** Padding a string of digits that is not longer than the width. *)
Lemma zfill_digits (width : nat) (s : string) :
  all_chars is_digit s = true ->
  (String.length s <= width)%nat ->
  String.length (zfill width s) = width /\
  all_chars is_digit (zfill width s) = true.
Proof.
  intros Hd Hlen. unfold zfill.
  destruct s as [|c r] eqn:Hs.
  - cbn. rewrite length_repeat_char.
    split; [lia|]. by apply all_chars_repeat_char.
  - rewrite digit_is_no_sign
      by (cbn in Hd; apply andb_true_iff in Hd; tauto).
    rewrite length_app, all_chars_app, length_repeat_char, Hd.
    rewrite all_chars_repeat_char by reflexivity. split; [lia|reflexivity].
Qed.

(** [str(n).zfill(10)] for a draw of [randbelow(10**10)]. *)
Lemma account_number_format (n : Z) :
  0 <= n < 10 ^ 10 ->
  String.length (zfill 10 (str_int n)) = 10%nat /\
  all_chars is_digit (zfill 10 (str_int n)) = true.
Proof.
  intros Hn. unfold str_int.
  destruct (Z.ltb_spec n 0) as [?|_]; [lia|].
  apply zfill_digits; [apply str_N_all_digits|].
  apply (str_N_length_le 9). change (10 ^ N.of_nat 10)%N with (Z.to_N (10 ^ 10)).
  lia.
Qed.

End TextFacts.

(* ===================================================================== *)
(** * Properties of the account-number generator                          *)
(* ===================================================================== *)

Section GeneratorFacts.

Import ATM.

(** [account_exists], whenever the file can be loaded. *)
Lemma account_exists_loadable (number : string) (w : World) :
  loadable w ->
  account_exists number w =
    Return (bool_decide (is_Some (stored (w_file w) number))) w.
Proof.
  intros [doc Hl].
  destruct (load_returns _ _ _ Hl) as (_&top&m&->&Hm&Hfile).
  unfold account_exists. rewrite bind_run, Hl, bind_run, lift_run.
  cbn [getitem]. rewrite Hm. rewrite lift_run. cbn [contains].
  unfold stored. destruct Hfile as [->|(->&_&->)]; [reflexivity|].
  rewrite lookup_empty. reflexivity.
Qed.

Lemma account_exists_unloadable (number : string) (w w' : World) (e : exn) :
  load w = Raise e w' -> account_exists number w = Raise e w'.
Proof. intros Hl. unfold account_exists. by rewrite bind_run, Hl. Qed.

Lemma load_set_randbelow (draws : list Z) (w : World) :
  load (set_randbelow draws w) =
    match load w with
    | Return doc _ => Return doc (set_randbelow draws w)
    | Raise e _ => Raise e (set_randbelow draws w)
    | Stuck s => Stuck s
    end.
Proof.
  rewrite !load_run. cbn.
  destruct (w_file w) as [| |data]; [reflexivity..|].
  destruct data as [| | | |text|items|top]; try reflexivity.
  - destruct (is_substring _ _); reflexivity.
  - destruct (existsb _ _); reflexivity.
  - destruct (top !! "accounts") as [[]|]; reflexivity.
Qed.

(** The loop of the generator, for draws that [randbelow(10**10)] can
    return. *)
Lemma generate_loop_spec (fuel : nat) :
  forall w : World,
    (List.length (w_randbelow w) < fuel)%nat ->
    Forall (fun r => 0 <= r < 10 ^ 10) (w_randbelow w) ->
    match generate_unique_account_number_loop fuel 10 w with
    | Return acc w' =>
        String.length acc = 10%nat /\
        all_chars is_digit acc = true /\
        w_file w' = w_file w /\
        stored (w_file w') acc = None /\
        account_exists acc w' = Return false w'
    | Raise e w' => load w = Raise e w
    | Stuck s =>
        s = SourceExhausted /\
        Forall (fun r => is_Some (stored (w_file w) (zfill 10 (str_int r))))
               (w_randbelow w)
    end.
Proof.
  induction fuel as [|fuel IH]; intros w Hfuel Hdraws; [lia|].
  cbn [generate_unique_account_number_loop]. rewrite bind_run.
  unfold secrets_randbelow. change (10 ^ Z.of_nat 10 <=? 0) with false. cbn iota.
  destruct (w_randbelow w) as [|r rest] eqn:Hr; [by split|].
  apply Forall_cons in Hdraws as [Hr0 Hrest].
  set (w1 := set_randbelow rest w). rewrite bind_run.
  destruct (load w) as [doc w0|e w0|s] eqn:El.
  - apply load_returns in El as El'. destruct El' as (->&_).
    assert (Hl1 : loadable w1).
    { exists doc. unfold w1. by rewrite load_set_randbelow, El. }
    rewrite (account_exists_loadable _ w1 Hl1).
    change (w_file w1) with (w_file w).
    case_bool_decide as Htaken; cbn [negb].
    + specialize (IH w1). cbn in IH, Hfuel.
      destruct (generate_unique_account_number_loop fuel 10 w1)
        as [acc w'|e' w'|s].
      * apply IH; [lia|exact Hrest].
      * exfalso. specialize (IH ltac:(lia) Hrest).
        unfold w1 in IH. rewrite load_set_randbelow, El in IH. discriminate.
      * destruct IH as [-> Hall]; [lia|exact Hrest|].
        split; [reflexivity|]. by apply Forall_cons.
    + destruct (account_number_format r Hr0) as [Hlen Hdig].
      rewrite ret_run. repeat split; try assumption.
      * destruct (stored _ _); [exfalso; eauto|reflexivity].
      * rewrite (account_exists_loadable _ w1 Hl1).
        by rewrite bool_decide_eq_false_2.
  - apply load_raises in El as El'. destruct El' as [-> _].
    rewrite (account_exists_unloadable _ w1 w1 e);
      [reflexivity|]. unfold w1. by rewrite load_set_randbelow, El.
  - by apply load_not_stuck in El.
Qed.

(** C8. For draws as [secrets.randbelow(10**10)] returns them: a string
    that [generate_unique_account_number(digits=10)] returns consists of
    exactly 10 ASCII digits and is not the key of an account in the store
    (which the generator leaves as it is), so that [account_exists] is
    false for it.  The generator raises only when the store cannot be
    loaded, and it goes on drawing, without returning, only as long as every
    number drawn is taken. *)
Theorem generated_account_number (w : World) :
  Forall (fun r => 0 <= r < 10 ^ 10) (w_randbelow w) ->
  match generate_unique_account_number 10 w with
  | Return acc w' =>
      String.length acc = 10%nat /\
      all_chars is_digit acc = true /\
      w_file w' = w_file w /\
      stored (w_file w') acc = None /\
      account_exists acc w' = Return false w'
  | Raise e w' => load w = Raise e w
  | Stuck s =>
      s = SourceExhausted /\
      Forall (fun r => is_Some (stored (w_file w) (zfill 10 (str_int r))))
             (w_randbelow w)
  end.
Proof.
  intros Hdraws. unfold generate_unique_account_number.
  apply generate_loop_spec; [lia|exact Hdraws].
Qed.

Lemma generated_account_number_witness :
  let w := set_randbelow [5] bare_world in
  Forall (fun r => 0 <= r < 10 ^ 10) (w_randbelow w) /\
  generate_unique_account_number 10 w = Return "0000000005" bare_world /\
  String.length "0000000005" = 10%nat /\
  all_chars is_digit "0000000005" = true /\
  stored (w_file bare_world) "0000000005" = None.
Proof.
  intros w.
  assert (Hd : Forall (fun r => 0 <= r < 10 ^ 10) (w_randbelow w))
    by (repeat constructor; cbn; lia).
  assert (Hg : generate_unique_account_number 10 w
               = Return "0000000005" bare_world) by (vm_compute; reflexivity).
  pose proof (generated_account_number w Hd) as Hs. rewrite Hg in Hs.
  split; [exact Hd|]. split; [exact Hg|]. tauto.
Defined.

End GeneratorFacts.

(* ===================================================================== *)
(** * Properties of the session: deposit and withdrawal                   *)
(* ===================================================================== *)

Section SessionFacts.

Import ATM.


Lemma persisted_bound (w : World) (a : Account) : persisted w a -> bound w a.
Proof. unfold persisted, bound. intros ->. eauto. Qed.

Lemma loadable_same_file (w w' : World) :
  w_file w' = w_file w -> loadable w -> loadable w'.
Proof.
  intros Hf [doc Hl]. exists doc. revert Hl. rewrite !load_run, Hf.
  destruct (w_file w) as [| |data]; [by intros [= <-]|discriminate|].
  destruct data as [| | | |text|items|top]; try discriminate.
  - destruct (is_substring _ _); [discriminate|by intros [= <-]].
  - destruct (existsb _ _); [discriminate|by intros [= <-]].
  - destruct (top !! "accounts") as [[]|]; by intros [= <-].
Qed.

Lemma stored_balance_persisted (w : World) (a : Account) :
  persisted w a -> stored_balance w (account_number a) = Some (balance_cents a).
Proof.
  unfold persisted, stored_balance. intros ->. destruct a. reflexivity.
Qed.

(** Writing the record back and reporting, as the deposit and withdrawal
    branches do after a change of the balance. *)
Lemma persist_and_report (a : Account) (message : string) (w : World) :
  loadable w ->
  exists f,
    (upsert_account a;; info message;; show_balance (balance_cents a);;
     mret a) w
    = Return a (add_out [line_out message;
                         line_out ("Текущий баланс: " +:+
                                   format_money (balance_cents a))]
                        (set_file f w)) /\
    stored f (account_number a) = Some (asdict a).
Proof.
  intros Hl. destruct (upsert_account_loadable a w Hl) as [w1 Hu].
  destruct (upsert_account_returns a w w1 Hu) as (_&Hp&_&Hw1&_).
  exists (w_file w1). split; [|exact Hp].
  rewrite bind_run, Hu. rewrite Hw1 at 1.
  unfold info, show_balance, info.
  rewrite bind_run, stdout_run, bind_run, stdout_run, ret_run.
  by rewrite add_out_app.
Qed.

Lemma persist_and_report_fails (a : Account) (message : string) (w w' : World)
    (e : exn) :
  load w = Raise e w' ->
  (upsert_account a;; info message;; show_balance (balance_cents a);;
   mret a) w = Raise e w'.
Proof. intros Hl. by rewrite bind_run, (upsert_account_fails a w w' e Hl). Qed.






End SessionFacts.

(* ===================================================================== *)
(** * Properties of the conversion to minor units                         *)
(* ===================================================================== *)

Section DigitCounts.

(** With fuel for every bit of [n], the digits written say how large [n]
    is. *)
Lemma digits_go_bound (fuel : nat) :
  forall (n : N) (acc : string),
    Z.of_N n < 2 ^ Z.of_nat fuel ->
    Z.of_N n <
      10 ^ (Z.of_nat (String.length (digits_go fuel n acc))
            - Z.of_nat (String.length acc)).
Proof.
  induction fuel as [|fuel IH]; intros n acc Hn; cbn [digits_go].
  - change (2 ^ Z.of_nat 0) with 1 in Hn.
    cbn [String.length]. replace (_ - _) with 1 by lia. lia.
  - destruct (N.ltb_spec n 10) as [Hlt|Hge].
    + cbn [String.length]. replace (_ - _) with 1 by lia. lia.
    + set (acc' := String (digit_char (n mod 10)) acc).
      assert (Hdiv : Z.of_N (n / 10) < 2 ^ Z.of_nat fuel).
      { rewrite Nat2Z.inj_succ, Z.pow_succ_r in Hn by lia.
        rewrite N2Z.inj_div. change (Z.of_N 10) with 10.
        apply Z.div_lt_upper_bound; lia. }
      specialize (IH (n / 10)%N acc' Hdiv).
      pose proof (digits_go_length_ge fuel (n / 10) acc') as Hge'.
      cbn [String.length acc'] in IH, Hge'. fold acc' in IH, Hge'.
      set (L := String.length (digits_go fuel (n / 10) acc')) in *.
      replace (Z.of_nat L - Z.of_nat (String.length acc))
        with (Z.succ (Z.of_nat L - Z.of_nat (S (String.length acc)))) by lia.
      rewrite Z.pow_succ_r by lia.
      rewrite N2Z.inj_div in IH. change (Z.of_N 10) with 10 in IH.
      pose proof (Z.div_mod (Z.of_N n) 10 ltac:(lia)) as Hdm.
      pose proof (Z.mod_pos_bound (Z.of_N n) 10 ltac:(lia)) as Hmod.
      lia.
Qed.

Lemma size_nat_bound (n : N) : Z.of_N n < 2 ^ Z.of_nat (N.size_nat n).
Proof.
  destruct n as [|p]; [reflexivity|].
  cbn [N.size_nat]. change (Z.of_N (N.pos p)) with (Z.pos p).
  by apply Zpower2_Psize.
Qed.

Lemma ndigits_pos (n : N) : 1 <= ndigits n.
Proof. unfold ndigits, len. pose proof (str_N_length_ge n). lia. Qed.

(** [n] is below the power of ten of its number of digits. *)
Lemma lt_pow_ndigits (n : N) : Z.of_N n < 10 ^ ndigits n.
Proof.
  unfold ndigits, len, str_N.
  pose proof (digits_go_bound (N.size_nat n) n EmptyString (size_nat_bound n)) as Hb.
  cbn [String.length] in Hb. by rewrite Z.sub_0_r in Hb.
Qed.

(** A number below [10^k] has at most [k] digits. *)
Lemma ndigits_le (n : N) (k : Z) :
  1 <= k -> Z.of_N n < 10 ^ k -> ndigits n <= k.
Proof.
  intros Hk Hn. unfold ndigits, len.
  pose proof (str_N_length_le (Z.to_nat k - 1) n) as Hle.
  replace (S (Z.to_nat k - 1)) with (Z.to_nat k) in Hle by lia.
  assert (Hn' : (n < 10 ^ N.of_nat (Z.to_nat k))%N).
  { apply N2Z.inj_lt. rewrite N2Z.inj_pow. change (Z.of_N 10) with 10.
    rewrite nat_N_Z, Z2Nat.id by lia. exact Hn. }
  specialize (Hle Hn'). lia.
Qed.

End DigitCounts.

Ltac context_lia :=
  unfold Decimal.adjusted, Decimal.Etop, Decimal.Etiny, Decimal.Emin,
    Decimal.Emax, Decimal.prec in *; lia.

Section Rounding.

Import Decimal.

Lemma pow10_N (k : Z) : 0 <= k -> Z.of_N (10 ^ Z.to_N k) = 10 ^ k.
Proof.
  intros Hk. rewrite N2Z.inj_pow. change (Z.of_N 10) with 10.
  by rewrite Z2N.id.
Qed.

Lemma pow10_pos (k : Z) : 0 <= k -> 0 < 10 ^ k.
Proof. intros Hk. apply Z.pow_pos_nonneg; lia. Qed.

(** The three cases of [round_half_even], in integers. *)
Lemma round_half_even_cases (c : N) (k : Z) :
  0 <= k ->
  let r := Z.of_N (round_half_even c k) in
  let p := 10 ^ k in
  (r = 0 /\ 2 * Z.of_N c < p) \/
  (exists q r0, Z.of_N c = p * q + r0 /\ 0 <= q /\ 0 <= r0 < p /\
     (r = q /\ 2 * r0 < p \/
      r = q + 1 /\ p < 2 * r0 \/
      2 * r0 = p /\ (Z.even q = true /\ r = q \/
                     Z.even q = false /\ r = q + 1))).
Proof.
  intros Hk r p. subst r. unfold round_half_even.
  destruct (Z.ltb_spec (ndigits c) k) as [Hlt|Hge].
  - left. split; [reflexivity|].
    pose proof (lt_pow_ndigits c) as Hc. pose proof (ndigits_pos c) as Hn.
    assert (10 ^ ndigits c <= 10 ^ (k - 1)) by (apply Z.pow_le_mono_r; lia).
    assert (p = 10 * 10 ^ (k - 1)).
    { unfold p. rewrite <- Z.pow_succ_r by lia. f_equal. lia. }
    lia.
  - right. set (P := (10 ^ Z.to_N k)%N).
    assert (HP : Z.of_N P = p) by (apply pow10_N, Hk).
    assert (Hp : 0 < p) by (apply pow10_pos, Hk).
    exists (Z.of_N (c / P)), (Z.of_N (c mod P)).
    assert (HPne : P <> 0%N) by lia.
    pose proof (N.div_mod c P HPne) as Hdm.
    pose proof (N.mod_lt c P HPne) as Hmod.
    set (q := (c / P)%N) in *. set (r0 := (c mod P)%N) in *.
    apply N2Z.inj_lt in Hmod. rewrite HP in Hmod.
    split; [rewrite Hdm at 1; by rewrite N2Z.inj_add, N2Z.inj_mul, HP|].
    split; [lia|]. split; [lia|].
    destruct (N.ltb_spec (2 * r0) P) as [H1|H1]; [left; lia|].
    destruct (N.ltb_spec P (2 * r0)) as [H2|H2]; [right; left; lia|].
    right; right. split; [lia|].
    replace (Z.even (Z.of_N q)) with (N.even q)
      by (destruct q as [|[]]; reflexivity).
    destruct (N.even q); [left|right]; split; try reflexivity; lia.
Qed.

Lemma round_half_even_le (c : N) (k : Z) :
  0 <= k -> Z.of_N (round_half_even c k) <= Z.of_N c.
Proof.
  intros Hk. pose proof (pow10_pos k Hk) as Hp.
  destruct (round_half_even_cases c k Hk)
    as [[-> _]|(q&r0&Hc&Hq&Hr0&Hcase)]; [lia|].
  destruct (Z.eq_dec k 0) as [->|Hk0].
  - change (10 ^ 0) with 1 in *. lia.
  - assert (10 <= 10 ^ k).
    { change 10 with (10 ^ 1) at 1. apply Z.pow_le_mono_r; lia. }
    nia.
Qed.

(** The rounded value is a nearest one, the even one at a tie. *)
Lemma round_half_even_nearest (c : N) (k : Z) :
  0 <= k ->
  let r := Z.of_N (round_half_even c k) in
  2 * Z.abs (r * 10 ^ k - Z.of_N c) <= 10 ^ k /\
  (2 * Z.abs (r * 10 ^ k - Z.of_N c) = 10 ^ k -> Z.even r = true).
Proof.
  intros Hk r. pose proof (pow10_pos k Hk) as Hp.
  destruct (round_half_even_cases c k Hk)
    as [[Hr Hc]|(q&r0&Hc&Hq&Hr0&Hcase)]; fold r in Hr || fold r in Hcase.
  - rewrite Hr. split; [lia|]. intros Heq. exfalso. lia.
  - set (p := 10 ^ k) in *.
    destruct Hcase as [[-> H1]|[[-> H1]|[H1 [[He ->]|[He ->]]]]].
    + split; [nia|]. intros Heq. exfalso. nia.
    + split; [nia|]. intros Heq. exfalso. nia.
    + split; [nia|]. intros _. exact He.
    + split; [nia|]. intros _. rewrite Z.even_add, He. reflexivity.
Qed.

End Rounding.

Section CentsFacts.

Import Decimal ATM.

Lemma ndigits_0 : ndigits 0 = 1.
Proof. reflexivity. Qed.

Lemma N_eqb_0 (c : N) : (c =? 0)%N = false <-> 0 < Z.of_N c.
Proof. destruct (N.eqb_spec c 0); split; intros; first [lia|congruence]. Qed.

Lemma fix_zero (neg : bool) (e : Z) :
  fix_ neg 0 e = Ok (DFinite neg 0 (Z.min (Z.max e Etiny) Emax)).
Proof. reflexivity. Qed.

(** A coefficient that fits the precision, at an exponent in range, is
    kept as it is. *)
Lemma fix_exact (neg : bool) (c : N) (e : Z) :
  0 < Z.of_N c -> ndigits c <= prec -> Etiny <= e ->
  e + ndigits c - 1 <= Emax ->
  fix_ neg c e = Ok (DFinite neg c e).
Proof.
  intros Hc Hn He Hadj. unfold fix_.
  rewrite (proj2 (N_eqb_0 c) Hc).
  destruct (Z.ltb_spec Etop (ndigits c + e - prec)); [context_lia|].
  destruct (Z.ltb_spec e (Z.max (ndigits c + e - prec) Etiny)); [context_lia|].
  reflexivity.
Qed.

(** Below the smallest exponent the coefficient is rounded away. *)
Lemma fix_tiny (neg : bool) (c : N) (e : Z) :
  0 < Z.of_N c -> ndigits c <= prec -> e < Etiny ->
  fix_ neg c e = Ok (DFinite neg (round_half_even c (Etiny - e)) Etiny).
Proof.
  intros Hc Hn He. unfold fix_.
  rewrite (proj2 (N_eqb_0 c) Hc).
  destruct (Z.ltb_spec Etop (ndigits c + e - prec)); [context_lia|].
  replace (Z.max (ndigits c + e - prec) Etiny) with Etiny by context_lia.
  destruct (Z.ltb_spec e Etiny); [|lia].
  set (q := round_half_even c (Etiny - e)).
  assert (Hq : Z.of_N q <= Z.of_N c) by (apply round_half_even_le; lia).
  assert (Hnq : ndigits q <= prec).
  { apply ndigits_le; [context_lia|].
    pose proof (lt_pow_ndigits c).
    assert (10 ^ ndigits c <= 10 ^ prec)
      by (apply Z.pow_le_mono_r; [lia|exact Hn]).
    lia. }
  destruct (Z.ltb_spec prec (ndigits q)); [lia|]. reflexivity.
Qed.

(** [quantize] to whole units, of a zero. *)
Lemma quantize_unit_zero (neg : bool) (e : Z) (s : bool) :
  quantize (DFinite neg 0 e) (DFinite s 1 0) = Ok (DFinite neg 0 0).
Proof. reflexivity. Qed.

(** [quantize] to whole units, of a value without decimal places. *)
Lemma quantize_unit_whole (neg s : bool) (c : N) (e : Z) :
  0 < Z.of_N c -> 0 <= e -> ndigits c + e <= prec ->
  quantize (DFinite neg c e) (DFinite s 1 0)
    = Ok (DFinite neg (c * 10 ^ Z.to_N e) 0).
Proof.
  intros Hc He Hn. unfold quantize.
  change (negb ((Etiny <=? 0) && (0 <=? Emax))) with false. cbn iota.
  rewrite (proj2 (N_eqb_0 c) Hc).
  destruct (Z.ltb_spec Emax (adjusted c e)); [context_lia|].
  destruct (Z.ltb_spec prec (adjusted c e - 0 + 1)); [context_lia|].
  destruct (Z.leb_spec 0 e); [|lia]. rewrite Z.sub_0_r.
  set (c' := (c * 10 ^ Z.to_N e)%N).
  assert (Hc' : Z.of_N c' = Z.of_N c * 10 ^ e).
  { unfold c'. by rewrite N2Z.inj_mul, pow10_N. }
  pose proof (pow10_pos e He) as Hp.
  assert (Hpos : 0 < Z.of_N c') by nia.
  assert (Hn' : ndigits c' <= prec).
  { apply ndigits_le; [context_lia|]. rewrite Hc'.
    pose proof (lt_pow_ndigits c) as Hlt. pose proof (ndigits_pos c).
    assert (10 ^ ndigits c * 10 ^ e <= 10 ^ prec).
    { rewrite <- Z.pow_add_r by lia. apply Z.pow_le_mono_r; lia. }
    nia. }
  destruct (Z.ltb_spec Emax (adjusted c' 0)); [context_lia|].
  destruct (Z.ltb_spec prec (ndigits c')); [lia|].
  apply fix_exact; [exact Hpos|exact Hn'|context_lia|context_lia].
Qed.

(** [quantize] to whole units, of a value with decimal places. *)
Lemma quantize_unit_round (neg s : bool) (c : N) (e : Z) :
  0 < Z.of_N c -> e < 0 -> ndigits c <= prec ->
  quantize (DFinite neg c e) (DFinite s 1 0)
    = Ok (DFinite neg (round_half_even c (- e)) 0).
Proof.
  intros Hc He Hn. unfold quantize.
  change (negb ((Etiny <=? 0) && (0 <=? Emax))) with false. cbn iota.
  rewrite (proj2 (N_eqb_0 c) Hc).
  destruct (Z.ltb_spec Emax (adjusted c e)); [context_lia|].
  destruct (Z.ltb_spec prec (adjusted c e - 0 + 1)); [context_lia|].
  destruct (Z.leb_spec 0 e); [lia|]. rewrite Z.sub_0_l.
  set (c' := round_half_even c (- e)).
  assert (Hle : Z.of_N c' <= Z.of_N c) by (apply round_half_even_le; lia).
  assert (Hn' : ndigits c' <= prec).
  { apply ndigits_le; [context_lia|].
    pose proof (lt_pow_ndigits c).
    assert (10 ^ ndigits c <= 10 ^ prec)
      by (apply Z.pow_le_mono_r; [lia|exact Hn]).
    lia. }
  destruct (Z.ltb_spec Emax (adjusted c' 0)); [context_lia|].
  destruct (Z.ltb_spec prec (ndigits c')); [lia|].
  destruct (N.eq_dec c' 0) as [->|Hne]; [reflexivity|].
  apply fix_exact; [lia|exact Hn'|context_lia|context_lia].
Qed.

Lemma to_cents_run (neg : bool) (c : N) (e : Z) :
  to_cents (DFinite neg c e) =
    match fix_ neg (c * 100) e with
    | Ok p =>
        match quantize p (DFinite false 1 0) with
        | Ok q => to_int q
        | Err x => Err x
        end
    | Err x => Err x
    end.
Proof.
  unfold to_cents. change (of_string "1") with (Ok (DFinite false 1 0)).
  change (of_int 100) with (DFinite false 100 0). cbn [mul].
  rewrite xorb_false_r, Z.add_0_r.
  destruct (fix_ neg (c * 100) e) as [p|x]; [|reflexivity].
  cbn. destruct (quantize p (DFinite false 1 0)); reflexivity.
Qed.

Lemma to_int_whole (neg : bool) (c : N) :
  to_int (DFinite neg c 0) = Ok (if neg then - Z.of_N c else Z.of_N c).
Proof.
  cbn. change (10 ^ Z.to_N 0)%N with 1%N. by rewrite N.mul_1_r.
Qed.

(** The conversion of an accepted amount that the precision can hold: a
    non-negative amount [c * 10^e] whose digits before the decimal point,
    together with the two of the minor unit, fit into the 28 digits of the
    context. *)
Lemma to_cents_nearest (neg : bool) (c : N) (e : Z) :
  neg && negb (c =? 0)%N = false ->
  Z.of_N c * 10 ^ Z.max e 0 < 10 ^ 26 ->
  exists cents, to_cents (DFinite neg c e) = Ok cents /\ nearest_cents cents c e.
Proof.
  intros Hsign Hbound. rewrite to_cents_run. unfold nearest_cents. cbn zeta.
  destruct (N.eq_dec c 0) as [->|Hc].
  - (* a zero, of either sign *)
    exists 0. split.
    + rewrite N.mul_0_l, fix_zero, quantize_unit_zero, to_int_whole.
      by destruct neg.
    + pose proof (pow10_pos (Z.max (- e) 0) ltac:(lia)).
      replace (0 * 10 ^ Z.max (- e) 0 - 100 * Z.of_N 0 * 10 ^ Z.max e 0)
        with 0 by lia.
      cbn [Z.abs]. split; [lia|]. split; [lia|]. reflexivity.
  - assert (Hneg : neg = false).
    { destruct neg; [|reflexivity]. cbn in Hsign.
      apply negb_false_iff, N.eqb_eq in Hsign. contradiction. }
    subst neg.
    assert (Hc0 : 0 < Z.of_N c) by lia.
    assert (Hc100 : Z.of_N (c * 100) = 100 * Z.of_N c) by lia.
    assert (Hpos100 : 0 < Z.of_N (c * 100)) by lia.
    destruct (Z.le_gt_cases 0 e) as [He|He].
    + (* no decimal places *)
      rewrite Z.max_l in Hbound by lia.
      rewrite (Z.max_r (- e) 0), (Z.max_l e 0) by lia.
      pose proof (pow10_pos e He) as Hp.
      assert (He26 : e < 26).
      { destruct (Z.le_gt_cases 26 e) as [Hge|]; [|assumption].
        assert (10 ^ 26 <= 10 ^ e) by (apply Z.pow_le_mono_r; lia). nia. }
      assert (Hn : ndigits (c * 100) + e <= prec).
      { assert (ndigits (c * 100) <= 28 - e); [|context_lia].
        apply ndigits_le; [lia|]. rewrite Hc100.
        assert (10 ^ 26 = 10 ^ e * 10 ^ (26 - e)).
        { rewrite <- Z.pow_add_r by lia. f_equal. lia. }
        assert (10 ^ (28 - e) = 100 * 10 ^ (26 - e)).
        { replace (28 - e) with (2 + (26 - e)) by lia.
          rewrite Z.pow_add_r by lia. reflexivity. }
        pose proof (pow10_pos (26 - e) ltac:(lia)). nia. }
      pose proof (ndigits_pos (c * 100)).
      rewrite fix_exact by (try assumption; context_lia).
      rewrite quantize_unit_whole by assumption.
      rewrite to_int_whole.
      eexists. split; [reflexivity|].
      rewrite N2Z.inj_mul, pow10_N, Hc100 by lia.
      change (10 ^ 0) with 1. rewrite Z.mul_1_r.
      replace (_ - _) with 0 by lia. cbn [Z.abs].
      split; [nia|]. split; [lia|]. intros; lia.
    + (* decimal places *)
      rewrite Z.max_r in Hbound by lia.
      rewrite (Z.max_l (- e) 0), (Z.max_r e 0) by lia.
      change (10 ^ 0) with 1 in *. rewrite Z.mul_1_r in *.
      assert (Hn : ndigits (c * 100) <= prec).
      { apply ndigits_le; [context_lia|]. rewrite Hc100.
        change (10 ^ prec) with (100 * 10 ^ 26). lia. }
      pose proof (ndigits_pos (c * 100)).
      destruct (Z.le_gt_cases Etiny e) as [Het|Het].
      * rewrite fix_exact by (try assumption; context_lia).
        rewrite quantize_unit_round by assumption.
        rewrite to_int_whole. eexists. split; [reflexivity|].
        destruct (round_half_even_nearest (c * 100) (- e) ltac:(lia))
          as [Hnear Htie].
        rewrite Hc100 in Hnear, Htie.
        split; [lia|]. split; [exact Hnear|exact Htie].
      * rewrite fix_tiny by assumption.
        set (q := round_half_even (c * 100) (Etiny - e)).
        assert (Hq : Z.of_N q <= Z.of_N (c * 100))
          by (apply round_half_even_le; lia).
        assert (Hnq : ndigits q <= prec).
        { apply ndigits_le; [context_lia|].
          pose proof (lt_pow_ndigits (c * 100)).
          assert (10 ^ ndigits (c * 100) <= 10 ^ prec)
            by (apply Z.pow_le_mono_r; [lia|exact Hn]).
          lia. }
        assert (Hzero : exists s, quantize (DFinite false q Etiny)
                          (DFinite false 1 0) = Ok (DFinite s 0 0)).
        { destruct (N.eq_dec q 0) as [->|Hq0].
          - eexists. apply quantize_unit_zero.
          - exists false.
            rewrite quantize_unit_round by (try assumption; context_lia).
            unfold round_half_even.
            destruct (Z.ltb_spec (ndigits q) (- Etiny)); [reflexivity|].
            context_lia. }
        destruct Hzero as [s ->]. rewrite to_int_whole.
        exists 0. split; [by destruct s|].
        rewrite Z.mul_0_l, Z.sub_0_l, Z.abs_opp, Z.abs_eq by lia.
        assert (10 ^ 29 <= 10 ^ (- e))
          by (apply Z.pow_le_mono_r; context_lia).
        change (10 ^ 29) with (1000 * 10 ^ 26) in *.
        pose proof (pow10_pos 26 ltac:(lia)).
        split; [lia|]. split; [lia|]. intros; lia.
Qed.

(** Whatever the amount: the number of minor units of an amount that is
    not below zero is not below zero. *)
Lemma fix_sign (neg : bool) (c : N) (e : Z) (d : decimal) :
  fix_ neg c e = Ok d ->
  exists c' e', d = DFinite neg c' e' /\ (c = 0%N -> c' = 0%N).
Proof.
  unfold fix_. destruct (N.eqb_spec c 0) as [->|Hc].
  - intros [= <-]. eauto.
  - repeat match goal with
           | |- context [if ?b then _ else _] => destruct b
           end; try discriminate; intros [= <-]; eexists _, _;
      (split; [reflexivity|intros; contradiction]).
Qed.

Lemma to_cents_nonneg (d : decimal) (cents : Z) :
  is_nan d || is_infinite d = false ->
  lt_zero d = Ok false ->
  to_cents d = Ok cents ->
  0 <= cents.
Proof.
  destruct d as [neg c e| |]; [|discriminate..].
  intros _ [= Hsign]. rewrite to_cents_run.
  destruct (fix_ neg (c * 100) e) as [p|] eqn:Ef; [|discriminate].
  apply fix_sign in Ef as (c1&e1&->&Hz1).
  unfold quantize.
  change (negb ((Etiny <=? 0) && (0 <=? Emax))) with false. cbn iota.
  assert (Hq : forall c2 q, fix_ neg c2 0 = Ok q -> (c1 = 0%N -> c2 = 0%N) ->
               to_int q = Ok cents -> 0 <= cents).
  { intros c2 q Ef2 Hz2 Hi. apply fix_sign in Ef2 as (c3&e3&->&Hz3).
    destruct neg.
    - cbn in Hsign. apply negb_false_iff, N.eqb_eq in Hsign. subst c.
      rewrite (Hz3 (Hz2 (Hz1 eq_refl))) in Hi.
      cbn in Hi. rewrite N.mul_0_l in Hi.
      destruct (0 <=? e3), (ndigits 0 <? - e3); cbn in Hi; injection Hi; lia.
    - cbn in Hi.
      repeat match type of Hi with
             | context [if ?b then _ else _] => destruct b
             end; injection Hi as <-; first [apply N2Z.is_nonneg|lia]. }
  destruct (c1 =? 0)%N eqn:Hc1.
  - destruct (fix_ neg 0 0) as [q|] eqn:Ef2; [|discriminate].
    intros Hi. eapply (Hq 0%N q Ef2); [auto|exact Hi].
  - apply N.eqb_neq in Hc1.
    repeat match goal with
           | |- context [if ?b then _ else _] => destruct b
           end; try discriminate.
    all: match goal with
         | |- context [fix_ _ ?c2 0] =>
             destruct (fix_ neg c2 0) as [q|] eqn:Ef2; [|discriminate];
             intros Hi; eapply (Hq c2 q Ef2); [intros; contradiction|exact Hi]
         end.
Qed.

End CentsFacts.

(* ===================================================================== *)
(** * The balance invariant                                               *)
(* ===================================================================== *)

Section InvariantFacts.

Import Decimal ATM.

Lemma ask_money_amount_loop_nonneg (prompt : string) (fuel : nat) :
  forall (w w' : World) (d : Z),
    ask_money_amount_loop fuel prompt w = Return d w' -> 0 <= d.
Proof.
  induction fuel as [|fuel IH]; intros w w' d; cbn [ask_money_amount_loop];
    [discriminate|].
  rewrite bind_run. destruct (stdin prompt w) as [line w1|e w1|s];
    [|discriminate..].
  destruct (of_string _) as [d0|e] eqn:Ed.
  - destruct (is_nan d0 || is_infinite d0) eqn:Hs;
      [rewrite error_then; apply IH|].
    rewrite bind_run, lift_run.
    destruct (lt_zero d0) as [[|]|e] eqn:El;
      [rewrite error_then; apply IH| |discriminate].
    rewrite lift_run. destruct (to_cents d0) as [c|e] eqn:Ec; [|discriminate].
    intros [= <- <-]. eapply to_cents_nonneg; eauto.
  - destruct (_ || _); [rewrite error_then; apply IH|discriminate].
Qed.

(** An amount that [ask_money_amount] returns is not negative. *)
Lemma ask_money_amount_nonneg (prompt : string) (w w' : World) (d : Z) :
  ask_money_amount prompt w = Return d w' -> 0 <= d.
Proof. apply ask_money_amount_loop_nonneg. Qed.

Lemma persisted_same_file (w w' : World) (a : Account) :
  w_file w' = w_file w -> persisted w a -> persisted w' a.
Proof. unfold persisted. by intros ->. Qed.

(** The steps that write the new record and report: the outcome carries the
    invariant for the new record, and a failure leaves the file alone. *)
Lemma persist_and_report_invariant (a : Account) (message : string)
    (w : World) :
  0 <= balance_cents a ->
  match (upsert_account a;; info message;; show_balance (balance_cents a);;
         mret a) w with
  | Return a' w' => a' = a /\ balance_invariant w' a
  | Raise _ w' => w_file w' = w_file w
  | Stuck _ => False
  end.
Proof.
  intros Hbal. destruct (load w) as [doc w1|e w1|s] eqn:El.
  - apply load_returns in El as El'. destruct El' as (->&_).
    destruct (persist_and_report a message w) as (f&->&Hst); [by eexists|].
    split; [reflexivity|]. split; [exact Hbal|exact Hst].
  - apply load_raises in El as El'. destruct El' as (->&_).
    by rewrite (persist_and_report_fails a message w w e El).
  - by apply load_not_stuck in El.
Qed.

End InvariantFacts.

(* ===================================================================== *)
(** * The controller treats the console well                              *)
(* ===================================================================== *)

Create HintDb well discriminated.

(** Take a sequence apart, and settle each call by a known fact. *)
Ltac well :=
  repeat first
    [ lazymatch goal with
      | |- runs_well _ (mbind _ _) =>
          apply bind_runs_well; [apply _| |intros ?]
      | |- runs_well _ (mret _) => apply ret_runs_well, _
      | |- runs_well _ (if ?b then _ else _) => destruct b
      | |- runs_well _ (match ?x with _ => _ end) => destruct x
      end
    | solve [auto with well] ].

Section ControllerWell.

Import ATM.

Lemma console_runs_any {A} (m : M A) :
  runs_well console_only m -> runs_well any_change m.
Proof. apply runs_well_weaken. by intros. Qed.

Lemma console_reads_any {A} (m : M A) :
  reads_well console_only m -> reads_well any_change m.
Proof.
  intros Hm w. destruct (Hm w) as [Hw Hlt]. split; [|exact Hlt].
  eapply ends_well_weaken; [|exact Hw]. by intros.
Qed.

Lemma stdout_any (message : string) : runs_well any_change (stdout message).
Proof. apply console_runs_any, stdout_runs_well. Qed.

Lemma info_any (message : string) : runs_well any_change (info message).
Proof. apply stdout_any. Qed.

Lemma warn_any (message : string) : runs_well any_change (warn message).
Proof. apply stdout_any. Qed.

Lemma error_any (message : string) : runs_well any_change (error message).
Proof. apply stdout_any. Qed.

Lemma show_balance_any (b : Z) : runs_well any_change (show_balance b).
Proof. apply stdout_any. Qed.

Lemma show_title_any : runs_well any_change show_title.
Proof. apply console_runs_any, show_title_runs_well. Qed.

Lemma show_account_created_any (number : string) :
  runs_well any_change (show_account_created number).
Proof. apply console_runs_any, show_account_created_runs_well. Qed.

Lemma pause_any (message : string) : runs_well any_change (pause message).
Proof. apply console_runs_any, pause_runs_well. Qed.

Lemma ask_text_any (prompt : string) (min_len : Z) :
  runs_well any_change (ask_text prompt min_len).
Proof. apply console_runs_any, reads_runs_well, ask_text_reads_well. Qed.

Lemma ask_digits_any (prompt : string) (min_len : Z) (max_len : option Z) :
  runs_well any_change (ask_digits prompt min_len max_len).
Proof. apply console_runs_any, reads_runs_well, ask_digits_reads_well. Qed.

Lemma ask_pin_create_any : runs_well any_change ask_pin_create.
Proof. apply console_runs_any, reads_runs_well, ask_pin_create_reads_well. Qed.

Lemma ask_pin_login_any : runs_well any_change ask_pin_login.
Proof. apply console_runs_any, reads_runs_well, ask_pin_login_reads_well. Qed.

Lemma ask_money_amount_any (prompt : string) :
  runs_well any_change (ask_money_amount prompt).
Proof. apply console_runs_any, reads_runs_well, ask_money_amount_reads_well. Qed.

Lemma load_any : runs_well any_change load.
Proof. eapply runs_well_weaken; [|apply load_runs_well]. by intros. Qed.

Lemma lift_any {A} (r : res A) :
  r <> Err EOFError -> runs_well any_change (lift r).
Proof. apply lift_runs_well, _. Qed.

Lemma contains_no_eof (x : json) (key : string) :
  contains x key <> Err EOFError.
Proof. destruct x; discriminate. Qed.

Lemma getitem_no_eof (x : json) (key : string) :
  getitem x key <> Err EOFError.
Proof. destruct x; try discriminate. cbn. destruct (_ !! _); discriminate. Qed.

Lemma fromhex_no_eof (s : string) : fromhex s <> Err EOFError.
Proof.
  assert (H : forall (n : nat) (t : string),
             (String.length t <= n)%nat -> fromhex t <> Err EOFError).
  { induction n as [|n IH]; intros [|c r] Hlen; try discriminate;
      cbn in Hlen; [lia|].
    cbn [fromhex]. destruct (is_hex_space c); [apply IH; lia|].
    destruct r as [|c2 r2]; [discriminate|].
    destruct (hex_val c), (hex_val c2); try discriminate.
    destruct (Byte.of_N _); [|discriminate].
    specialize (IH r2 ltac:(cbn in Hlen; lia)).
    destruct (fromhex r2); [discriminate|exact IH]. }
  by apply (H (String.length s)).
Qed.

End ControllerWell.

#[global] Hint Resolve stdout_any info_any warn_any error_any show_balance_any
  show_title_any show_account_created_any pause_any ask_text_any
  ask_digits_any ask_pin_create_any ask_pin_login_any ask_money_amount_any
  load_any lift_any contains_no_eof getitem_no_eof fromhex_no_eof
  upsert_account_runs_well : well.

Section StorageWell.

Import ATM.

Lemma raise_any {A} (e : exn) :
  e <> EOFError -> runs_well any_change (raise e : M A).
Proof.
  intros He w. cbn. unfold any_change. repeat split; [lia|].
  by rewrite bool_decide_eq_false_2.
Qed.

Lemma stop_any {A} (s : stuck) :
  s <> FuelExhausted -> runs_well any_change (stop s : M A).
Proof. intros Hs w. exact Hs. Qed.

Lemma Account_of_kwargs_any (raw : json) :
  runs_well any_change (Account_of_kwargs raw).
Proof.
  unfold Account_of_kwargs.
  destruct raw; try (by apply raise_any).
  destruct (negb _); [by apply raise_any|].
  repeat match goal with
         | |- context [match ?x with _ => _ end] => destruct x
         end;
    first [by apply raise_any|by apply stop_any|apply ret_runs_well, _].
Qed.

Lemma get_account_any (number : string) :
  runs_well any_change (get_account number).
Proof.
  unfold get_account. pose proof Account_of_kwargs_any. pose proof @raise_any.
  well; by apply raise_any.
Qed.

Lemma has_any_accounts_any : runs_well any_change has_any_accounts.
Proof. unfold has_any_accounts. well. Qed.

Lemma account_exists_any (number : string) :
  runs_well any_change (account_exists number).
Proof. unfold account_exists. well. Qed.

Lemma secrets_randbelow_any (n : Z) : runs_well any_change (secrets_randbelow n).
Proof.
  intros w. unfold secrets_randbelow.
  destruct (n <=? 0); [by apply raise_any|].
  destruct (w_randbelow w); [discriminate|]. cbn. unfold any_change. auto.
Qed.

Lemma secrets_token_bytes_any (n : nat) :
  runs_well any_change (secrets_token_bytes n).
Proof.
  intros w. unfold secrets_token_bytes.
  destruct (w_token_bytes w); [discriminate|]. cbn. unfold any_change. auto.
Qed.

Lemma datetime_now_iso_any : runs_well any_change datetime_now_iso.
Proof.
  intros w. unfold datetime_now_iso.
  destruct (w_now w); [discriminate|]. cbn. unfold any_change. auto.
Qed.

(** The generator never uses up its fuel: every round takes a draw. *)
Lemma generate_loop_any (digits : nat) (fuel : nat) :
  forall w, (List.length (w_randbelow w) < fuel)%nat ->
    ends_well any_change w (generate_unique_account_number_loop fuel digits w).
Proof.
  induction fuel as [|fuel IH]; intros w Hfuel; [lia|].
  cbn [generate_unique_account_number_loop].
  apply bind_ends_well; [apply _|apply secrets_randbelow_any|].
  intros r w1 Hr. unfold secrets_randbelow in Hr.
  destruct (_ <=? 0); [discriminate|].
  destruct (w_randbelow w) as [|r0 rest] eqn:Hd; [discriminate|].
  injection Hr as <- <-.
  apply bind_ends_well; [apply _|apply account_exists_any|].
  intros taken w2 Ht.
  assert (Hw2 : w2 = set_randbelow rest w).
  { unfold account_exists in Ht. rewrite bind_run in Ht.
    destruct (load _) as [doc w3| |] eqn:El; [|discriminate..].
    apply load_returns in El as [-> _].
    rewrite bind_run, lift_run in Ht.
    destruct (getitem doc "accounts"); [|discriminate].
    rewrite lift_run in Ht. destruct (contains _ _); [|discriminate].
    by injection Ht. }
  subst w2. destruct (negb taken); [apply ends_well_ret, _|].
  apply IH. cbn in *. lia.
Qed.

Lemma generate_unique_account_number_any (digits : nat) :
  runs_well any_change (generate_unique_account_number digits).
Proof. intros w. apply generate_loop_any. lia. Qed.

End StorageWell.

#[global] Hint Resolve get_account_any has_any_accounts_any account_exists_any
  secrets_randbelow_any secrets_token_bytes_any datetime_now_iso_any
  generate_unique_account_number_any Account_of_kwargs_any : well.

Section FlowsWell.

Import ATM.
Context `{Sha256}.

Lemma make_pin_record_any (pin : string) :
  runs_well any_change (_make_pin_record pin).
Proof. unfold _make_pin_record. well. Qed.

Lemma verify_pin_any (pin salt_hex hash_hex : string) :
  runs_well any_change (_verify_pin pin salt_hex hash_hex).
Proof. unfold _verify_pin. well. Qed.

Lemma flow_create_account_record_any :
  runs_well any_change flow_create_account_record.
Proof.
  unfold flow_create_account_record. pose proof make_pin_record_any. well.
Qed.

Lemma flow_create_account_deposit_any (account : Account) :
  runs_well any_change (flow_create_account_deposit account).
Proof. unfold flow_create_account_deposit. well. Qed.

Lemma flow_create_account_any : runs_well any_change flow_create_account.
Proof.
  unfold flow_create_account.
  pose proof flow_create_account_record_any.
  pose proof flow_create_account_deposit_any. well.
Qed.

Lemma flow_login_any : runs_well any_change flow_login.
Proof. unfold flow_login. pose proof verify_pin_any. well. Qed.

Lemma session_deposit_any (account : Account) :
  runs_well any_change (session_deposit account).
Proof. unfold session_deposit. well. Qed.

Lemma session_withdraw_any (account : Account) :
  runs_well any_change (session_withdraw account).
Proof. unfold session_withdraw. well. Qed.

(** A round of the session takes at least the line of the menu. *)
Lemma session_round_reads (account : Account) :
  reads_well any_change (session_round account).
Proof.
  unfold session_round.
  apply reads_then_runs_well;
    [apply _|apply console_reads_any, menu_main_reads_well|].
  intros choice.
  pose proof session_deposit_any. pose proof session_withdraw_any. well.
Qed.

Lemma flow_session_loop_any (fuel : nat) :
  forall (account : Account) (w : World),
    (List.length (w_stdin w) < fuel)%nat ->
    ends_well any_change w (flow_session_loop fuel account w).
Proof.
  induction fuel as [|fuel IH]; intros account w Hfuel; [lia|].
  cbn [flow_session_loop].
  destruct (session_round_reads account w) as [Hw Hlt].
  apply bind_ends_well; [apply _|exact Hw|].
  intros [account' again] w1 Hr. rewrite Hr in Hlt.
  destruct again; [apply IH; lia|apply ends_well_ret, _].
Qed.

Lemma flow_session_any (account : Account) :
  runs_well any_change (flow_session account).
Proof.
  intros w. unfold flow_session, with_input_fuel.
  apply flow_session_loop_any. unfold input_fuel. lia.
Qed.

Lemma run_round_reads : reads_well any_change run_round.
Proof.
  unfold run_round.
  apply reads_then_runs_well;
    [apply _|apply console_reads_any, menu_startup_reads_well|].
  intros choice.
  pose proof flow_create_account_any. pose proof flow_login_any.
  pose proof flow_session_any. well.
Qed.

Lemma run_loop_any (fuel : nat) :
  forall w : World,
    (List.length (w_stdin w) < fuel)%nat ->
    ends_well any_change w (run_loop fuel w).
Proof.
  induction fuel as [|fuel IH]; intros w Hfuel; [lia|].
  cbn [run_loop].
  destruct (run_round_reads w) as [Hw Hlt].
  apply bind_ends_well; [apply _|exact Hw|].
  intros again w1 Hr. rewrite Hr in Hlt.
  destruct again; [apply IH; lia|apply ends_well_ret, _].
Qed.

(** The whole program: the pending input only shrinks, the loops never use
    up their fuel, and the end-of-input mark that [stdin] sets when it
    raises EOFError is set at the end exactly when the run ends with
    EOFError. *)
Lemma run_any : runs_well any_change run.
Proof.
  unfold run.
  pose proof flow_create_account_any. pose proof flow_session_any.
  assert (runs_well any_change (with_input_fuel run_loop)).
  { intros w. apply run_loop_any. unfold input_fuel. lia. }
  well.
Qed.

End FlowsWell.

(* ===================================================================== *)
(** * End of input                                                        *)
(* ===================================================================== *)

Section EndOfInput.

Import ATM.

Lemma app_assoc_string (s t u : string) : (s +:+ t) +:+ u = s +:+ (t +:+ u).
Proof.
  induction s as [|c s IH]; [reflexivity|].
  rewrite !app_cons. by rewrite IH.
Qed.

Lemma endswith_app (s t : string) : endswith (s +:+ t) t = true.
Proof.
  induction s as [|c s IH].
  - rewrite app_empty_l. destruct t; cbn; by rewrite ?Ascii.eqb_refl, ?String.eqb_refl.
  - rewrite app_cons. cbn [endswith]. rewrite IH. apply orb_true_r.
Qed.

Lemma drop_last_app (s : string) (c : ascii) :
  drop_last (s +:+ String c EmptyString) = s.
Proof.
  induction s as [|a s IH]; [reflexivity|].
  rewrite app_cons. cbn [drop_last]. rewrite IH.
  destruct s; reflexivity.
Qed.

(** One LF is removed, and one CR before it. *)
Lemma chomp_lf (s : string) :
  chomp (s +:+ nl) =
    if endswith s (String CR EmptyString) then drop_last s else s.
Proof.
  unfold chomp. rewrite endswith_app.
  change (s +:+ nl) with (s +:+ String LF EmptyString).
  by rewrite drop_last_app.
Qed.

(** The line end CR LF is removed. *)
Lemma chomp_crlf (s : string) : chomp (s +:+ String CR nl) = s.
Proof.
  change (String CR nl) with (String CR EmptyString +:+ nl).
  rewrite <- app_assoc_string, chomp_lf, endswith_app. apply drop_last_app.
Qed.

(** A line that does not end in LF is returned as it is. *)
Lemma chomp_no_lf (s : string) : endswith s nl = false -> chomp s = s.
Proof. unfold chomp. by intros ->. Qed.

Lemma well_not_caught {A} (m : M A) : runs_well any_change m -> eof_not_caught m.
Proof.
  intros Hm w Hw. specialize (Hm w).
  destruct (m w) as [a w'|e w'|s]; cbn in Hm.
  - destruct Hm as (_&_&->). exact Hw.
  - destruct Hm as (_&_&->). rewrite Hw.
    case_bool_decide; split; congruence.
  - exact Hm.
Qed.

(** C9. [stdin] raises EOFError exactly when [readline()] returns the empty
    string, and then sets the end-of-input mark; on any other line it
    raises nothing and returns the line without its line end: one trailing
    LF is removed, together with one CR that stands immediately before it,
    and a line without a trailing LF is returned as it is.  Nothing in the
    ATM catches the error: the programme [run], and each of its flows, ends
    with EOFError whenever [stdin] has raised it. *)
Theorem stdin_raises_at_end_of_input `{Sha256} :
  (forall (prompt : string) (w : World),
     exists w1,
       sys_stdin_readline (add_out (prompt_out prompt) w)
         = Return (next_line w) w1 /\
       if String.eqb (next_line w) EmptyString
       then stdin prompt w = Raise EOFError (mark_eof w1)
       else stdin prompt w = Return (chomp (next_line w)) w1
            /\ w_eof_seen w1 = w_eof_seen w) /\
  (forall s : string, chomp (s +:+ String CR nl) = s) /\
  (forall s : string,
     chomp (s +:+ nl) =
       if endswith s (String CR EmptyString) then drop_last s else s) /\
  (forall s : string, endswith s nl = false -> chomp s = s) /\
  eof_not_caught run /\
  eof_not_caught flow_create_account /\
  eof_not_caught flow_login /\
  (forall account, eof_not_caught (flow_session account)).
Proof.
  split; [|split; [|split; [|split; [|split; [|split; [|split]]]]]].
  - intros prompt w. rewrite stdin_run. cbn zeta.
    unfold sys_stdin_readline, next_line.
    change (w_stdin (add_out (prompt_out prompt) w)) with (w_stdin w).
    destruct (w_stdin w) as [|line rest].
    + eexists. split; [reflexivity|]. reflexivity.
    + eexists. split; [reflexivity|].
      destruct (String.eqb line EmptyString); [reflexivity|].
      split; reflexivity.
  - apply chomp_crlf.
  - apply chomp_lf.
  - apply chomp_no_lf.
  - apply well_not_caught, run_any.
  - apply well_not_caught, flow_create_account_any.
  - apply well_not_caught, flow_login_any.
  - intros account. apply well_not_caught, flow_session_any.
Qed.

End EndOfInput.

(* ===================================================================== *)
(** * The balance is never negative                                       *)
(* ===================================================================== *)

Section BalanceInvariant.

Import ATM.

Lemma console_invariant (w w' : World) (a : Account) :
  console_only w w' -> balance_invariant w a -> balance_invariant w' a.
Proof.
  intros (Hf&_) [Hb Hp]. split; [exact Hb|].
  by apply (persisted_same_file w w').
Qed.

Lemma invariant_stored_balance (w : World) (a : Account) :
  balance_invariant w a ->
  stored_balance w (account_number a) = Some (balance_cents a) /\
  0 <= balance_cents a.
Proof. intros [Hb Hp]. split; [by apply stored_balance_persisted|exact Hb]. Qed.

(** A step on the console, then the rest. *)
Lemma keeps_after_console {A B} (m : M A) (k : A -> M B)
    (account_of : B -> Account) (a : Account) (w : World) :
  runs_well console_only m ->
  balance_invariant w a ->
  (forall x w1, m w = Return x w1 -> balance_invariant w1 a ->
     keeps_invariant (account_number a) account_of (k x w1)) ->
  keeps_invariant (account_number a) account_of ((m ≫= k) w).
Proof.
  intros Hm Hinv Hk. rewrite bind_run. specialize (Hm w).
  destruct (m w) as [x w1|e w1|s]; cbn in Hm.
  - destruct Hm as (Hc&_). apply Hk; [reflexivity|].
    by apply (console_invariant w).
  - destruct Hm as (Hc&_). exists a. split; [reflexivity|].
    by apply (console_invariant w).
  - exact Hm.
Qed.

Lemma keeps_ret {A} (account_of : A -> Account) (x : A) (w : World) :
  balance_invariant w (account_of x) ->
  keeps_invariant (account_number (account_of x)) account_of (Return x w).
Proof. intros Hinv. split; [reflexivity|exact Hinv]. Qed.

(** Writing back a record with a balance that is not negative. *)
Lemma keeps_persist_and_report (a a' : Account) (message : string) (w : World) :
  balance_invariant w a ->
  account_number a' = account_number a ->
  0 <= balance_cents a' ->
  keeps_invariant (account_number a) id
    ((upsert_account a';; info message;; show_balance (balance_cents a');;
      mret a') w).
Proof.
  intros Hinv Hnum Hbal.
  pose proof (persist_and_report_invariant a' message w Hbal) as Hrun.
  destruct ((upsert_account a';; info message;;
             show_balance (balance_cents a');; mret a') w)
    as [x w'|e w'|s]; cbn.
  - destruct Hrun as [-> Hinv']. by split.
  - exists a. split; [reflexivity|].
    destruct Hinv as [Hb Hp]. split; [exact Hb|].
    by apply (persisted_same_file w w').
  - contradiction.
Qed.

Lemma session_deposit_keeps (a : Account) (w : World) :
  balance_invariant w a ->
  keeps_invariant (account_number a) id (session_deposit a w).
Proof.
  intros Hinv. unfold session_deposit.
  apply keeps_after_console;
    [apply reads_runs_well, ask_money_amount_reads_well|exact Hinv|].
  intros amount w1 Ha Hinv1. apply ask_money_amount_nonneg in Ha.
  destruct (Z.leb_spec amount 0).
  - rewrite error_then, ret_run. apply (keeps_ret id).
    eapply console_invariant; [|exact Hinv1]. console_same.
  - apply keeps_persist_and_report; [exact Hinv1|reflexivity|].
    destruct Hinv as [Hb _]. cbn. lia.
Qed.

Lemma flow_create_account_deposit_keeps (a : Account) (w : World) :
  balance_invariant w a ->
  keeps_invariant (account_number a) id (flow_create_account_deposit a w).
Proof.
  intros Hinv. unfold flow_create_account_deposit.
  apply keeps_after_console;
    [apply reads_runs_well, ask_money_amount_reads_well|exact Hinv|].
  intros amount w1 Ha Hinv1. apply ask_money_amount_nonneg in Ha.
  destruct (Z.ltb_spec 0 amount).
  - apply keeps_persist_and_report; [exact Hinv1|reflexivity|].
    destruct Hinv as [Hb _]. cbn. lia.
  - unfold info, show_balance, info.
    rewrite bind_run, stdout_run, bind_run, stdout_run, ret_run.
    apply (keeps_ret id).
    eapply console_invariant; [|exact Hinv1]. console_same.
Qed.

Lemma session_withdraw_keeps (a : Account) (w : World) :
  balance_invariant w a ->
  keeps_invariant (account_number a) id (session_withdraw a w).
Proof.
  intros Hinv. unfold session_withdraw.
  apply keeps_after_console;
    [apply reads_runs_well, ask_money_amount_reads_well|exact Hinv|].
  intros amount w1 Ha Hinv1. apply ask_money_amount_nonneg in Ha.
  destruct (Z.leb_spec amount 0).
  - rewrite error_then, ret_run. apply (keeps_ret id).
    eapply console_invariant; [|exact Hinv1]. console_same.
  - destruct (Z.ltb_spec (balance_cents a) amount).
    + unfold error, show_balance, info.
      rewrite bind_run, stdout_run, bind_run, stdout_run, ret_run.
      apply (keeps_ret id).
      eapply console_invariant; [|exact Hinv1]. console_same.
    + apply keeps_persist_and_report; [exact Hinv1|reflexivity|].
      cbn. lia.
Qed.

Lemma keeps_map {A} (number : string) (pack : Account -> A)
    (account_of : A -> Account) (m : M Account) (w : World) :
  (forall a, account_of (pack a) = a) ->
  keeps_invariant number id (m w) ->
  keeps_invariant number account_of ((a ← m; mret (pack a)) w).
Proof.
  intros Hpack Hm. rewrite bind_run.
  destruct (m w) as [a w'|e w'|s]; [|exact Hm..].
  rewrite ret_run. cbn in *. by rewrite Hpack.
Qed.

Lemma session_round_keeps (a : Account) (w : World) :
  balance_invariant w a ->
  keeps_invariant (account_number a) fst (session_round a w).
Proof.
  intros Hinv. unfold session_round.
  apply keeps_after_console;
    [apply reads_runs_well, menu_main_reads_well|exact Hinv|].
  intros choice w1 _ Hinv1.
  destruct (String.eqb choice "1").
  { apply (keeps_map _ (fun a => (a, true))); [reflexivity|].
    by apply session_deposit_keeps. }
  destruct (String.eqb choice "2").
  { apply (keeps_map _ (fun a => (a, true))); [reflexivity|].
    by apply session_withdraw_keeps. }
  assert (Hout : forall (message : string) (again : bool),
    keeps_invariant (account_number a) fst
      ((stdout message;; mret (a, again)) w1)).
  { intros message again. rewrite bind_run, stdout_run, ret_run.
    apply (keeps_ret (A := Account * bool) fst (a, again)).
    eapply console_invariant; [|exact Hinv1]. console_same. }
  destruct (String.eqb choice "3"); [apply Hout|].
  destruct (String.eqb choice "0"); apply Hout.
Qed.

Lemma flow_session_loop_keeps (fuel : nat) :
  forall (a : Account) (w : World),
    (List.length (w_stdin w) < fuel)%nat ->
    balance_invariant w a ->
    keeps_invariant (account_number a) id (flow_session_loop fuel a w).
Proof.
  induction fuel as [|fuel IH]; intros a w Hfuel Hinv; [lia|].
  cbn [flow_session_loop]. rewrite bind_run.
  pose proof (session_round_keeps a w Hinv) as Hr.
  destruct (session_round_reads a w) as [_ Hlt].
  destruct (session_round a w) as [[a' again] w1|e w1|s]; [|exact Hr..].
  cbn in Hr. destruct Hr as [Hnum Hinv1]. rewrite <- Hnum.
  destruct again; [apply IH; [lia|exact Hinv1]|].
  by apply (keeps_ret id).
Qed.

Lemma flow_session_keeps (a : Account) (w : World) :
  balance_invariant w a ->
  keeps_invariant (account_number a) id (flow_session a w).
Proof.
  intros Hinv. unfold flow_session, with_input_fuel.
  apply flow_session_loop_keeps; [unfold input_fuel; lia|exact Hinv].
Qed.

End BalanceInvariant.

(** From [(m ≫= k) w = Return ..] to the outcome of [m] and the rest. *)
Tactic Notation "bind_return" hyp(H) ident(x) ident(w') ident(E) :=
  rewrite bind_run in H;
  lazymatch type of H with
  | match ?m ?w with _ => _ end = _ =>
      destruct (m w) as [x w'| |] eqn:E; [|discriminate H..]
  end.

Section CreationInvariant.

Import ATM.
Context `{Sha256}.

(** Account creation writes the new record with balance 0. *)
Lemma flow_create_account_record_invariant (w w' : World) (a : Account) :
  flow_create_account_record w = Return a w' ->
  balance_cents a = 0 /\ balance_invariant w' a.
Proof.
  unfold flow_create_account_record. intros Hrun.
  bind_return Hrun u1 w1 E1. bind_return Hrun u2 w2 E2.
  bind_return Hrun name w3 E3. bind_return Hrun surname w4 E4.
  bind_return Hrun id_number w5 E5. bind_return Hrun number w6 E6.
  bind_return Hrun pin w7 E7. bind_return Hrun record w8 E8.
  destruct record as [salt_hex hash_hex].
  bind_return Hrun created w9 E9. bind_return Hrun u3 w10 E10.
  bind_return Hrun u4 w11 E11.
  rewrite ret_run in Hrun. injection Hrun as <- <-.
  split; [reflexivity|]. split; [cbn; lia|].
  destruct u3. apply upsert_account_returns in E10 as (_&Hp&_).
  pose proof (show_account_created_runs_well number w10) as Hs.
  rewrite E11 in Hs. destruct Hs as ((Hf&_)&_).
  by apply (persisted_same_file w10).
Qed.

(** C3. Account creation persists the new record with balance 0, which
    establishes the invariant of the bound account: the balance in memory is
    not negative and the store holds the very same record, so the persisted
    balance is the same non-negative number.  The initial deposit, every
    round of the session (deposit, withdrawal, show balance, exit, unknown
    choice) and hence the whole session keep the invariant; when one of
    them ends with an exception, the record that the store holds still has
    a balance that is not negative. *)
Theorem balance_never_negative :
  (forall (w w' : World) (a : Account),
     flow_create_account_record w = Return a w' ->
     balance_cents a = 0 /\ balance_invariant w' a) /\
  (forall (w : World) (a : Account),
     balance_invariant w a ->
     stored_balance w (account_number a) = Some (balance_cents a) /\
     0 <= balance_cents a) /\
  (forall (w : World) (a : Account),
     balance_invariant w a ->
     keeps_invariant (account_number a) id (flow_create_account_deposit a w) /\
     keeps_invariant (account_number a) id (session_deposit a w) /\
     keeps_invariant (account_number a) id (session_withdraw a w) /\
     keeps_invariant (account_number a) fst (session_round a w) /\
     keeps_invariant (account_number a) id (flow_session a w)).
Proof.
  split; [|split].
  - apply flow_create_account_record_invariant.
  - apply invariant_stored_balance.
  - intros w a Hinv. repeat split.
    + by apply flow_create_account_deposit_keeps.
    + by apply session_deposit_keeps.
    + by apply session_withdraw_keeps.
    + by apply session_round_keeps.
    + by apply flow_session_keeps.
Qed.

End CreationInvariant.

(* ===================================================================== *)
(** * The currency prompt                                                 *)
(* ===================================================================== *)

Section CurrencyPrompt.

Import Decimal ATM.










(** One round of the prompt, for a line that is not the end of input. *)
Lemma ask_money_amount_round (prompt line : string) (rest : list string)
    (w : World) :
  String.eqb line EmptyString = false ->
  ask_money_amount prompt (set_stdin (line :: rest) w) =
    let w1 := set_stdin rest (add_out (prompt_out prompt) w) in
    let retry message :=
      ask_money_amount prompt
        (add_out [line_out ("[Ошибка] " +:+ message)] w1) in
    match of_string (replace_char comma point (strip (chomp line))) with
    | Err _ => retry "Введите корректное число (например: 100 или 100.50)."
    | Ok d =>
        if is_nan d || is_infinite d then retry "Некорректное значение суммы."
        else
          match lt_zero d with
          | Ok true => retry "Сумма не может быть отрицательной."
          | Ok false => lift (to_cents d) w1
          | Err e => Raise e w1
          end
    end.
Proof.
  intros Hline. unfold ask_money_amount at 1, with_input_fuel, input_fuel.
  cbn [w_stdin set_stdin List.length ask_money_amount_loop].
  rewrite bind_run, stdin_run. cbn [w_stdin set_stdin]. cbn zeta. rewrite Hline.
  change (set_stdin rest (add_out (prompt_out prompt) (set_stdin (line :: rest) w)))
    with (set_stdin rest (add_out (prompt_out prompt) w)).
  destruct (of_string _) as [d|e] eqn:Ed.
  - destruct (is_nan d || is_infinite d); [reflexivity|].
    rewrite bind_run, lift_run.
    destruct (lt_zero d) as [[|]|e]; reflexivity.
  - apply of_string_err in Ed as ->. reflexivity.
Qed.





End CurrencyPrompt.

(* ===================================================================== *)
(** * The properties on the sample data                                   *)
(* ===================================================================== *)

Section Examples.

Import ATM.

Lemma balance_never_negative_witness :
  let w := set_stdin [entered "1"; entered "5.00"; entered "2"; entered "2.00";
                      entered "0"]
             (set_file sample_store bare_world) in
  balance_invariant w sample_account /\
  stored_balance w "0000000001" = Some 100 /\
  keeps_invariant "0000000001" id (flow_session sample_account w) /\
  exists w',
    flow_session sample_account w = Return (set_balance sample_account 400) w' /\
    stored_balance w' "0000000001" = Some 400.
Proof.
  intros w.
  assert (Hinv : balance_invariant w sample_account).
  { split; [cbn; lia|vm_compute; reflexivity]. }
  destruct (balance_never_negative (H := fun data => data))
    as (_&Hstored&Hkeeps).
  destruct (Hkeeps w sample_account Hinv) as (_&_&_&_&Hsession).
  split; [exact Hinv|]. split; [exact (proj1 (Hstored w sample_account Hinv))|].
  split; [exact Hsession|].
  eexists. split; vm_compute; reflexivity.
Defined.

Lemma stdin_raises_at_end_of_input_witness :
  let digest : Sha256 := fun data => data in
  w_eof_seen bare_world = false /\
  endswith "hello" nl = false /\ chomp "hello" = "hello" /\
  exists w', run bare_world = Raise EOFError w' /\ w_eof_seen w' = true.
Proof.
  intros digest.
  destruct (stdin_raises_at_end_of_input (H := digest))
    as (_&_&_&Hplain&Hrun&_).
  assert (Hw : w_eof_seen bare_world = false) by reflexivity.
  assert (Hs : endswith "hello" nl = false) by reflexivity.
  split; [exact Hw|]. split; [exact Hs|]. split; [exact (Hplain "hello" Hs)|].
  specialize (Hrun bare_world Hw).
  assert (E : exists w', run bare_world = Raise EOFError w')
    by (eexists; vm_compute; reflexivity).
  destruct E as [w' E]. rewrite E in Hrun. exists w'.
  split; [exact E|]. by apply Hrun.
Defined.

(** Scenario of the test suite: first run on a fresh store; the account of
    Kirill Momotov is created with PIN 1234 and an initial deposit of
    "10.00"; then the balance is shown and the session is left.  The store
    holds a balance of 1000 minor units and the balance is displayed as
    "10.00". *)
Example first_run_creates_account_and_deposits :
  let digest : Sha256 := fun data => data in
  let w :=
    mkWorld [entered ""; entered "Kirill"; entered "Momotov"; entered "ID123";
             entered "1234"; entered "1234"; entered "10.00"; entered "3";
             entered "0"]
            [] NoFile [123; 456; 789] [repeat Byte.x00 16]
            ["2025-01-01T00:00:00+00:00"] false in
  exists w',
    run w = Return tt w' /\
    stored_balance w' "0000000123" = Some 1000 /\
    In (line_out "Ваш номер счёта: 0000000123") (w_stdout w') /\
    In (line_out "Текущий баланс: 10.00") (w_stdout w').
Proof.
  intros digest w. eexists. split; [vm_compute; reflexivity|].
  split; [vm_compute; reflexivity|].
  split; cbn; repeat (first [left; reflexivity|right]).
Qed.

(** Scenario of the test suite: log-in with a wrong PIN.  No session is
    bound (the start-up menu follows at once), the error line is shown, and
    the store is left as it was. *)
Example login_with_wrong_pin :
  let digest : Sha256 := fun data => data in
  let w := set_stdin [entered "2"; entered "0000000001"; entered "9999";
                      entered "0"]
             (set_file sample_store bare_world) in
  exists w',
    run w = Return tt w' /\
    w_file w' = sample_store /\
    In (line_out "[Ошибка] Неверный PIN.") (w_stdout w') /\
    w_stdin w' = [].
Proof.
  intros digest w. eexists. split; [vm_compute; reflexivity|].
  split; [reflexivity|].
  split; [cbn; repeat (first [left; reflexivity|right])|reflexivity].
Qed.

End Examples.

(* ===================================================================== *)
(** * Further properties of the account store                           *)
(* ===================================================================== *)

Section StoreOperations.

Import ATM.

(** The accounts mapping that the operations of the store work on, when the
    file can be loaded. *)
Lemma loaded_accounts (w : World) :
  loadable w ->
  exists top m,
    load w = Return (JObj top) w /\ top !! "accounts" = Some (JObj m) /\
    (forall number, stored (w_file w) number = m !! number) /\
    (accounts_of (w_file w) = Some m \/
     accounts_of (w_file w) = None /\ JObj top = empty_doc /\ m = ∅).
Proof.
  intros [doc Hl]. destruct (load_returns _ _ _ Hl) as (_&top&m&->&Hm&Hfile).
  exists top, m. split; [exact Hl|]. split; [exact Hm|]. split; [|exact Hfile].
  intros number. unfold stored.
  destruct Hfile as [->|(->&_&->)]; [reflexivity|by rewrite lookup_empty].
Qed.

Lemma unloadable (w : World) :
  ~ loadable w -> exists e, load w = Raise e w.
Proof.
  intros Hn. destruct (load w) as [doc w1|e w1|s] eqn:El.
  - apply load_returns in El as El'. destruct El' as [-> _].
    exfalso. apply Hn. by exists doc.
  - apply load_raises in El as El'. destruct El' as [-> _]. by exists e.
  - by apply load_not_stuck in El.
Qed.

(** [Account_of_kwargs] does not depend on the world. *)
Lemma Account_of_kwargs_at (raw : json) (w w0 : World) :
  Account_of_kwargs raw w = at_world (Account_of_kwargs raw w0) w.
Proof.
  unfold Account_of_kwargs. destruct raw; try reflexivity.
  destruct (negb _); [reflexivity|].
  repeat match goal with
         | |- context [match ?x with _ => _ end] =>
             lazymatch x with
             | _ !! _ => destruct x
             | as_str _ => destruct x
             | as_int _ => destruct x
             end
         end; reflexivity.
Qed.

(** [get_account], by what the store holds under the number. *)
Lemma get_account_loadable (number : string) (w : World) :
  loadable w ->
  get_account number w =
    match stored (w_file w) number with
    | None => Return None w
    | Some raw =>
        if truthy raw then (a ← Account_of_kwargs raw; mret (Some a)) w
        else Return None w
    end.
Proof.
  intros Hl. destruct (loaded_accounts w Hl) as (top&m&El&Hm&Hst&_).
  unfold get_account. rewrite bind_run, El, bind_run, lift_run.
  cbn [getitem]. rewrite Hm, Hst.
  destruct (m !! number) as [raw|]; [|reflexivity].
  by destruct (truthy raw).
Qed.

Lemma get_account_unloadable (number : string) (w w' : World) (e : exn) :
  load w = Raise e w' -> get_account number w = Raise e w'.
Proof. intros Hl. unfold get_account. by rewrite bind_run, Hl. Qed.

Lemma has_any_accounts_loadable (w : World) (m : gmap string json) :
  loadable w ->
  (forall number, stored (w_file w) number = m !! number) ->
  has_any_accounts w = Return (negb (bool_decide (m = ∅))) w.
Proof.
  intros Hl Hst. destruct (loaded_accounts w Hl) as (top&m'&El&Hm&Hst'&_).
  assert (m' = m) as -> by (apply map_eq; intros k; by rewrite <- Hst, Hst').
  unfold has_any_accounts. rewrite bind_run, El, bind_run, lift_run.
  cbn [getitem]. by rewrite Hm.
Qed.

(** X1. Writing one account leaves the others alone: for every other
    number, [get_account] and [account_exists] end after
    [upsert_account a] as they did before it. *)
Theorem upsert_account_keeps_other_accounts (a : Account) (number : string)
    (w w' : World) :
  upsert_account a w = Return tt w' ->
  number <> account_number a ->
  get_account number w' = at_world (get_account number w) w' /\
  account_exists number w' = at_world (account_exists number w) w'.
Proof.
  intros Hu Hne.
  destruct (upsert_account_returns a w w' Hu) as (Hl&_&Hl'&_&Hother).
  assert (Hst : stored (w_file w') number = stored (w_file w) number)
    by (rewrite (Hother number Hne); reflexivity).
  split.
  - rewrite (get_account_loadable number w' Hl'),
      (get_account_loadable number w Hl), Hst.
    destruct (stored (w_file w) number) as [raw|]; [|reflexivity].
    destruct (truthy raw); [|reflexivity].
    rewrite !bind_run, (Account_of_kwargs_at raw w' w).
    by destruct (Account_of_kwargs raw w).
  - by rewrite (account_exists_loadable number w' Hl'),
      (account_exists_loadable number w Hl), Hst.
Qed.

Lemma upsert_account_keeps_other_accounts_witness :
  let w := set_file sample_store bare_world in
  let w' := set_file (JsonText (JObj {["accounts" :=
              JObj (<["0000000002" := asdict other_account]>
                    {["0000000001" := asdict sample_account]})]})) bare_world in
  upsert_account other_account w = Return tt w' /\
  "0000000001" <> account_number other_account /\
  get_account "0000000001" w' = Return (Some sample_account) w' /\
  account_exists "0000000001" w' = Return true w'.
Proof.
  intros w w'.
  assert (Hu : upsert_account other_account w = Return tt w')
    by (vm_compute; reflexivity).
  assert (Hne : "0000000001" <> account_number other_account) by discriminate.
  split; [exact Hu|]. split; [exact Hne|].
  exact (upsert_account_keeps_other_accounts other_account "0000000001" w w'
           Hu Hne).
Defined.

(** X2. [has_any_accounts] agrees with [account_exists]: it returns [True]
    exactly when [account_exists] returns [True] for some number.  So the
    first-run branch of [run] is taken exactly when the store knows no
    number at all. *)
Theorem has_any_accounts_iff_account_exists (w : World) :
  has_any_accounts w = Return true w <->
  exists number, account_exists number w = Return true w.
Proof.
  destruct (load w) as [doc w1|e w1|s] eqn:El.
  - apply load_returns in El as El'. destruct El' as [-> _].
    assert (Hl : loadable w) by (by exists doc).
    destruct (loaded_accounts w Hl) as (top&m&_&_&Hst&_).
    rewrite (has_any_accounts_loadable w m Hl Hst). split.
    + intros [= Hne]. apply negb_true_iff, bool_decide_eq_false in Hne.
      apply map_choose in Hne as (number&raw&Hraw). exists number.
      rewrite (account_exists_loadable number w Hl), Hst, Hraw.
      by rewrite bool_decide_eq_true_2.
    + intros (number&Hex).
      rewrite (account_exists_loadable number w Hl), Hst in Hex.
      injection Hex as Hex. apply bool_decide_eq_true in Hex as [raw Hraw].
      f_equal. apply negb_true_iff, bool_decide_eq_false.
      intros ->. by rewrite lookup_empty in Hraw.
  - unfold has_any_accounts. rewrite bind_run, El. split; [discriminate|].
    intros (number&Hex). by rewrite (account_exists_unloadable _ _ _ _ El) in Hex.
  - by apply load_not_stuck in El.
Qed.

(** X3. After [upsert_account a] the store knows the account:
    [account_exists] returns [True] for its number and [has_any_accounts]
    returns [True]. *)
Theorem upserted_account_exists (a : Account) (w w' : World) :
  upsert_account a w = Return tt w' ->
  account_exists (account_number a) w' = Return true w' /\
  has_any_accounts w' = Return true w'.
Proof.
  intros Hu. destruct (upsert_account_returns a w w' Hu) as (_&Hp&Hl'&_).
  assert (Hex : account_exists (account_number a) w' = Return true w').
  { rewrite (account_exists_loadable _ w' Hl'), Hp.
    by rewrite bool_decide_eq_true_2. }
  split; [exact Hex|].
  destruct (loaded_accounts w' Hl') as (top&m&_&_&Hst&_).
  rewrite (has_any_accounts_loadable w' m Hl' Hst). f_equal.
  apply negb_true_iff, bool_decide_eq_false. intros ->.
  specialize (Hst (account_number a)). by rewrite Hp, lookup_empty in Hst.
Qed.

Lemma upserted_account_exists_witness :
  let w' := set_file (JsonText (single_account_doc sample_account)) bare_world in
  upsert_account sample_account bare_world = Return tt w' /\
  account_exists "0000000001" w' = Return true w' /\
  has_any_accounts w' = Return true w'.
Proof.
  intros w'.
  assert (Hu : upsert_account sample_account bare_world = Return tt w')
    by (vm_compute; reflexivity).
  split; [exact Hu|].
  exact (upserted_account_exists sample_account bare_world w' Hu).
Defined.

Lemma stored_loadable (w : World) (number : string) (raw : json) :
  stored (w_file w) number = Some raw -> loadable w.
Proof.
  unfold stored. intros Hst.
  destruct (accounts_of (w_file w)) as [m|] eqn:Hm; [|discriminate].
  destruct (load_shaped w m Hm) as (top&_&_&El). by eexists.
Qed.



(** X5. The fields with a default may be missing from a stored record: a
    record that lacks [balance_cents] and [created_at] is read with the
    balance 0 and the empty creation time. *)
Theorem get_account_applies_defaults (a : Account) (number : string)
    (w : World) :
  stored (w_file w) number
    = Some (without_field "balance_cents"
              (without_field "created_at" (asdict a))) ->
  get_account number w =
    Return (Some (mkAccount (account_number a) (name a) (surname a)
                            (id_number a) (pin_salt_hex a) (pin_hash_hex a)
                            0 EmptyString)) w.
Proof.
  intros Hst. rewrite (get_account_loadable number w (stored_loadable _ _ _ Hst)).
  rewrite Hst. destruct a. vm_compute. reflexivity.
Qed.

Lemma get_account_applies_defaults_witness :
  let raw := without_field "balance_cents"
               (without_field "created_at" (asdict sample_account)) in
  let w := set_file (JsonText (JObj {["accounts" :=
             JObj {["0000000001" := raw]}]})) bare_world in
  stored (w_file w) "0000000001" = Some raw /\
  get_account "0000000001" w =
    Return (Some (mkAccount "0000000001" "A" "B" "ID" "00" "11" 0 EmptyString)) w.
Proof.
  intros raw w.
  assert (Hst : stored (w_file w) "0000000001" = Some raw)
    by (vm_compute; reflexivity).
  split; [exact Hst|].
  exact (get_account_applies_defaults sample_account "0000000001" w Hst).
Defined.

(** X6. A stored record that lacks one of the six fields without a
    default, or has a field that [Account] does not have, makes
    [get_account] raise TypeError. *)
Theorem get_account_rejects_malformed_record (a : Account)
    (number field : string) (v : json) (w : World) :
  (In field required_fields /\
   stored (w_file w) number = Some (without_field field (asdict a))) \/
  (~ In field field_names /\
   stored (w_file w) number = Some (with_field field v (asdict a))) ->
  get_account number w = Raise TypeError w.
Proof.
  intros [[Hf Hst]|[Hf Hst]];
    rewrite (get_account_loadable number w (stored_loadable _ _ _ Hst)), Hst.
  - destruct a. cbn in Hf.
    destruct Hf as [<-|[<-|[<-|[<-|[<-|[<-|[]]]]]]]; vm_compute; reflexivity.
  - unfold with_field, asdict. cbn [truthy].
    rewrite bool_decide_eq_false_2; cbn [negb].
    2:{ intros Hm. apply (f_equal (fun m => m !! field)) in Hm.
        by rewrite lookup_insert_eq, lookup_empty in Hm. }
    rewrite bind_run. unfold Account_of_kwargs.
    match goal with
    | |- context [forallb ?p ?l] =>
        assert (Hall : forallb p l = false)
    end.
    { apply not_true_iff_false. intros Hall.
      rewrite forallb_forall in Hall.
      specialize (Hall (field, v)). cbn [fst] in Hall.
      rewrite <- list_elem_of_In, elem_of_map_to_list, lookup_insert_eq in Hall.
      specialize (Hall eq_refl).
      apply existsb_exists in Hall as (f&Hin&Heq).
      apply String.eqb_eq in Heq. subst f. contradiction. }
    rewrite Hall. reflexivity.
Qed.

Lemma get_account_rejects_malformed_record_witness :
  let raw := without_field "pin_hash_hex" (asdict sample_account) in
  let w := set_file (JsonText (JObj {["accounts" :=
             JObj {["0000000001" := raw]}]})) bare_world in
  In "pin_hash_hex" required_fields /\
  stored (w_file w) "0000000001" = Some raw /\
  get_account "0000000001" w = Raise TypeError w.
Proof.
  intros raw w.
  assert (Hf : In "pin_hash_hex" required_fields) by (cbn; tauto).
  assert (Hst : stored (w_file w) "0000000001" = Some raw)
    by (vm_compute; reflexivity).
  split; [exact Hf|]. split; [exact Hst|].
  exact (get_account_rejects_malformed_record sample_account "0000000001"
           "pin_hash_hex" JNull w (or_introl (conj Hf Hst))).
Defined.



End StoreOperations.

(* ===================================================================== *)
(** * Further properties of the PIN helpers                             *)
(* ===================================================================== *)

Section PinDigests.

Import ATM.
Context `{Sha256}.

Lemma bytes_eqb_eq (a b : bytes) : bytes_eqb a b = true <-> a = b.
Proof.
  revert b. induction a as [|x a IH]; intros [|y b]; cbn; try (split; congruence).
  rewrite andb_true_iff, IH. split.
  - intros [Hx ->]. apply Byte.byte_dec_bl in Hx. by subst.
  - intros [= -> ->]. split; [by apply Byte.byte_dec_lb|reflexivity].
Qed.

Lemma verify_pin_hex_digest (pin : string) (salt digest : bytes) (w : World) :
  _verify_pin pin (hex salt) (hex digest) w
    = Return (compare_digest (_hash_pin pin salt) digest) w.
Proof.
  unfold _verify_pin. rewrite bind_run, lift_run, fromhex_hex.
  by rewrite bind_run, lift_run, fromhex_hex.
Qed.

(** X8. Against the record that [_make_pin_record pin] has made with the
    salt drawn from the random source, [_verify_pin] accepts a PIN exactly
    when its digest with that salt is the digest of [pin]: the right PIN is
    accepted, and another one only if the hash function maps both to the
    same digest. *)
Theorem verify_pin_compares_digests (pin pin' : string) (salt : bytes)
    (rest : list bytes) (w w'' : World) :
  w_token_bytes w = salt :: rest ->
  exists (salt_hex hash_hex : string) (accepted : bool),
    _make_pin_record pin w
      = Return (salt_hex, hash_hex) (set_token_bytes rest w) /\
    _verify_pin pin' salt_hex hash_hex w'' = Return accepted w'' /\
    ((accepted = true) <->
     (sha256_digest (salt ++ encode_utf8 pin')
        = sha256_digest (salt ++ encode_utf8 pin))).
Proof.
  intros Hsalt. exists (hex salt), (hex (_hash_pin pin salt)). eexists.
  split; [|split].
  - unfold _make_pin_record. rewrite bind_run. unfold secrets_token_bytes.
    by rewrite Hsalt.
  - apply verify_pin_hex_digest.
  - apply bytes_eqb_eq.
Qed.

(** A text with a character that is neither white space nor a hex digit is
    no hex text. *)
Lemma fromhex_no_hex (s : string) :
  any_char is_no_hex s = true -> fromhex s = Err ValueError.
Proof.
  assert (Hgen : forall (n : nat) (t : string),
             (String.length t <= n)%nat ->
             any_char is_no_hex t = true -> fromhex t = Err ValueError).
  { induction n as [|n IH]; intros [|c r] Hlen Hbad; try discriminate;
      cbn in Hlen; [lia|].
    cbn [fromhex any_char] in *. unfold is_no_hex in Hbad at 1.
    destruct (is_hex_space c) eqn:Hsp.
    - apply IH; [lia|]. destruct (hex_val c); cbn in Hbad; [exact Hbad|].
      exact Hbad.
    - destruct r as [|c2 r2]; [reflexivity|].
      destruct (hex_val c) as [h|] eqn:Hh; [|reflexivity].
      cbn [negb orb any_char] in Hbad. unfold is_no_hex in Hbad at 1.
      destruct (hex_val c2) as [l|] eqn:Hl; [|reflexivity].
      cbn [orb] in Hbad.
      destruct (Byte.of_N _); [|reflexivity].
      rewrite (IH r2); [reflexivity|cbn in Hlen; lia|exact Hbad]. }
  by apply (Hgen (String.length s)).
Qed.

(** A single hex digit left over at the end is no hex text either. *)
Lemma fromhex_odd (b : bytes) (c : ascii) :
  is_hex_space c = false -> fromhex (hex b +:+ String c EmptyString) = Err ValueError.
Proof.
  intros Hc. induction b as [|x r IH].
  - cbn [hex]. rewrite app_empty_l. cbn [fromhex]. by rewrite Hc.
  - cbn [hex]. rewrite !app_cons. cbn [fromhex].
    destruct (hex_byte_decodes x) as (Hs&Hh&Hl&Hb). cbn zeta in *.
    by rewrite Hs, Hh, Hl, Hb, IH.
Qed.

(** X9. A stored salt or hash that is no hex text makes [_verify_pin]
    raise ValueError: a text with a character that is neither a hex digit
    nor white space, and a text with a single digit left over at its
    end. *)
Theorem verify_pin_malformed_hex_raises (pin salt_hex hash_hex : string)
    (w : World) :
  any_char is_no_hex salt_hex = true \/
  (exists b c, is_hex_space c = false /\
               salt_hex = hex b +:+ String c EmptyString) \/
  (exists salt, salt_hex = hex salt) /\
  (any_char is_no_hex hash_hex = true \/
   exists b c, is_hex_space c = false /\
               hash_hex = hex b +:+ String c EmptyString) ->
  _verify_pin pin salt_hex hash_hex w = Raise ValueError w.
Proof.
  unfold _verify_pin. rewrite bind_run, lift_run.
  intros [Hbad|[(b&c&Hc&->)|[[salt ->] Hhash]]].
  - by rewrite fromhex_no_hex.
  - by rewrite fromhex_odd.
  - rewrite fromhex_hex, bind_run, lift_run.
    destruct Hhash as [Hbad|(b&c&Hc&->)].
    + by rewrite fromhex_no_hex.
    + by rewrite fromhex_odd.
Qed.

End PinDigests.

Section PinDigestExamples.

Import ATM.

Lemma verify_pin_compares_digests_witness :
  let digest : Sha256 := fun data => data in
  let w := set_token_bytes [repeat Byte.x00 16] bare_world in
  w_token_bytes w = [repeat Byte.x00 16] /\
  exists salt_hex hash_hex,
    _make_pin_record "1234" w = Return (salt_hex, hash_hex) bare_world /\
    _verify_pin "4321" salt_hex hash_hex bare_world = Return false bare_world.
Proof.
  intros digest w.
  assert (Hs : w_token_bytes w = [repeat Byte.x00 16]) by reflexivity.
  split; [exact Hs|].
  destruct (verify_pin_compares_digests (H := digest) "1234" "4321"
              (repeat Byte.x00 16) [] w bare_world Hs)
    as (salt_hex&hash_hex&accepted&Hm&Hv&Hiff).
  exists salt_hex, hash_hex. split; [exact Hm|].
  rewrite Hv. f_equal. destruct accepted; [|reflexivity].
  destruct Hiff as [Hd _]. specialize (Hd eq_refl). discriminate Hd.
Defined.

Lemma verify_pin_malformed_hex_raises_witness :
  let digest : Sha256 := fun data => data in
  any_char is_no_hex "0g" = true /\
  _verify_pin "1234" "0g" "00" bare_world = Raise ValueError bare_world.
Proof.
  intros digest.
  assert (Hbad : any_char is_no_hex "0g" = true) by reflexivity.
  split; [exact Hbad|].
  exact (verify_pin_malformed_hex_raises (H := digest) "1234" "0g" "00"
           bare_world (or_introl Hbad)).
Defined.

End PinDigestExamples.

(* ===================================================================== *)
(** * What the prompts return                                           *)
(* ===================================================================== *)

Section StripFacts.

Lemma app_empty_r (s : string) : s +:+ EmptyString = s.
Proof. induction s as [|c s IH]; [reflexivity|]. by rewrite app_cons, IH. Qed.

Lemma all_chars_impl (p q : ascii -> bool) (s : string) :
  (forall c, p c = true -> q c = true) ->
  all_chars p s = true -> all_chars q s = true.
Proof.
  intros Hpq. induction s as [|c s IH]; [reflexivity|]. cbn.
  rewrite !andb_true_iff. intros [Hc Hs]. auto.
Qed.

(** ** [strip] *)





Lemma lstrip_fixed (s : string) :
  match s with
  | EmptyString => True
  | String c _ => is_space c = false
  end -> lstrip s = s.
Proof. destruct s as [|c r]; [trivial|]. cbn. by intros ->. Qed.


Lemma rstrip_clean (s : string) :
  all_chars (fun c => negb (is_space c)) s = true -> rstrip s = s.
Proof.
  induction s as [|c r IH]; [reflexivity|]. cbn.
  rewrite andb_true_iff, negb_true_iff. intros [Hc Hr].
  rewrite (IH Hr). destruct r; by rewrite ?Hc.
Qed.

(** A text without white space is its own [strip]. *)
Lemma strip_clean (s : string) :
  all_chars (fun c => negb (is_space c)) s = true -> strip s = s.
Proof.
  intros Hs. unfold strip. rewrite lstrip_fixed; [by apply rstrip_clean|].
  destruct s as [|c r]; [exact I|]. cbn in Hs.
  by apply andb_true_iff in Hs as [Hc%negb_true_iff _].
Qed.

Lemma digit_is_no_space (c : ascii) :
  is_digit c = true -> negb (is_space c) = true.
Proof. destruct c as [[] [] [] [] [] [] [] []]; try discriminate; reflexivity. Qed.

Lemma digit_is_no_CR (c : ascii) : is_digit c = true -> Ascii.eqb c CR = false.
Proof. destruct c as [[] [] [] [] [] [] [] []]; try discriminate; reflexivity. Qed.

Lemma isdigit_all (s : string) : isdigit s = true -> all_chars is_digit s = true.
Proof. by destruct s. Qed.

Lemma endswith_char_false (p : ascii -> bool) (x : ascii) (s : string) :
  (forall c, p c = true -> Ascii.eqb c x = false) ->
  all_chars p s = true -> endswith s (String x EmptyString) = false.
Proof.
  intros Hp. induction s as [|c r IH]; [reflexivity|]. cbn.
  rewrite andb_true_iff. intros [Hc Hr]. by rewrite (Hp c Hc), (IH Hr).
Qed.

Lemma entered_not_empty (s : string) :
  String.eqb (ATM.entered s) EmptyString = false.
Proof. unfold ATM.entered. by destruct s. Qed.

(** A line of digits is read by [stdin] and stripped as it stands. *)
Lemma chomp_entered (p : ascii -> bool) (s : string) :
  (forall c, p c = true -> Ascii.eqb c CR = false) ->
  all_chars p s = true -> chomp (ATM.entered s) = s.
Proof.
  intros Hp Hs. unfold ATM.entered. rewrite chomp_lf.
  by rewrite (endswith_char_false p CR s Hp Hs).
Qed.

End StripFacts.

Section PromptResults.

Import ATM.







End PromptResults.

Section PromptRounds.

Import ATM.


Lemma ask_digits_round (prompt line : string) (min_len : Z) (max_len : option Z)
    (rest : list string) (w : World) :
  String.eqb line EmptyString = false ->
  ask_digits prompt min_len max_len (set_stdin (line :: rest) w) =
    let w1 := set_stdin rest (add_out (prompt_out prompt) w) in
    let retry message :=
      ask_digits prompt min_len max_len
        (add_out [line_out ("[Ошибка] " +:+ message)] w1) in
    let s := strip (chomp line) in
    if negb (isdigit s) then retry "Разрешены только цифры."
    else if len s <? min_len
    then retry ("Минимум " +:+ str_int min_len +:+ " цифр.")
    else
      match max_len with
      | Some mx =>
          if mx <? len s then retry ("Максимум " +:+ str_int mx +:+ " цифр.")
          else Return s w1
      | None => Return s w1
      end.
Proof.
  intros Hline. unfold ask_digits at 1, with_input_fuel, input_fuel.
  cbn [w_stdin set_stdin List.length ask_digits_loop].
  rewrite bind_run, stdin_run. cbn [w_stdin set_stdin]. cbn zeta. rewrite Hline.
  change (set_stdin rest (add_out (prompt_out prompt) (set_stdin (line :: rest) w)))
    with (set_stdin rest (add_out (prompt_out prompt) w)).
  destruct (negb (isdigit (strip (chomp line)))); [reflexivity|].
  destruct (len (strip (chomp line)) <? min_len); [reflexivity|].
  destruct max_len as [mx|]; [|reflexivity].
  destruct (mx <? len (strip (chomp line))); reflexivity.
Qed.

(** A line of digits of a length within the bounds is accepted at once. *)
Lemma ask_digits_accepts (prompt s : string) (min_len : Z) (max_len : option Z)
    (rest : list string) (w : World) :
  isdigit s = true -> min_len <= len s ->
  (forall mx, max_len = Some mx -> len s <= mx) ->
  ask_digits prompt min_len max_len (set_stdin (entered s :: rest) w)
    = Return s (set_stdin rest (add_out (prompt_out prompt) w)).
Proof.
  intros Hd Hmin Hmax. rewrite ask_digits_round by apply entered_not_empty.
  cbn zeta. pose proof (isdigit_all s Hd) as Hall.
  rewrite (chomp_entered is_digit s digit_is_no_CR Hall).
  rewrite (strip_clean s) by (eapply all_chars_impl, Hall; apply digit_is_no_space).
  rewrite Hd. cbn [negb].
  destruct (Z.ltb_spec (len s) min_len); [lia|].
  destruct max_len as [mx|]; [|reflexivity].
  specialize (Hmax mx eq_refl). destruct (Z.ltb_spec mx (len s)); [lia|reflexivity].
Qed.






End PromptRounds.

(* ===================================================================== *)
(** * Amounts as they are displayed                                     *)
(* ===================================================================== *)

Section MoneyText.

Import Decimal ATM.

Lemma digit_val_char (d : N) : (d < 10)%N -> digit_val (digit_char d) = d.
Proof.
  intros Hd. destruct d as [|p]; [reflexivity|].
  repeat (destruct p as [p|p|]; try lia; try reflexivity).
Qed.

Lemma N_of_digits_acc_app (s t : string) (a : N) :
  N_of_digits_acc (s +:+ t) a = N_of_digits_acc t (N_of_digits_acc s a).
Proof.
  revert a. induction s as [|c s IH]; intros a; [reflexivity|].
  rewrite app_cons. cbn [N_of_digits_acc]. apply IH.
Qed.

Lemma N_of_digits_acc_shift (s : string) (a : N) :
  N_of_digits_acc s a
    = (a * 10 ^ N.of_nat (String.length s) + N_of_digits s)%N.
Proof.
  unfold N_of_digits. revert a.
  induction s as [|c s IH]; intros a.
  - cbn. lia.
  - cbn [N_of_digits_acc String.length]. rewrite (IH (10 * a + digit_val c)%N).
    rewrite (IH (10 * 0 + digit_val c)%N).
    rewrite Nnat.Nat2N.inj_succ, N.pow_succ_r'. lia.
Qed.

Lemma N_of_digits_app (s t : string) :
  N_of_digits (s +:+ t)
    = (N_of_digits s * 10 ^ N.of_nat (String.length t) + N_of_digits t)%N.
Proof.
  unfold N_of_digits at 1. rewrite N_of_digits_acc_app.
  by rewrite N_of_digits_acc_shift.
Qed.

(** The digits written for [n] denote [n]. *)
Lemma N_of_digits_digits_go (fuel : nat) :
  forall (n : N) (acc : string),
    Z.of_N n < 2 ^ Z.of_nat fuel ->
    N_of_digits (digits_go fuel n acc)
      = (n * 10 ^ N.of_nat (String.length acc) + N_of_digits acc)%N.
Proof.
  assert (Hone : forall (d : N) (acc : string), (d < 10)%N ->
    N_of_digits (String (digit_char d) acc)
      = (d * 10 ^ N.of_nat (String.length acc) + N_of_digits acc)%N).
  { intros d acc Hd. unfold N_of_digits at 1. cbn [N_of_digits_acc].
    rewrite N_of_digits_acc_shift, digit_val_char by exact Hd. lia. }
  induction fuel as [|fuel IH]; intros n acc Hn; cbn [digits_go].
  - change (2 ^ Z.of_nat 0) with 1 in Hn.
    assert (n = 0%N) as -> by lia. by apply Hone.
  - destruct (N.ltb_spec n 10) as [Hlt|Hge].
    + rewrite N.mod_small by exact Hlt. by apply Hone.
    + assert (Hdiv : Z.of_N (n / 10) < 2 ^ Z.of_nat fuel).
      { rewrite Nat2Z.inj_succ, Z.pow_succ_r in Hn by lia.
        rewrite N2Z.inj_div. change (Z.of_N 10) with 10.
        apply Z.div_lt_upper_bound; lia. }
      rewrite (IH _ _ Hdiv). cbn [String.length].
      rewrite Hone by (apply N.mod_lt; lia).
      rewrite Nnat.Nat2N.inj_succ, N.pow_succ_r'.
      pose proof (N.div_mod n 10 ltac:(lia)) as Hdm.
      set (q := (n / 10)%N) in *. set (r := (n mod 10)%N) in *.
      set (p := (10 ^ N.of_nat (String.length acc))%N). nia.
Qed.

Lemma N_of_digits_str_N (n : N) : N_of_digits (str_N n) = n.
Proof.
  unfold str_N. rewrite N_of_digits_digits_go by apply size_nat_bound.
  cbn. lia.
Qed.

Lemma N_of_digits_zeros (k : nat) : N_of_digits (repeat_char "0" k) = 0%N.
Proof.
  unfold N_of_digits. induction k as [|k IH]; [reflexivity|]. exact IH.
Qed.

(** Padding with zeros does not change the number that digits denote. *)
Lemma N_of_digits_zfill (width : nat) (s : string) :
  all_chars is_digit s = true -> N_of_digits (zfill width s) = N_of_digits s.
Proof.
  intros Hs. unfold zfill. destruct s as [|c r] eqn:Es.
  - apply N_of_digits_zeros.
  - rewrite digit_is_no_sign
      by (cbn in Hs; apply andb_true_iff in Hs; tauto).
    rewrite N_of_digits_app, N_of_digits_zeros. lia.
Qed.

Lemma span_digits_app (s t : string) :
  all_chars is_digit s = true ->
  match t with
  | EmptyString => True
  | String c _ => is_digit c = false
  end ->
  span_digits (s +:+ t) = (s, t).
Proof.
  intros Hs Ht. induction s as [|c s IH].
  - rewrite app_empty_l. destruct t as [|c r]; [reflexivity|].
    cbn [span_digits]. by rewrite Ht.
  - cbn in Hs. apply andb_true_iff in Hs as [Hc Hs].
    rewrite app_cons. cbn [span_digits]. by rewrite Hc, (IH Hs).
Qed.

(** The characters of an amount as [format_money] writes it: digits and
    the point. *)
Lemma money_char_class (c : ascii) :
  is_digit c || Ascii.eqb c point = true ->
  negb (is_space c) = true /\ Ascii.eqb c CR = false /\
  Ascii.eqb c comma = false /\ Ascii.eqb c "_" = false.
Proof. destruct c as [[] [] [] [] [] [] [] []]; try discriminate; auto. Qed.

Lemma replace_char_clean (p : ascii -> bool) (old new : ascii) (s : string) :
  (forall c, p c = true -> Ascii.eqb c old = false) ->
  all_chars p s = true -> replace_char old new s = s.
Proof.
  intros Hp. induction s as [|c r IH]; [reflexivity|]. cbn.
  rewrite andb_true_iff. intros [Hc Hr]. by rewrite (Hp c Hc), (IH Hr).
Qed.

Lemma remove_char_clean (p : ascii -> bool) (x : ascii) (s : string) :
  (forall c, p c = true -> Ascii.eqb c x = false) ->
  all_chars p s = true -> remove_char x s = s.
Proof.
  intros Hp. induction s as [|c r IH]; [reflexivity|]. cbn.
  rewrite andb_true_iff. intros [Hc Hr]. by rewrite (Hp c Hc), (IH Hr).
Qed.

(** [Decimal(text)] for a text that begins with a digit and has neither
    white space nor underscores: there is no sign. *)
Lemma of_string_unsigned (c0 : ascii) (r : string) :
  is_digit c0 = true ->
  strip (String c0 r) = String c0 r ->
  remove_char "_" (String c0 r) = String c0 r ->
  of_string (String c0 r) =
    match parse_finite (String c0 r) with
    | Some (c, e) =>
        if (MIN_ETINY <=? e) && (adjusted c e <=? MAX_EMAX)
        then Ok (DFinite false c e)
        else Err InvalidOperation
    | None =>
        match parse_special false (String c0 r) with
        | Some d => Ok d
        | None => Err InvalidOperation
        end
    end.
Proof.
  intros Hc0 Hs Hr. unfold of_string. rewrite Hs, Hr.
  destruct c0 as [[] [] [] [] [] [] [] []]; try discriminate Hc0; reflexivity.
Qed.

(** [Decimal(text)] for digits, a point and two digits. *)
Lemma of_string_plain (whole frac : string) :
  all_chars is_digit whole = true -> (1 <= String.length whole)%nat ->
  all_chars is_digit frac = true -> String.length frac = 2%nat ->
  Z.of_N (N_of_digits (whole +:+ frac)) < 10 ^ 26 ->
  of_string (whole +:+ "." +:+ frac)
    = Ok (DFinite false (N_of_digits (whole +:+ frac)) (-2)).
Proof.
  intros Hw Hlen Hf Hlf Hbound.
  assert (Hall : all_chars (fun c => is_digit c || Ascii.eqb c point)
                   (whole +:+ "." +:+ frac) = true).
  { rewrite !all_chars_app.
    rewrite (all_chars_impl is_digit _ whole (fun c Hc => orb_true_intro _ _ (or_introl Hc)) Hw).
    rewrite (all_chars_impl is_digit _ frac (fun c Hc => orb_true_intro _ _ (or_introl Hc)) Hf).
    reflexivity. }
  assert (Hparse : parse_finite (whole +:+ "." +:+ frac)
                   = Some (N_of_digits (whole +:+ frac), -2)).
  { unfold parse_finite. rewrite (span_digits_app whole ("." +:+ frac) Hw)
      by reflexivity.
    rewrite app_cons, app_empty_l.
    rewrite <- (app_empty_r frac) at 1.
    rewrite (span_digits_app frac EmptyString Hf I).
    destruct whole as [|c0 whole']; [cbn in Hlen; lia|].
    cbn [String.eqb andb parse_exponent].
    unfold len. rewrite Hlf. reflexivity. }
  assert (Hstrip : strip (whole +:+ "." +:+ frac) = whole +:+ "." +:+ frac)
    by (apply strip_clean; eapply all_chars_impl, Hall;
        intros c Hc; apply (money_char_class c Hc)).
  assert (Hrem : remove_char "_" (whole +:+ "." +:+ frac)
                 = whole +:+ "." +:+ frac)
    by (eapply remove_char_clean, Hall;
        intros c Hc; apply (money_char_class c Hc)).
  destruct whole as [|c0 whole'] eqn:Ew; [cbn in Hlen; lia|].
  assert (Hc0 : is_digit c0 = true)
    by (cbn in Hw; by apply andb_true_iff in Hw as [? _]).
  rewrite app_cons in *.
  rewrite (of_string_unsigned c0 _ Hc0 Hstrip Hrem), Hparse.
  change (String c0 whole' +:+ frac) with (String c0 (whole' +:+ frac)) in *.
  destruct (Z.leb_spec MIN_ETINY (-2)) as [_|Hbad];
    [|unfold MIN_ETINY in Hbad; lia].
  match goal with
  | |- context [adjusted ?c ?e <=? MAX_EMAX] =>
      destruct (Z.leb_spec (adjusted c e) MAX_EMAX) as [_|Hbad]
  end; [reflexivity|].
  exfalso. unfold adjusted, MAX_EMAX in Hbad.
  pose proof (ndigits_le _ 26 ltac:(lia) Hbound). lia.
Qed.

End MoneyText.

Section MoneyFormat.

Import Decimal ATM.

(** The two parts of an amount as [format_money] writes it. *)
Lemma format_money_parts (cents : Z) :
  let whole := str_N (Z.to_N (Z.abs cents / 100)) in
  let frac := zfill 2 (str_N (Z.to_N (Z.abs cents mod 100))) in
  format_money cents
    = (if cents <? 0 then "-" else EmptyString) +:+ whole +:+ "." +:+ frac /\
  all_chars is_digit whole = true /\ (1 <= String.length whole)%nat /\
  all_chars is_digit frac = true /\ String.length frac = 2%nat /\
  Z.of_N (N_of_digits whole) = Z.abs cents / 100 /\
  Z.of_N (N_of_digits frac) = Z.abs cents mod 100.
Proof.
  intros whole frac.
  pose proof (Z.abs_nonneg cents) as Habs.
  pose proof (Z.mod_pos_bound (Z.abs cents) 100 ltac:(lia)) as Hmod.
  assert (Hdiv : 0 <= Z.abs cents / 100) by (apply Z.div_pos; lia).
  destruct (zfill_digits 2 (str_N (Z.to_N (Z.abs cents mod 100))))
    as [Hlen Hdig]; [apply str_N_all_digits| |].
  { apply (str_N_length_le 1). change (10 ^ N.of_nat 2)%N with 100%N. lia. }
  split; [|split; [|split; [|split; [|split; [|split]]]]].
  - unfold format_money, str_int, fmt_02d. cbn zeta.
    destruct (Z.ltb_spec (Z.abs cents / 100) 0); [lia|].
    destruct (Z.ltb_spec (Z.abs cents mod 100) 0); [lia|]. reflexivity.
  - apply str_N_all_digits.
  - apply str_N_length_ge.
  - exact Hdig.
  - exact Hlen.
  - unfold whole. rewrite N_of_digits_str_N. lia.
  - unfold frac. rewrite N_of_digits_zfill by apply str_N_all_digits.
    rewrite N_of_digits_str_N. lia.
Qed.

(** The conversion of an amount with two decimal places is exact. *)
Lemma to_cents_exact (c : N) :
  Z.of_N c < 10 ^ 26 -> to_cents (DFinite false c (-2)) = Ok (Z.of_N c).
Proof.
  intros Hc.
  destruct (to_cents_nearest false c (-2)) as (cents&Hrun&Hpos&Hnear&_);
    [reflexivity|change (10 ^ Z.max (-2) 0) with 1; lia|].
  rewrite Hrun. f_equal.
  change (10 ^ Z.max (- -2) 0) with 100 in Hnear.
  change (10 ^ Z.max (-2) 0) with 1 in Hnear. lia.
Qed.


(** X15. The display and the currency prompt agree: the text that
    [format_money] writes for an amount that is not negative (and has at
    most 26 digits) is read back by [ask_money_amount] as that amount. *)
Theorem format_money_parses_back (cents : Z) (prompt : string)
    (rest : list string) (w : World) :
  0 <= cents < 10 ^ 26 ->
  ask_money_amount prompt (set_stdin (entered (format_money cents) :: rest) w)
    = Return cents (set_stdin rest (add_out (prompt_out prompt) w)).
Proof.
  intros Hc.
  destruct (format_money_parts cents) as (Hf&Hw&Hlw&Hd&Hld&Hvw&Hvf).
  set (whole := str_N (Z.to_N (Z.abs cents / 100))) in *.
  set (frac := zfill 2 (str_N (Z.to_N (Z.abs cents mod 100)))) in *.
  destruct (Z.ltb_spec cents 0) as [?|_]; [lia|]. rewrite app_empty_l in Hf.
  rewrite Z.abs_eq in Hvw, Hvf by lia.
  assert (Hval : Z.of_N (N_of_digits (whole +:+ frac)) = cents).
  { rewrite N_of_digits_app, Hld. change (10 ^ N.of_nat 2)%N with 100%N.
    pose proof (Z.div_mod cents 100 ltac:(lia)). lia. }
  assert (Hall : all_chars (fun c => is_digit c || Ascii.eqb c point)
                   (whole +:+ "." +:+ frac) = true).
  { rewrite !all_chars_app.
    rewrite (all_chars_impl is_digit _ whole
               (fun c Hd0 => orb_true_intro _ _ (or_introl Hd0)) Hw).
    rewrite (all_chars_impl is_digit _ frac
               (fun c Hd0 => orb_true_intro _ _ (or_introl Hd0)) Hd).
    reflexivity. }
  rewrite ask_money_amount_round by apply entered_not_empty. cbn zeta.
  rewrite Hf.
  rewrite (chomp_entered _ _ (fun c Hm => proj1 (proj2 (money_char_class c Hm)))
             Hall).
  rewrite strip_clean
    by (eapply all_chars_impl, Hall; intros c Hm; apply (money_char_class c Hm)).
  rewrite (replace_char_clean _ comma point _
             (fun c Hm => proj1 (proj2 (proj2 (money_char_class c Hm)))) Hall).
  rewrite of_string_plain by (try assumption; lia).
  cbn [is_nan is_infinite orb lt_zero andb].
  rewrite lift_run, to_cents_exact by lia. by rewrite Hval.
Qed.

Lemma format_money_parses_back_witness :
  0 <= 10050 < 10 ^ 26 /\
  format_money 10050 = "100.50" /\
  ask_money_amount "Сколько внести?"
    (set_stdin [entered (format_money 10050)] bare_world)
    = Return 10050
        (set_stdin [] (add_out (prompt_out "Сколько внести?") bare_world)).
Proof.
  assert (Hc : 0 <= 10050 < 10 ^ 26) by (split; [lia|reflexivity]).
  split; [exact Hc|]. split; [reflexivity|].
  exact (format_money_parses_back 10050 "Сколько внести?" [] bare_world Hc).
Defined.

End MoneyFormat.

(* ===================================================================== *)
(** * Log-in, session menu and start-up menu                            *)
(* ===================================================================== *)

Create HintDb console discriminated.

(** As [well], for code that changes nothing but the console. *)
Ltac console_well :=
  repeat first
    [ lazymatch goal with
      | |- runs_well _ (mbind _ _) =>
          apply bind_runs_well; [apply _| |intros ?]
      | |- runs_well _ (mret _) => apply ret_runs_well, _
      | |- runs_well _ (if ?b then _ else _) => destruct b
      | |- runs_well _ (match ?x with _ => _ end) => destruct x
      end
    | solve [auto with console] ].

Section ConsoleOnly.

Import ATM.

Lemma raise_runs_well {A} (R : World -> World -> Prop) `{!Reflexive R}
    (e : exn) :
  e <> EOFError -> runs_well R (raise e : M A).
Proof.
  intros He w. cbn. repeat split; [reflexivity|lia|].
  by rewrite bool_decide_eq_false_2.
Qed.

Lemma stop_runs_well {A} (R : World -> World -> Prop) (s : stuck) :
  s <> FuelExhausted -> runs_well R (stop s : M A).
Proof. intros Hs w. exact Hs. Qed.

Lemma stdout_console (message : string) :
  runs_well console_only (stdout message).
Proof. apply stdout_runs_well. Qed.

Lemma info_console (message : string) : runs_well console_only (info message).
Proof. apply stdout_runs_well. Qed.

Lemma error_console (message : string) : runs_well console_only (error message).
Proof. apply stdout_runs_well. Qed.

Lemma show_balance_console (b : Z) : runs_well console_only (show_balance b).
Proof. apply stdout_runs_well. Qed.

Lemma ask_digits_console (prompt : string) (min_len : Z) (max_len : option Z) :
  runs_well console_only (ask_digits prompt min_len max_len).
Proof. apply reads_runs_well, ask_digits_reads_well. Qed.

Lemma ask_pin_login_console : runs_well console_only ask_pin_login.
Proof. apply ask_digits_console. Qed.

Lemma load_console : runs_well console_only load.
Proof.
  eapply runs_well_weaken; [|apply load_runs_well]. by intros w w' ->.
Qed.

Lemma lift_console {A} (r : res A) :
  r <> Err EOFError -> runs_well console_only (lift r).
Proof. apply lift_runs_well, _. Qed.

Lemma Account_of_kwargs_console (raw : json) :
  runs_well console_only (Account_of_kwargs raw).
Proof.
  unfold Account_of_kwargs.
  destruct raw; try (by apply raise_runs_well; [apply _|]).
  destruct (negb _); [by apply raise_runs_well; [apply _|]|].
  repeat match goal with
         | |- context [match ?x with _ => _ end] => destruct x
         end;
    first [by apply raise_runs_well; [apply _|]
          |by apply stop_runs_well|apply ret_runs_well, _].
Qed.

End ConsoleOnly.

#[global] Hint Resolve stdout_console info_console error_console
  show_balance_console ask_digits_console ask_pin_login_console load_console
  lift_console contains_no_eof getitem_no_eof fromhex_no_eof
  Account_of_kwargs_console : console.

Section LoginFacts.

Import ATM.
Context `{Sha256}.

Lemma get_account_console (number : string) :
  runs_well console_only (get_account number).
Proof.
  unfold get_account. console_well; by apply raise_runs_well; [apply _|].
Qed.

Lemma verify_pin_console (pin salt_hex hash_hex : string) :
  runs_well console_only (_verify_pin pin salt_hex hash_hex).
Proof. unfold _verify_pin. console_well. Qed.

Lemma flow_login_console : runs_well console_only flow_login.
Proof.
  unfold flow_login.
  pose proof get_account_console. pose proof verify_pin_console.
  console_well.
Qed.

(** X16. Logging in never writes: however [flow_login] ends, the backing
    file and the random and clock sources are as before; only the console
    has changed. *)
Theorem flow_login_never_writes (w : World) :
  match flow_login w with
  | Return _ w' | Raise _ w' =>
      w_file w' = w_file w /\ w_randbelow w' = w_randbelow w /\
      w_token_bytes w' = w_token_bytes w /\ w_now w' = w_now w /\
      exists more, w_stdout w' = w_stdout w ++ more
  | Stuck s => s <> FuelExhausted
  end.
Proof.
  pose proof (flow_login_console w) as Hw.
  destruct (flow_login w) as [found w'|e w'|s]; cbn in Hw;
    [apply Hw|apply Hw|exact Hw].
Qed.

End LoginFacts.

Section LoginRuns.

Import ATM.
Context `{Sha256}.

(** The start of [flow_login], up to the account number, for a line that
    holds a number of ten digits. *)
Lemma flow_login_number (number : string) (rest : list string) (w : World)
    (k : string -> M (option Account)) :
  isdigit number = true -> len number = 10 ->
  (info EmptyString;; info "=== Вход в существующий счёт ===";;
   acc_num ← ask_digits "Введите номер счёта" 10 (Some 10); k acc_num)
    (set_stdin (entered number :: rest) w)
  = k number (set_stdin rest (add_out login_out w)).
Proof.
  intros Hd Hlen. unfold info.
  rewrite bind_run, stdout_run, bind_run, stdout_run, bind_run.
  change (add_out [line_out "=== Вход в существующий счёт ==="]
            (add_out [line_out EmptyString]
               (set_stdin (entered number :: rest) w)))
    with (set_stdin (entered number :: rest)
            (add_out [line_out "=== Вход в существующий счёт ==="]
               (add_out [line_out EmptyString] w))).
  rewrite ask_digits_accepts; [|exact Hd|lia|intros mx [= <-]; lia].
  by rewrite !add_out_app.
Qed.

(** X17. A well-formed account number that the store does not hold: the
    log-in reports that the account was not found and returns [None]; the
    PIN is not asked for, so the rest of the input is untouched. *)
Theorem flow_login_unknown_number (number : string) (rest : list string)
    (w : World) :
  isdigit number = true -> len number = 10 ->
  loadable w -> stored (w_file w) number = None ->
  flow_login (set_stdin (entered number :: rest) w)
    = Return None
        (set_stdin rest
           (add_out (login_out ++ [line_out "[Ошибка] Счёт не найден."]) w)).
Proof.
  intros Hd Hlen Hl Hst. unfold flow_login.
  rewrite flow_login_number by assumption.
  set (w1 := set_stdin rest (add_out login_out w)).
  rewrite bind_run.
  rewrite (get_account_loadable number w1)
    by (eapply loadable_same_file, Hl; reflexivity).
  change (w_file w1) with (w_file w). rewrite Hst.
  unfold error. rewrite bind_run, stdout_run, ret_run. f_equal.
  unfold w1.
  change (add_out [line_out ("[Ошибка] " +:+ "Счёт не найден.")]
            (set_stdin rest (add_out login_out w)))
    with (set_stdin rest
            (add_out [line_out "[Ошибка] Счёт не найден."]
               (add_out login_out w))).
  by rewrite add_out_app.
Qed.

(** X18. For an account that the store holds, with a salt and a digest in
    hex as [_make_pin_record] writes them: when its number and a PIN of 4
    to 8 digits are entered, the log-in returns the account exactly when
    the digest of the PIN with the stored salt is the stored digest, and
    [None] otherwise.  The file is left as it was and the two lines are
    read. *)
Theorem flow_login_checks_pin (a : Account) (pin : string) (salt digest : bytes)
    (rest : list string) (w : World) :
  persisted w a ->
  isdigit (account_number a) = true -> len (account_number a) = 10 ->
  pin_salt_hex a = hex salt -> pin_hash_hex a = hex digest ->
  isdigit pin = true -> 4 <= len pin <= 8 ->
  exists (found : option Account) (w' : World),
    flow_login
      (set_stdin (entered (account_number a) :: entered pin :: rest) w)
      = Return found w' /\
    (sha256_digest (salt ++ encode_utf8 pin) = digest -> found = Some a) /\
    (sha256_digest (salt ++ encode_utf8 pin) <> digest -> found = None) /\
    w_file w' = w_file w /\ w_stdin w' = rest.
Proof.
  intros Hp Hd Hlen Hsalt Hhash Hpd Hplen. unfold flow_login.
  rewrite flow_login_number by assumption.
  set (w1 := add_out login_out w).
  rewrite bind_run, (get_account_persisted a) by exact Hp.
  rewrite bind_run. unfold ask_pin_login.
  rewrite ask_digits_accepts; [|exact Hpd|lia|intros mx [= <-]; lia].
  rewrite bind_run, Hsalt, Hhash, verify_pin_hex_digest.
  unfold compare_digest.
  destruct (bytes_eqb (_hash_pin pin salt) digest) eqn:Eq; cbn [negb].
  - apply bytes_eqb_eq in Eq. unfold info, show_balance, info.
    rewrite bind_run, stdout_run, bind_run, stdout_run, ret_run.
    eexists _, _. split; [reflexivity|].
    split; [reflexivity|]. split; [|split; reflexivity].
    intros Hne. by destruct Hne.
  - assert (Hne : _hash_pin pin salt <> digest).
    { intros Heq. apply bytes_eqb_eq in Heq. congruence. }
    unfold error. rewrite bind_run, stdout_run, ret_run.
    eexists _, _. split; [reflexivity|].
    split; [intros Heq; by destruct Hne|]. split; [reflexivity|].
    split; reflexivity.
Qed.

End LoginRuns.

Section LoginExamples.

Import ATM.

Lemma flow_login_unknown_number_witness :
  let digest : Sha256 := fun data => data in
  let w := set_file sample_store bare_world in
  isdigit "0000000009" = true /\ len "0000000009" = 10 /\
  loadable w /\ stored (w_file w) "0000000009" = None /\
  flow_login (set_stdin [entered "0000000009"; entered "1234"] w)
    = Return None
        (set_stdin [entered "1234"]
           (add_out (login_out ++ [line_out "[Ошибка] Счёт не найден."]) w)).
Proof.
  intros digest w.
  assert (Hd : isdigit "0000000009" = true) by reflexivity.
  assert (Hlen : len "0000000009" = 10) by reflexivity.
  assert (Hl : loadable w)
    by (eexists; vm_compute; reflexivity).
  assert (Hst : stored (w_file w) "0000000009" = None)
    by (vm_compute; reflexivity).
  split; [exact Hd|]. split; [exact Hlen|]. split; [exact Hl|].
  split; [exact Hst|].
  exact (flow_login_unknown_number (H := digest) "0000000009"
           [entered "1234"] w Hd Hlen Hl Hst).
Defined.

End LoginExamples.

Section LoginPinExample.

Import ATM.

Lemma flow_login_checks_pin_witness :
  let digest : Sha256 := fun data => data in
  let a := mkAccount "0000000001" "A" "B" "ID" "00" "0031323334" 100
             "2025-01-01T00:00:00Z" in
  let w := set_file (JsonText (JObj {["accounts" :=
             JObj {["0000000001" := asdict a]}]})) bare_world in
  persisted w a /\
  isdigit (account_number a) = true /\ len (account_number a) = 10 /\
  pin_salt_hex a = hex [Byte.x00] /\
  pin_hash_hex a = hex [Byte.x00; Byte.x31; Byte.x32; Byte.x33; Byte.x34] /\
  isdigit "1234" = true /\ 4 <= len "1234" <= 8 /\
  exists w',
    flow_login (set_stdin [entered "0000000001"; entered "1234"] w)
      = Return (Some a) w' /\
    w_file w' = w_file w.
Proof.
  intros digest a w.
  assert (Hp : persisted w a) by (vm_compute; reflexivity).
  assert (Hd : isdigit (account_number a) = true) by reflexivity.
  assert (Hlen : len (account_number a) = 10) by reflexivity.
  assert (Hs : pin_salt_hex a = hex [Byte.x00]) by reflexivity.
  assert (Hh : pin_hash_hex a
               = hex [Byte.x00; Byte.x31; Byte.x32; Byte.x33; Byte.x34])
    by reflexivity.
  assert (Hpd : isdigit "1234" = true) by reflexivity.
  assert (Hpl : 4 <= len "1234" <= 8) by (vm_compute; split; discriminate).
  repeat (split; [assumption|]).
  destruct (flow_login_checks_pin (H := digest) a "1234" [Byte.x00]
              [Byte.x00; Byte.x31; Byte.x32; Byte.x33; Byte.x34] [] w
              Hp Hd Hlen Hs Hh Hpd Hpl) as (found&w'&Hrun&Hyes&_&Hf&_).
  exists w'. split; [|exact Hf].
  etrans; [exact Hrun|]. f_equal. apply Hyes. reflexivity.
Defined.

End LoginPinExample.

Section SessionChoices.

Import ATM.

(** The menu of the session, for a line that is not the end of input. *)
Lemma w_stdin_add_out (events : list out_event) (w : World) :
  w_stdin (add_out events w) = w_stdin w.
Proof. reflexivity. Qed.

Lemma w_stdin_set_stdin (lines : list string) (w : World) :
  w_stdin (set_stdin lines w) = lines.
Proof. reflexivity. Qed.

Lemma add_out_set_stdin (events : list out_event) (lines : list string)
    (w : World) :
  add_out events (set_stdin lines w) = set_stdin lines (add_out events w).
Proof. reflexivity. Qed.

Lemma set_stdin_twice (lines lines' : list string) (w : World) :
  set_stdin lines (set_stdin lines' w) = set_stdin lines w.
Proof. reflexivity. Qed.


Lemma menu_startup_run (line : string) (rest : list string) (w : World) :
  String.eqb line EmptyString = false ->
  menu_startup (set_stdin (line :: rest) w)
    = Return (strip (chomp line)) (set_stdin rest (add_out menu_startup_out w)).
Proof.
  intros Hline. unfold menu_startup.
  do 4 rewrite bind_run, stdout_run. rewrite bind_run, stdin_run.
  rewrite !w_stdin_add_out, w_stdin_set_stdin. cbn zeta. rewrite Hline, ret_run.
  by rewrite !add_out_set_stdin, set_stdin_twice, !add_out_app.
Qed.



End SessionChoices.

Section RunFacts.

Import ATM.
Context `{Sha256}.

Lemma show_title_run (w : World) :
  show_title w = Return tt (add_out title_out w).
Proof.
  unfold show_title. do 2 rewrite bind_run, stdout_run. rewrite stdout_run.
  by rewrite !add_out_app.
Qed.

(** X20. With a store that holds an account, the programme begins with the
    start-up menu, and the choice "0" ends it at once: the title, the menu
    and the farewell are written, one line is read, and nothing is
    created, asked or stored. *)
Theorem run_quits_from_menu (line : string) (rest : list string) (w : World) :
  String.eqb line EmptyString = false ->
  strip (chomp line) = "0" ->
  (exists number, is_Some (stored (w_file w) number)) ->
  run (set_stdin (line :: rest) w)
    = Return tt
        (set_stdin rest
           (add_out (title_out ++ menu_startup_out
                     ++ [line_out "До свидания!"]) w)).
Proof.
  intros Hline Hchoice (number&raw&Hst). unfold run.
  rewrite bind_run, show_title_run, bind_run.
  set (w0 := add_out title_out (set_stdin (line :: rest) w)).
  assert (Hl : loadable w0)
    by (eapply loadable_same_file, stored_loadable, Hst; reflexivity).
  assert (Hany : has_any_accounts w0 = Return true w0).
  { destruct (loaded_accounts w0 Hl) as (top&m&_&_&Hm&_).
    rewrite (has_any_accounts_loadable w0 m Hl Hm). f_equal.
    apply negb_true_iff, bool_decide_eq_false. intros ->.
    specialize (Hm number). change (w_file w0) with (w_file w) in Hm.
    by rewrite Hst, lookup_empty in Hm. }
  rewrite Hany. cbn [negb]. unfold with_input_fuel, input_fuel, w0.
  cbn [w_stdin set_stdin add_out List.length run_loop].
  rewrite bind_run. unfold run_round at 1. rewrite bind_run.
  change (add_out title_out (set_stdin (line :: rest) w))
    with (set_stdin (line :: rest) (add_out title_out w)).
  rewrite menu_startup_run by exact Hline. rewrite Hchoice.
  change (String.eqb "0" "1") with false.
  change (String.eqb "0" "2") with false.
  change (String.eqb "0" "0") with true. cbn iota.
  unfold info. rewrite bind_run, stdout_run, ret_run. cbn iota. rewrite ret_run.
  change (add_out [line_out "До свидания!"]
            (set_stdin rest (add_out menu_startup_out (add_out title_out w))))
    with (set_stdin rest
            (add_out [line_out "До свидания!"]
               (add_out menu_startup_out (add_out title_out w)))).
  by rewrite !add_out_app, <- ?app_assoc.
Qed.

End RunFacts.

Section RunExamples.

Import ATM.

Lemma run_quits_from_menu_witness :
  let digest : Sha256 := fun data => data in
  let w := set_file sample_store bare_world in
  String.eqb (entered "0") EmptyString = false /\
  strip (chomp (entered "0")) = "0" /\
  (exists number, is_Some (stored (w_file w) number)) /\
  run (set_stdin [entered "0"; entered "1"] w)
    = Return tt
        (set_stdin [entered "1"]
           (add_out (title_out ++ menu_startup_out
                     ++ [line_out "До свидания!"]) w)).
Proof.
  intros digest w.
  assert (Hline : String.eqb (entered "0") EmptyString = false) by reflexivity.
  assert (Hchoice : strip (chomp (entered "0")) = "0") by reflexivity.
  assert (Hst : exists number, is_Some (stored (w_file w) number))
    by (exists "0000000001"; vm_compute; eauto).
  split; [exact Hline|]. split; [exact Hchoice|]. split; [exact Hst|].
  exact (run_quits_from_menu (H := digest) (entered "0") [entered "1"] w
           Hline Hchoice Hst).
Defined.

End RunExamples.

Section GeneratorDraws.

Import ATM.

Lemma generate_loop_first_free (taken : list Z) :
  forall (fuel : nat) (r : Z) (rest : list Z) (w : World),
    (List.length taken < fuel)%nat ->
    loadable w ->
    w_randbelow w = taken ++ r :: rest ->
    Forall (fun t => is_Some (stored (w_file w) (zfill 10 (str_int t)))) taken ->
    stored (w_file w) (zfill 10 (str_int r)) = None ->
    generate_unique_account_number_loop fuel 10 w
      = Return (zfill 10 (str_int r)) (set_randbelow rest w).
Proof.
  induction taken as [|t taken IH]; intros fuel r rest w Hfuel Hl Hdraws Htaken Hfree;
    (destruct fuel as [|fuel]; [cbn in Hfuel; lia|]);
    cbn [generate_unique_account_number_loop]; rewrite bind_run;
    unfold secrets_randbelow; change (10 ^ Z.of_nat 10 <=? 0) with false;
    cbn iota; rewrite Hdraws; cbn [app]; rewrite bind_run.
  - assert (Hl1 : loadable (set_randbelow rest w))
      by (eapply loadable_same_file, Hl; reflexivity).
    rewrite (account_exists_loadable _ _ Hl1).
    change (w_file (set_randbelow rest w)) with (w_file w). rewrite Hfree.
    rewrite bool_decide_eq_false_2 by (by intros [? ?]). reflexivity.
  - apply Forall_cons in Htaken as [Ht Htaken].
    set (w1 := set_randbelow (taken ++ r :: rest) w).
    assert (Hl1 : loadable w1)
      by (eapply loadable_same_file, Hl; reflexivity).
    rewrite (account_exists_loadable _ _ Hl1).
    change (w_file w1) with (w_file w).
    rewrite bool_decide_eq_true_2 by exact Ht. cbn [negb].
    rewrite (IH fuel r rest w1); [reflexivity|cbn in Hfuel; lia|exact Hl1
                                  |reflexivity|exact Htaken|exact Hfree].
Qed.

(** X21. The generator returns the first number drawn that the store does
    not hold, padded to ten digits: the draws before it, whose numbers are
    taken, are skipped, and the draws after it are left in the source. *)
Theorem generate_unique_account_number_first_free (taken : list Z) (r : Z)
    (rest : list Z) (w : World) :
  loadable w ->
  w_randbelow w = taken ++ r :: rest ->
  Forall (fun t => is_Some (stored (w_file w) (zfill 10 (str_int t)))) taken ->
  stored (w_file w) (zfill 10 (str_int r)) = None ->
  generate_unique_account_number 10 w
    = Return (zfill 10 (str_int r)) (set_randbelow rest w).
Proof.
  intros Hl Hdraws Htaken Hfree. unfold generate_unique_account_number.
  apply (generate_loop_first_free taken); try assumption.
  rewrite Hdraws, List.length_app. cbn. lia.
Qed.

Lemma generate_unique_account_number_first_free_witness :
  let w := set_randbelow [1; 1; 7; 9] (set_file sample_store bare_world) in
  loadable w /\
  w_randbelow w = [1; 1] ++ 7 :: [9] /\
  Forall (fun t => is_Some (stored (w_file w) (zfill 10 (str_int t)))) [1; 1] /\
  stored (w_file w) (zfill 10 (str_int 7)) = None /\
  generate_unique_account_number 10 w
    = Return "0000000007" (set_randbelow [9] w).
Proof.
  intros w.
  assert (Hl : loadable w) by (eexists; vm_compute; reflexivity).
  assert (Hd : w_randbelow w = [1; 1] ++ 7 :: [9]) by reflexivity.
  assert (Ht : Forall (fun t => is_Some (stored (w_file w)
                                           (zfill 10 (str_int t)))) [1; 1])
    by (repeat constructor; vm_compute; eauto).
  assert (Hf : stored (w_file w) (zfill 10 (str_int 7)) = None)
    by (vm_compute; reflexivity).
  split; [exact Hl|]. split; [exact Hd|]. split; [exact Ht|]. split; [exact Hf|].
  exact (generate_unique_account_number_first_free [1; 1] 7 [9] w Hl Hd Ht Hf).
Defined.

End GeneratorDraws.

(* ===================================================================== *)
(** * Account creation and the identity of the account                  *)
(* ===================================================================== *)

Section CreationFacts.

Import ATM.
Context `{Sha256}.




End CreationFacts.

Section SessionIdentity.

Import ATM.

Lemma set_balance_same (a : Account) : set_balance a (balance_cents a) = a.
Proof. by destruct a. Qed.

Lemma set_balance_twice (a : Account) (b b' : Z) :
  set_balance (set_balance a b) b' = set_balance a b'.
Proof. reflexivity. Qed.

Lemma persist_report_result (a : Account) (message : string) (w w' : World)
    (a' : Account) :
  (upsert_account a;; info message;; show_balance (balance_cents a);;
   mret a) w = Return a' w' -> a' = a.
Proof.
  intros Hrun. bind_return Hrun u1 w1 E1. bind_return Hrun u2 w2 E2.
  bind_return Hrun u3 w3 E3. rewrite ret_run in Hrun. by injection Hrun.
Qed.

Lemma session_round_identity (a a' : Account) (again : bool) (w w' : World) :
  session_round a w = Return (a', again) w' ->
  a' = set_balance a (balance_cents a').
Proof.
  unfold session_round. intros Hrun. bind_return Hrun choice w1 E1.
  destruct (String.eqb choice "1").
  { bind_return Hrun a1 w2 E2. rewrite ret_run in Hrun.
    injection Hrun as <- _ _. unfold session_deposit in E2.
    bind_return E2 amount w3 E3. destruct (amount <=? 0).
    - bind_return E2 u w4 E4. rewrite ret_run in E2. injection E2 as <- _.
      by rewrite set_balance_same.
    - apply persist_report_result in E2 as ->. reflexivity. }
  destruct (String.eqb choice "2").
  { bind_return Hrun a1 w2 E2. rewrite ret_run in Hrun.
    injection Hrun as <- _ _. unfold session_withdraw in E2.
    bind_return E2 amount w3 E3. destruct (amount <=? 0).
    - bind_return E2 u w4 E4. rewrite ret_run in E2. injection E2 as <- _.
      by rewrite set_balance_same.
    - destruct (balance_cents a <? amount).
      + bind_return E2 u w4 E4. bind_return E2 u' w5 E5.
        rewrite ret_run in E2. injection E2 as <- _.
        by rewrite set_balance_same.
      + apply persist_report_result in E2 as ->. reflexivity. }
  destruct (String.eqb choice "3").
  { bind_return Hrun u w2 E2. rewrite ret_run in Hrun.
    injection Hrun as <- _ _. by rewrite set_balance_same. }
  destruct (String.eqb choice "0").
  { bind_return Hrun u w2 E2. rewrite ret_run in Hrun.
    injection Hrun as <- _ _. by rewrite set_balance_same. }
  bind_return Hrun u w2 E2. rewrite ret_run in Hrun.
  injection Hrun as <- _ _. by rewrite set_balance_same.
Qed.

Lemma flow_session_loop_identity (fuel : nat) :
  forall (a a' : Account) (w w' : World),
    flow_session_loop fuel a w = Return a' w' ->
    a' = set_balance a (balance_cents a').
Proof.
  induction fuel as [|fuel IH]; intros a a' w w'; cbn [flow_session_loop];
    [discriminate|].
  intros Hrun. bind_return Hrun r w1 E1. destruct r as [a1 again].
  apply session_round_identity in E1.
  destruct again.
  - apply IH in Hrun. rewrite Hrun, E1. reflexivity.
  - rewrite ret_run in Hrun. injection Hrun as <- _. exact E1.
Qed.

(** X23. A session changes nothing of the account but its balance: the
    account object that [flow_session] leaves has the number, the names,
    the ID, the PIN salt and hash and the creation time of the account it
    was started with. *)
Theorem flow_session_changes_only_balance (a a' : Account) (w w' : World) :
  flow_session a w = Return a' w' ->
  account_number a' = account_number a /\ name a' = name a /\
  surname a' = surname a /\ id_number a' = id_number a /\
  pin_salt_hex a' = pin_salt_hex a /\ pin_hash_hex a' = pin_hash_hex a /\
  created_at a' = created_at a.
Proof.
  intros Hrun. apply flow_session_loop_identity in Hrun.
  rewrite Hrun. repeat split.
Qed.

Lemma flow_session_changes_only_balance_witness :
  let w := set_stdin [entered "1"; entered "5.00"; entered "2"; entered "2.00";
                      entered "0"]
             (set_file sample_store bare_world) in
  exists w',
    flow_session sample_account w = Return (set_balance sample_account 400) w' /\
    account_number (set_balance sample_account 400) = "0000000001" /\
    pin_hash_hex (set_balance sample_account 400) = "11".
Proof.
  intros w. eexists.
  assert (Hrun : flow_session sample_account w
                 = Return (set_balance sample_account 400) _)
    by (vm_compute; reflexivity).
  split; [exact Hrun|].
  destruct (flow_session_changes_only_balance _ _ _ _ Hrun)
    as (Hn&_&_&_&_&Hh&_).
  split; [exact Hn|exact Hh].
Defined.

End SessionIdentity.

Section CreationExample.

Import ATM.


End CreationExample.

(* ===================================================================== *)
(** * The smart fan: statistics, history and log                        *)
(* ===================================================================== *)

Section FanConsistency.

Import SmartFan.
Context `{TimeOps}.

Lemma labels_four_modes : four_modes MODE_LABELS.
Proof.
  intros k. unfold MODE_LABELS, MIN_MODE, MAX_MODE.
  destruct (decide (k = 0)) as [->|H0]; [by split; [lia|eauto]|].
  destruct (decide (k = 1)) as [->|H1]; [by split; [lia|eauto]|].
  destruct (decide (k = 2)) as [->|H2]; [by split; [lia|eauto]|].
  destruct (decide (k = 3)) as [->|H3]; [by split; [lia|eauto]|].
  rewrite !lookup_insert_ne, lookup_empty by congruence.
  split; [by intros [? ?]|lia].
Qed.

Lemma four_modes_fmap {V W} (f : V -> W) (d : gmap Z V) :
  four_modes d -> four_modes (f <$> d).
Proof.
  intros Hd k. rewrite lookup_fmap, <- (Hd k).
  destruct (d !! k); cbn; split; intros [? ?]; eauto; discriminate.
Qed.

Lemma four_modes_insert {V} (d : gmap Z V) (k : Z) (v : V) :
  four_modes d -> MIN_MODE <= k <= MAX_MODE -> four_modes (<[k := v]> d).
Proof.
  intros Hd Hk j. destruct (decide (k = j)) as [->|Hne].
  - rewrite lookup_insert_eq. split; [by intros|eauto].
  - rewrite lookup_insert_ne by exact Hne. apply Hd.
Qed.

Lemma four_modes_count (m : Z) (d : gmap Z Z) :
  four_modes d -> four_modes (count_mode m d).
Proof.
  intros Hd. unfold count_mode. destruct (d !! m) as [n|] eqn:E; [|exact Hd].
  apply four_modes_insert; [exact Hd|]. apply Hd. eauto.
Qed.

Lemma count_mode_lookup (n m : Z) (d : gmap Z Z) (v : Z) :
  is_Some (d !! n) -> d !! m = Some v ->
  count_mode n d !! m = Some (v + (if n =? m then 1 else 0)).
Proof.
  intros [x Hx] Hm. unfold count_mode. rewrite Hx.
  destruct (Z.eqb_spec n m) as [->|Hne].
  - rewrite lookup_insert_eq. congruence.
  - rewrite lookup_insert_ne by exact Hne. rewrite Hm. f_equal. lia.
Qed.

Lemma leads_snoc (from mid : Z) (events : list Event) (e : Event) :
  leads from events mid -> old_mode e = mid -> new_mode e <> mid ->
  MIN_MODE <= new_mode e <= MAX_MODE ->
  leads from (events ++ [e]) (new_mode e).
Proof.
  revert from. induction events as [|x events IH]; intros from Hl Ho Hn Hr.
  - cbn [leads app] in *. subst. auto.
  - cbn [leads app] in *. destruct Hl as (?&?&?&Hl).
    split; [assumption|]. split; [assumption|]. split; [assumption|].
    by apply IH.
Qed.

Lemma switches_to_snoc (m : Z) (events : list Event) (e : Event) :
  switches_to m (events ++ [e])
    = switches_to m events + (if new_mode e =? m then 1 else 0).
Proof.
  induction events as [|x events IH]; cbn [switches_to app]; [lia|].
  rewrite IH. lia.
Qed.

Lemma new_consistent (clock : nat -> time) : consistent (SmartFanApp_new clock).
Proof.
  unfold consistent.
  split; [unfold mode_in_range, MIN_MODE, MAX_MODE; cbn; lia|].
  split; [apply four_modes_count, four_modes_fmap, labels_four_modes|].
  split; [apply four_modes_fmap, labels_four_modes|].
  split; [reflexivity|]. split; [cbn; eauto|]. split; [reflexivity|].
  split; [|split; reflexivity].
  intros m Hm. unfold MIN_MODE, MAX_MODE in Hm.
  assert (m = 0 \/ m = 1 \/ m = 2 \/ m = 3) as [-> | [-> | [-> | ->]]] by lia;
    reflexivity.
Qed.

(** A change to another one of the four modes, in a state whose parts
    agree. *)
Lemma change_mode_changed (app : SmartFanApp) (m : Z) (a : string) :
  consistent app -> m <> mode (fan app) -> MIN_MODE <= m <= MAX_MODE ->
  exists (t last : time),
    time_in_mode_s (stats app) !! mode (fan app) = Some t /\
    _last_ts (stats app) = Some last /\
    let e := mkEvent (now app (S (now_calls app))) a (mode (fan app)) m in
    let app' :=
      mkApp (mkFan m)
            (mkStats (count_mode m (mode_changes (stats app)))
                     (<[mode (fan app) :=
                          time_add t (time_sub (now app (now_calls app)) last)]>
                        (time_in_mode_s (stats app)))
                     m (Some (now app (now_calls app))))
            (history app ++ [e]) (logged app ++ [event_log_line e])
            (now app) (S (S (now_calls app))) in
    _change_mode app m a = (Ok (status app'), app').
Proof.
  intros (Hr&Hmc&Htm&Hlm&[last Hlast]&_) Hne Hm.
  destruct (proj2 (Htm (mode (fan app))) Hr) as [t Ht].
  exists t, last. split; [exact Ht|]. split; [exact Hlast|]. cbn zeta.
  unfold _change_mode, Fan_set_mode.
  destruct (Z.eqb_spec m (mode (fan app))) as [?|_]; [contradiction|].
  destruct (Z.ltb_spec m MIN_MODE) as [?|_]; [lia|].
  destruct (Z.ltb_spec MAX_MODE m) as [?|_]; [lia|]. cbn [orb].
  unfold read_now at 1. cbn [fan stats history logged now now_calls].
  unfold Stats_on_mode_change. rewrite Hlast, Ht. reflexivity.
Qed.

Lemma change_mode_consistent (app : SmartFanApp) (m : Z) (a : string) :
  consistent app -> consistent (snd (_change_mode app m a)).
Proof.
  intros Hc.
  destruct (Z.eq_dec m (mode (fan app))) as [Heq|Hne].
  { unfold _change_mode. rewrite Heq, Z.eqb_refl. exact Hc. }
  destruct (Z_lt_dec m MIN_MODE) as [Hlo|Hlo].
  { rewrite change_mode_rejected; [exact Hc|exact Hne|].
    apply orb_true_iff. left. by apply Z.ltb_lt. }
  destruct (Z_lt_dec MAX_MODE m) as [Hhi|Hhi].
  { rewrite change_mode_rejected; [exact Hc|exact Hne|].
    apply orb_true_iff. right. by apply Z.ltb_lt. }
  assert (Hm : MIN_MODE <= m <= MAX_MODE) by lia.
  destruct (change_mode_changed app m a Hc Hne Hm) as (t&last&Ht&Hlast&Hrun).
  cbn zeta in Hrun. rewrite Hrun. cbn [snd].
  destruct Hc as (Hr&Hmc&Htm&Hlm&_&Hleads&Hcount&Hlog&Hcalls).
  unfold consistent. cbn [fan stats history logged now now_calls mode
    mode_changes time_in_mode_s _last_mode _last_ts].
  split; [exact Hm|]. split; [by apply four_modes_count|].
  split; [by apply four_modes_insert|]. split; [reflexivity|].
  split; [eauto|]. split; [|split; [|split]].
  - by apply (leads_snoc 0 (mode (fan app))).
  - intros k Hk. rewrite switches_to_snoc. cbn [new_mode].
    rewrite (count_mode_lookup m k _ _ (proj2 (Hmc m) Hm) (Hcount k Hk)).
    f_equal. lia.
  - rewrite Hlog, map_app. reflexivity.
  - rewrite Hcalls, List.length_app. cbn. lia.
Qed.

Lemma perform_consistent (app : SmartFanApp) (c : call) :
  consistent app -> consistent (snd (perform app c)).
Proof. destruct c; apply change_mode_consistent. Qed.

(** Every state that calls on a fresh application object lead to has its
    parts in agreement. *)
Lemma reachable_consistent (clock : nat -> time) (calls : list call) :
  consistent (perform_all (SmartFanApp_new clock) calls).
Proof.
  unfold perform_all. generalize (new_consistent clock).
  generalize (SmartFanApp_new clock).
  induction calls as [|c calls IH]; intros app Hc; [exact Hc|].
  cbn. apply IH, perform_consistent, Hc.
Qed.

End FanConsistency.

Section FanTheorems.

Import SmartFan.
Context `{TimeOps}.

(** How [_change_mode] ends in a state whose parts agree. *)
Lemma change_mode_outcome (app : SmartFanApp) (m : Z) (a : string) :
  consistent app ->
  match _change_mode app m a with
  | (Ok text, app') =>
      (m = mode (fan app) /\ app' = app /\
       text = "No change: " +:+ str_int (mode (fan app)) +:+ " ("
              +:+ Fan_status (fan app) +:+ ")") \/
      (m <> mode (fan app) /\ mode (fan app') = m /\ text = status app')
  | (Err e, app') => e = ValueError /\ app' = app /\ (m < 0 \/ 3 < m)
  end.
Proof.
  intros Hc.
  destruct (Z.eq_dec m (mode (fan app))) as [Heq|Hne].
  { unfold _change_mode. rewrite Heq, Z.eqb_refl. left. auto. }
  destruct (Z_lt_dec m MIN_MODE) as [Hlo|Hlo].
  { rewrite change_mode_rejected; [split; [reflexivity|split; [reflexivity|unfold MIN_MODE in Hlo; lia]]|exact Hne|].
    apply orb_true_iff. left. by apply Z.ltb_lt. }
  destruct (Z_lt_dec MAX_MODE m) as [Hhi|Hhi].
  { rewrite change_mode_rejected; [split; [reflexivity|split; [reflexivity|unfold MAX_MODE in Hhi; lia]]|exact Hne|].
    apply orb_true_iff. right. by apply Z.ltb_lt. }
  destruct (change_mode_changed app m a Hc Hne ltac:(lia))
    as (t&last&_&_&Hrun).
  cbn zeta in Hrun. rewrite Hrun. right. auto.
Qed.

(** X24. On an application object as calls have left it, [up] and [down]
    never raise, and [set_mode] raises nothing but the ValueError for a
    mode outside 0..3, which leaves the object as it was; in particular
    the statistics never raise KeyError.  A call that returns gives the
    "No change" text and changes nothing, or gives the status of the new
    state. *)
Theorem fan_calls_raise_only_for_invalid_mode (clock : nat -> time)
    (calls : list call) (c : call) :
  let app := perform_all (SmartFanApp_new clock) calls in
  match perform app c with
  | (Ok text, app') =>
      (app' = app /\
       text = "No change: " +:+ str_int (mode (fan app)) +:+ " ("
              +:+ Fan_status (fan app) +:+ ")") \/
      (mode (fan app') <> mode (fan app) /\ text = status app')
  | (Err e, app') =>
      e = ValueError /\ app' = app /\
      exists m, c = CallSetMode m /\ (m < 0 \/ 3 < m)
  end.
Proof.
  intros app.
  pose proof (reachable_consistent clock calls) as Hc. fold app in Hc.
  assert (Hr : 0 <= mode (fan app) <= 3) by (destruct Hc as [Hr _]; exact Hr).
  assert (Hgen : forall m a,
    (forall mm, c = CallSetMode mm -> mm = m) ->
    (c <> CallUp /\ c <> CallDown \/ 0 <= m <= 3) ->
    perform app c = _change_mode app m a ->
    match perform app c with
    | (Ok text, app') =>
        (app' = app /\
         text = "No change: " +:+ str_int (mode (fan app)) +:+ " ("
                +:+ Fan_status (fan app) +:+ ")") \/
        (mode (fan app') <> mode (fan app) /\ text = status app')
    | (Err e, app') =>
        e = ValueError /\ app' = app /\
        exists m, c = CallSetMode m /\ (m < 0 \/ 3 < m)
    end).
  { intros m a Hset Hkind ->.
    pose proof (change_mode_outcome app m a Hc) as Ho.
    destruct (_change_mode app m a) as [[text|e] app'].
    - destruct Ho as [(_&->&->)|(Hne&Hm&->)]; [left; auto|right].
      split; [congruence|reflexivity].
    - destruct Ho as (->&->&Hout). split; [reflexivity|]. split; [reflexivity|].
      destruct c as [| |mm].
      + destruct Hkind as [[? _]|?]; [congruence|lia].
      + destruct Hkind as [[_ ?]|?]; [congruence|lia].
      + exists mm. split; [reflexivity|]. by rewrite (Hset mm eq_refl). }
  destruct c as [| |m].
  - eapply Hgen; [discriminate| |reflexivity].
    right. unfold MAX_MODE. Z_cases; lia.
  - eapply Hgen; [discriminate| |reflexivity].
    right. unfold MIN_MODE. Z_cases; lia.
  - eapply (Hgen m); [by intros ? [= ->]| |reflexivity].
    left. split; discriminate.
Qed.

(** X25. The history is the path of the fan: it starts in mode 0, every
    event starts in the mode in which the one before it ended and
    switches to another mode within 0..3, and the last event ends in the
    present mode (with no event the mode is still 0).  The lines that
    the application has sent to its logger mirror the history: after the
    line for the initial mode there is one line "ACTION | old -> new" for
    every event, in order. *)
Theorem fan_history_leads_to_mode (clock : nat -> time) (calls : list call) :
  let app := perform_all (SmartFanApp_new clock) calls in
  leads 0 (history app) (mode (fan app)) /\
  logged app =
    "Initial mode: 0 (switched off)" :: List.map event_log_line (history app).
Proof.
  intros app.
  destruct (reachable_consistent clock calls) as (_&_&_&_&_&Hleads&_&Hlog&_).
  by split.
Qed.

(** X26. The counters of the statistics count the switches of the history:
    for each of the four modes the counter is the number of events that
    switched to it, plus one for mode 0, in which the fan starts; and
    [turbo_count] is the number of events that switched to mode 3. *)
Theorem fan_counters_count_switches (clock : nat -> time) (calls : list call) :
  let app := perform_all (SmartFanApp_new clock) calls in
  (forall m, 0 <= m <= 3 ->
     mode_changes (stats app) !! m =
       Some ((if m =? 0 then 1 else 0) + switches_to m (history app))) /\
  Stats_turbo_count (stats app) = switches_to 3 (history app).
Proof.
  intros app.
  destruct (reachable_consistent clock calls) as (_&_&_&_&_&_&Hcount&_).
  fold app in Hcount. split; [exact Hcount|].
  unfold Stats_turbo_count. rewrite (Hcount 3) by (unfold MIN_MODE, MAX_MODE; lia).
  reflexivity.
Qed.

(** X27. The statistics follow the fan, so [finalize] charges the time
    since the last change to the present mode of the fan: it raises
    nothing, adds the time to the entry of that mode, and moves the time
    of the last change to the given time; the counters are left alone. *)
Theorem fan_finalize_charges_current_mode (clock : nat -> time)
    (calls : list call) (ts : time) :
  let app := perform_all (SmartFanApp_new clock) calls in
  exists (t last : time),
    time_in_mode_s (stats app) !! mode (fan app) = Some t /\
    _last_ts (stats app) = Some last /\
    Stats_finalize (stats app) ts =
      (Ok tt,
       mkStats (mode_changes (stats app))
               (<[mode (fan app) := time_add t (time_sub ts last)]>
                  (time_in_mode_s (stats app)))
               (mode (fan app)) (Some ts)).
Proof.
  intros app.
  destruct (reachable_consistent clock calls)
    as (Hr&_&Htm&Hlm&[last Hlast]&_). fold app in Hr, Htm, Hlm, Hlast.
  destruct (proj2 (Htm (mode (fan app))) Hr) as [t Ht].
  exists t, last. split; [exact Ht|]. split; [exact Hlast|].
  unfold Stats_finalize. by rewrite Hlast, Hlm, Ht.
Qed.

Lemma power_by_mode (app : SmartFanApp) :
  mode_in_range app ->
  MODE_LABELS !! mode (fan app) = Some (Fan_status (fan app)) /\
  Fan_status (fan app) <> "unknown mode" /\
  MODE_WATTS !! mode (fan app) = Some (current_power_w app) /\
  (current_power_w app = 0 <-> mode (fan app) = 0) /\
  current_power_w app =
    (if mode (fan app) =? 0 then 0 else if mode (fan app) =? 1 then 20
     else if mode (fan app) =? 2 then 35 else 60).
Proof.
  unfold mode_in_range, MIN_MODE, MAX_MODE, current_power_w, Fan_status.
  destruct app as [[md] st hist lg nw calls]. cbn [fan mode]. intros Hr.
  assert (md = 0 \/ md = 1 \/ md = 2 \/ md = 3) as [-> | [-> | [-> | ->]]] by lia;
    (split; [reflexivity|]; split; [discriminate|]; split; [reflexivity|];
     split; [|reflexivity]; vm_compute; split; intros; congruence).
Qed.

(** X28. In every state that calls lead to, the tables know the mode:
    [Fan.status] is the label of the mode and never "unknown mode", and
    [current_power_w] is the power of the mode in the table, which is 0
    exactly when the fan is switched off; [up] never lowers the power and
    [down] never raises it. *)
Theorem fan_status_and_power_known (clock : nat -> time) (calls : list call) :
  let app := perform_all (SmartFanApp_new clock) calls in
  MODE_LABELS !! mode (fan app) = Some (Fan_status (fan app)) /\
  Fan_status (fan app) <> "unknown mode" /\
  MODE_WATTS !! mode (fan app) = Some (current_power_w app) /\
  (current_power_w app = 0 <-> mode (fan app) = 0) /\
  current_power_w app <= current_power_w (snd (up app)) /\
  current_power_w (snd (down app)) <= current_power_w app.
Proof.
  intros app.
  assert (Hr : mode_in_range app)
    by (destruct (reachable_consistent clock calls) as [Hr _]; exact Hr).
  destruct (power_by_mode app Hr) as (Hl&Hu&Hw&Hz&Hp).
  split; [exact Hl|]. split; [exact Hu|]. split; [exact Hw|]. split; [exact Hz|].
  assert (Hup : mode_in_range (snd (up app))) by apply (perform_in_range app CallUp Hr).
  assert (Hdn : mode_in_range (snd (down app)))
    by apply (perform_in_range app CallDown Hr).
  destruct (power_by_mode _ Hup) as (_&_&_&_&Hpu).
  destruct (power_by_mode _ Hdn) as (_&_&_&_&Hpd).
  unfold mode_in_range, MIN_MODE, MAX_MODE in Hr.
  assert (Hu' : mode (fan (snd (up app))) = Z.min (mode (fan app) + 1) 3).
  { unfold up. rewrite change_mode_mode. unfold MIN_MODE, MAX_MODE.
    Z_cases; lia. }
  assert (Hd' : mode (fan (snd (down app))) = Z.max (mode (fan app) - 1) 0).
  { unfold down. rewrite change_mode_mode. unfold MIN_MODE, MAX_MODE.
    Z_cases; lia. }
  rewrite Hp, Hpu, Hpd, Hu', Hd'. split; Z_cases; lia.
Qed.


End FanTheorems.

Section FanStamps.

Import SmartFan.
Context `{T : TimeOps} `{!StampText T}.



End FanStamps.

(* ===================================================================== *)
(** * The main programme of lesson 1                                    *)
(* ===================================================================== *)

Section LessonMain.

Import ATM.
Context `{IntOfStr}.





End LessonMain.
